(** * GPU SKU inventory ETL: normalization, matching and risk analytics

    A shallow embedding of the transformer layer of the ETL
    ([etl/transformers/*.py]) together with the properties its
    specification states about it.

    - Python [str] values are lists of Unicode code points ([N]).
    - Python [float] prices and scores are idealised as exact rationals
      ([Qc]); [round(x, 2)] is round-half-to-even on hundredths.
    - A naive [datetime] is a count of microseconds ([Z]); [date()] is the
      day number, [timedelta(days=n)] is [n] days' worth of microseconds.
    - Storage queries are functions of the table contents; a storage outage
      is an explicit exception value carried by the database state. *)

From Stdlib Require Import ZArith NArith QArith Qcanon Qround Qabs List String Ascii Bool.
From Stdlib Require Import Lia Lqa.
From Stdlib Require Import Sorting.Sorted Sorting.Permutation.
From stdpp Require Import base option list gmap.
Import ListNotations.

Local Open Scope N_scope.

(** ** Unicode strings *)

(** A Python [str]: a sequence of code points. *)
Abbreviation ustring := (list N).

(** UTF-8 decoding of well-formed byte sequences, used only to write the
    string constants of the source (Korean brand names among them). *)
Fixpoint utf8_decode (bs : list N) : ustring :=
  match bs with
  | [] => []
  | b :: r =>
      if b <? 128 then b :: utf8_decode r
      else if b <? 224 then
        match r with
        | b1 :: r' => ((b - 192) * 64 + (b1 - 128)) :: utf8_decode r'
        | _ => []
        end
      else if b <? 240 then
        match r with
        | b1 :: b2 :: r' =>
            ((b - 224) * 4096 + (b1 - 128) * 64 + (b2 - 128)) :: utf8_decode r'
        | _ => []
        end
      else
        match r with
        | b1 :: b2 :: b3 :: r' =>
            ((b - 240) * 262144 + (b1 - 128) * 4096 + (b2 - 128) * 64 + (b3 - 128))
              :: utf8_decode r'
        | _ => []
        end
  end.

Fixpoint bytes_of_string (s : string) : list N :=
  match s with
  | EmptyString => []
  | String a r => N_of_ascii a :: bytes_of_string r
  end.

(** [u "text"] is the Python string literal ["text"]. *)
Definition u (s : string) : ustring := utf8_decode (bytes_of_string s).

(** *** Character classification

    For ASCII the classification and case tables are written out.  Beyond
    ASCII they are data of the Unicode character database, which is not
    part of this repository: it is a parameter of the development. *)

Record ucd : Type := {
  ext_isspace : N -> bool;      (* Py_UNICODE_ISSPACE, c >= 128 *)
  ext_isdecimal : N -> bool;    (* Py_UNICODE_ISDECIMAL *)
  ext_isalnum : N -> bool;      (* Py_UNICODE_ISALNUM *)
  ext_tolower : N -> N;         (* simple lowercase mapping (sre) *)
  ext_toupper : N -> N;         (* simple uppercase mapping (sre) *)
  ext_lower : N -> ustring;     (* full lowercase mapping (str.lower) *)
  ext_upper : N -> ustring;     (* full uppercase mapping (str.upper) *)
  ext_title : N -> ustring      (* full titlecase mapping (str.capitalize) *)
}.

Definition is_ascii (c : N) : bool := c <? 128.

Definition ascii_isupper (c : N) : bool := (65 <=? c) && (c <=? 90).
Definition ascii_islower (c : N) : bool := (97 <=? c) && (c <=? 122).
Definition ascii_isdigit (c : N) : bool := (48 <=? c) && (c <=? 57).
Definition ascii_isspace (c : N) : bool :=
  ((9 <=? c) && (c <=? 13)) || ((28 <=? c) && (c <=? 32)).
Definition ascii_tolower (c : N) : N := if ascii_isupper c then c + 32 else c.
Definition ascii_toupper (c : N) : N := if ascii_islower c then c - 32 else c.

Section Unicode.
Context (U : ucd).

Definition isspace (c : N) : bool :=
  if is_ascii c then ascii_isspace c else ext_isspace U c.
Definition isdecimal (c : N) : bool :=
  if is_ascii c then ascii_isdigit c else ext_isdecimal U c.
Definition isalnum (c : N) : bool :=
  if is_ascii c then ascii_isupper c || ascii_islower c || ascii_isdigit c
  else ext_isalnum U c.
(** [\w]: alphanumeric or underscore. *)
Definition isword (c : N) : bool := isalnum c || (c =? 95).

Definition tolower (c : N) : N :=
  if is_ascii c then ascii_tolower c else ext_tolower U c.
Definition toupper (c : N) : N :=
  if is_ascii c then ascii_toupper c else ext_toupper U c.

Definition lower_char (c : N) : ustring :=
  if is_ascii c then [ascii_tolower c] else ext_lower U c.
Definition upper_char (c : N) : ustring :=
  if is_ascii c then [ascii_toupper c] else ext_upper U c.
Definition title_char (c : N) : ustring :=
  if is_ascii c then [ascii_toupper c] else ext_title U c.

(** [str.lower], [str.upper], [str.capitalize]. *)
Definition py_lower (s : ustring) : ustring := flat_map lower_char s.
Definition py_upper (s : ustring) : ustring := flat_map upper_char s.
Definition py_capitalize (s : ustring) : ustring :=
  match s with
  | [] => []
  | c :: r => title_char c ++ py_lower r
  end.

(** [str.split()] with no argument: maximal runs of non-whitespace. *)
Fixpoint split_acc (acc : ustring) (s : ustring) : list ustring :=
  match s with
  | [] => match acc with [] => [] | _ => [rev acc] end
  | c :: s' =>
      if isspace c then
        match acc with
        | [] => split_acc [] s'
        | _ => rev acc :: split_acc [] s'
        end
      else split_acc (c :: acc) s'
  end.
Definition py_split (s : ustring) : list ustring := split_acc [] s.

(** [sep.join(words)]. *)
Fixpoint py_join (sep : ustring) (ws : list ustring) : ustring :=
  match ws with
  | [] => []
  | [w] => w
  | w :: ws' => w ++ sep ++ py_join sep ws'
  end.

(** [str.strip()]. *)
Fixpoint lstrip (s : ustring) : ustring :=
  match s with
  | [] => []
  | c :: s' => if isspace c then lstrip s' else s
  end.
Definition py_strip (s : ustring) : ustring := rev (lstrip (rev (lstrip s))).

(** [s.startswith(p)]. *)
Fixpoint startswith (p s : ustring) : bool :=
  match p, s with
  | [], _ => true
  | a :: p', b :: s' => (a =? b) && startswith p' s'
  | _ :: _, [] => false
  end.

(** [p in s] for strings. *)
Fixpoint contains (p s : ustring) : bool :=
  startswith p s ||
  match s with
  | [] => false
  | _ :: s' => contains p s'
  end.
End Unicode.

(** ** Regular expressions

    The fragment of Python's [re] that the source uses, with the
    backtracking semantics of the [sre] engine: alternatives are tried in
    order, quantifiers are greedy, and a search returns the leftmost
    position at which the pattern matches. *)

Inductive cset : Type :=
| CLit (c : N)                (* a literal character *)
| CSpace                      (* \s *)
| CDigit                      (* \d *)
| CWord                       (* \w *)
| CRange (lo hi : N)          (* lo-hi *)
| CUnion (a b : cset)
| CNot (a : cset).            (* [^...] *)

Inductive regex : Type :=
| Chr (k : cset)              (* one character of a class *)
| LitI (c : N)                (* a literal compiled under IGNORECASE *)
| Eps
| Seq (a b : regex)
| Alt (a b : regex)
| Plus (k : cset)             (* k+ *)
| Star (k : cset)             (* k* *)
| Opt (a : regex)             (* a? *)
| WordB                       (* \b *)
| Group (a : regex).          (* the capturing group 1 *)

(** [_EXTRA_CASES] of [re/_casefix.py]: lowercase characters that have the
    same uppercase as another lowercase character. *)
Definition sre_extra_cases : list (N * list N) :=
  [ (105, [305]); (115, [383]); (181, [956]); (305, [105]);
    (383, [115]); (837, [953; 8126]); (912, [8147]); (944, [8163]);
    (946, [976]); (949, [1013]); (952, [977]); (953, [837; 8126]);
    (954, [1008]); (956, [181]); (960, [982]); (961, [1009]);
    (962, [963]); (963, [962]); (966, [981]); (976, [946]);
    (977, [952]); (981, [966]); (982, [960]); (1008, [954]);
    (1009, [961]); (1013, [949]); (1074, [7296]); (1076, [7297]);
    (1086, [7298]); (1089, [7299]); (1090, [7300; 7301]); (1098, [7302]);
    (1123, [7303]); (7296, [1074]); (7297, [1076]); (7298, [1086]);
    (7299, [1089]); (7300, [1090; 7301]); (7301, [1090; 7300]); (7302, [1098]);
    (7303, [1123]); (7304, [42571]); (7777, [7835]); (7835, [7777]);
    (8126, [837; 953]); (8147, [912]); (8163, [944]); (42571, [7304]);
    (64261, [64262]); (64262, [64261]) ].

Fixpoint assoc_default {A : Type} (d : A) (k : N) (l : list (N * A)) : A :=
  match l with
  | [] => d
  | (k', v) :: l' => if k =? k' then v else assoc_default d k l'
  end.

Definition sre_fixes (lo : N) : list N := assoc_default [] lo sre_extra_cases.

(** A match object: the text before the match, [group(0)], [group(1)] and
    the text after the match. *)
Record match_obj : Type := {
  m_before : ustring;
  m_group0 : ustring;
  m_group1 : option ustring;
  m_after : ustring
}.

(** What a match has consumed, given the input and the remaining input. *)
Definition consumed (s rest : ustring) : ustring :=
  firstn (length s - length rest) s.

Section Regex.
Context (U : ucd).

Fixpoint cset_match (k : cset) (c : N) : bool :=
  match k with
  | CLit l => c =? l
  | CSpace => isspace U c
  | CDigit => isdecimal U c
  | CWord => isword U c
  | CRange lo hi => (lo <=? c) && (c <=? hi)
  | CUnion a b => cset_match a c || cset_match b c
  | CNot a => negb (cset_match a c)
  end.

Definition iscased (c : N) : bool :=
  negb (c =? tolower U c) || negb (c =? toupper U c).

(** A literal [l] of an IGNORECASE pattern against the character [t]:
    an uncased literal is compared as it is; a cased one is lowered, and
    the lowered text character must be it or one of its extra cases. *)
Definition lit_match_i (l t : N) : bool :=
  if iscased l then
    let lo := tolower U l in
    let lt := tolower U t in
    (lt =? lo) || existsb (N.eqb lt) (sre_fixes lo)
  else t =? l.

(** [\b]: exactly one side of the position is a word character. *)
Definition is_word_opt (c : option N) : bool :=
  match c with Some c => isword U c | None => false end.
Definition at_boundary (prev : option N) (s : ustring) : bool :=
  xorb (is_word_opt prev) (is_word_opt (head s)).

(** The capture of group 1: the input where the group was entered and
    where it was left. *)
Definition capture : Type := option (ustring * ustring).

Section Matcher.
Context {R : Type}.

(** Greedy repetition of a character class, longest first. *)
Fixpoint star_c (p : N -> bool) (prev : option N) (s : ustring)
         (k : option N -> ustring -> option R) : option R :=
  match s with
  | c :: s' =>
      if p c then
        match star_c p (Some c) s' k with
        | Some x => Some x
        | None => k prev s
        end
      else k prev s
  | [] => k prev s
  end.

(** [rmatch r prev s cap k]: match [r] at the head of [s], the character
    before it being [prev], then continue with [k]; [None] when every
    way of matching [r] makes the continuation fail. *)
Fixpoint rmatch (r : regex) (prev : option N) (s : ustring) (cap : capture)
         (k : option N -> ustring -> capture -> option R) : option R :=
  match r with
  | Chr cs =>
      match s with
      | c :: s' => if cset_match cs c then k (Some c) s' cap else None
      | [] => None
      end
  | LitI l =>
      match s with
      | c :: s' => if lit_match_i l c then k (Some c) s' cap else None
      | [] => None
      end
  | Eps => k prev s cap
  | Seq a b => rmatch a prev s cap (fun p s' c => rmatch b p s' c k)
  | Alt a b =>
      match rmatch a prev s cap k with
      | Some x => Some x
      | None => rmatch b prev s cap k
      end
  | Plus cs =>
      match s with
      | c :: s' =>
          if cset_match cs c
          then star_c (cset_match cs) (Some c) s' (fun p s'' => k p s'' cap)
          else None
      | [] => None
      end
  | Star cs => star_c (cset_match cs) prev s (fun p s'' => k p s'' cap)
  | Opt a =>
      match rmatch a prev s cap k with
      | Some x => Some x
      | None => k prev s cap
      end
  | WordB => if at_boundary prev s then k prev s cap else None
  | Group a => rmatch a prev s cap (fun p s' _ => k p s' (Some (s, s')))
  end.
End Matcher.

(** A match anchored at the head of [s]: the remaining input and the
    capture. *)
Definition match_here (r : regex) (prev : option N) (s : ustring)
  : option (ustring * capture) :=
  rmatch r prev s None (fun _ s' c => Some (s', c)).

Definition group_text (c : capture) : option ustring :=
  match c with
  | Some (a, b) => Some (consumed a b)
  | None => None
  end.

(** [pattern.search(s)]: the first position, from the left, with a match. *)
Fixpoint search_from (r : regex) (before : ustring) (prev : option N)
         (s : ustring) : option match_obj :=
  match match_here r prev s with
  | Some (rest, cap) =>
      Some {| m_before := rev before; m_group0 := consumed s rest;
              m_group1 := group_text cap; m_after := rest |}
  | None =>
      match s with
      | [] => None
      | c :: s' => search_from r (c :: before) (Some c) s'
      end
  end.
Definition re_search (r : regex) (s : ustring) : option match_obj :=
  search_from r [] None s.

(** [re.sub(r, repl, s)]: every leftmost non-overlapping match is replaced.
    [skip] counts the characters of the current match still to drop.
    (None of the patterns below matches the empty string; an empty match
    inserts [repl] and moves on by one character.) *)
Fixpoint sub_from (r : regex) (repl : ustring) (skip : nat) (prev : option N)
         (s : ustring) : ustring :=
  match skip with
  | S n =>
      match s with
      | c :: s' => sub_from r repl n (Some c) s'
      | [] => []
      end
  | O =>
      match match_here r prev s with
      | Some (rest, _) =>
          repl ++
          match s with
          | c :: s' =>
              match (length s - length rest)%nat with
              | O => c :: sub_from r repl O (Some c) s'
              | S n => sub_from r repl n (Some c) s'
              end
          | [] => []
          end
      | None =>
          match s with
          | c :: s' => c :: sub_from r repl O (Some c) s'
          | [] => []
          end
      end
  end.
Definition re_sub (r : regex) (repl s : ustring) : ustring :=
  sub_from r repl O None s.
End Regex.

(** Pattern construction. *)
Definition seqs (rs : list regex) : regex := fold_right Seq Eps rs.
Fixpoint alts (rs : list regex) : regex :=
  match rs with
  | [] => Chr (CNot (CNot (CRange 1 0)))   (* matches nothing *)
  | [r] => r
  | r :: rs' => Alt r (alts rs')
  end.
(** A literal under IGNORECASE, and a literal compared exactly. *)
Definition lit_i (s : ustring) : regex := seqs (map LitI s).
Definition lit (s : ustring) : regex := seqs (map (fun c => Chr (CLit c)) s).

(** ** Results and exceptions *)

(** The outcome of a call: a returned value or a raised exception. *)
Inductive result (E A : Type) : Type :=
| Ok (a : A)
| Raise (e : E).
Arguments Ok {E A} a.
Arguments Raise {E A} e.

Definition bind {E A B : Type} (x : result E A) (f : A -> result E B) : result E B :=
  match x with
  | Ok a => f a
  | Raise e => Raise e
  end.

Notation "'let*' x ':=' e 'in' k" := (bind e (fun x => k))
  (at level 10, x name, e at level 100, k at level 200).

Fixpoint ustring_eqb (a b : ustring) : bool :=
  match a, b with
  | [], [] => true
  | x :: a', y :: b' => (x =? y) && ustring_eqb a' b'
  | _, _ => false
  end.

(** [x in l] for a list of strings. *)
Definition str_in (x : ustring) (l : list ustring) : bool := existsb (ustring_eqb x) l.

(** ** [transformers/product_normalizer.py] *)

Module ProductNormalizer.

(** [models.NormalizedProduct]. *)
Record NormalizedProduct : Type := {
  brand : ustring;
  chipset : ustring;
  model_name : ustring;
  vram : ustring;
  is_oc : bool
}.

Inductive error : Type :=
| NormalizationError (msg : ustring).

Definition message (e : error) : ustring :=
  match e with NormalizationError m => m end.

Definition RTX_4070_VARIANTS : list ustring :=
  Eval vm_compute in
    [ u "RTX 4070 Ti Super"; u "RTX 4070 Super"; u "RTX 4070 Ti"; u "RTX 4070" ].

Definition BRANDS : list ustring :=
  Eval vm_compute in
    [ u "ASUS"; u "MSI"; u "GIGABYTE"; u "기가바이트"; u "ZOTAC"; u "PALIT"; u "팔릿";
      u "GALAX"; u "GAINWARD"; u "이엠텍"; u "EMTEK"; u "PNY"; u "INNO3D";
      u "COLORFUL"; u "MANLI"; u "KFA2"; u "EVGA"; u "LEADTEK" ].

(** [\s+] *)
Definition ws : regex := Plus CSpace.

Definition w_rtx : regex := Eval vm_compute in lit_i (u "RTX").
Definition w_4070 : regex := Eval vm_compute in lit_i (u "4070").
Definition w_ti : regex := Eval vm_compute in lit_i (u "Ti").
Definition w_super : regex := Eval vm_compute in lit_i (u "Super").

(** [_compile_brand_pattern]: [\b(ASUS|MSI|...)\b], IGNORECASE
    ([re.escape] leaves these names as they are). *)
Definition brand_pattern : regex :=
  seqs [WordB; Group (alts (map lit_i BRANDS)); WordB].

(** The alternatives of [_compile_chipset_pattern], in the order of the
    source: the four forms with the RTX prefix, then the three abbreviated
    forms without it. *)
Definition alt_rtx_ti_super : regex := seqs [w_rtx; ws; w_4070; ws; w_ti; ws; w_super].
Definition alt_rtx_super : regex := seqs [w_rtx; ws; w_4070; ws; w_super].
Definition alt_rtx_ti : regex := seqs [w_rtx; ws; w_4070; ws; w_ti].
Definition alt_rtx : regex := seqs [w_rtx; ws; w_4070].
Definition alt_ti_super : regex := seqs [w_4070; ws; w_ti; ws; w_super].
Definition alt_super : regex := seqs [w_4070; ws; w_super].
Definition alt_ti : regex := seqs [w_4070; ws; w_ti].

Definition chipset_alternatives : list regex :=
  [ alt_rtx_ti_super; alt_rtx_super; alt_rtx_ti; alt_rtx;
    alt_ti_super; alt_super; alt_ti ].

(** [_compile_chipset_pattern]: [\b(...|...)\b], IGNORECASE. *)
Definition chipset_pattern : regex :=
  seqs [WordB; Group (alts chipset_alternatives); WordB].

(** [(\d+)\s*GB], IGNORECASE. *)
Definition vram_pattern : regex :=
  seqs [Group (Plus CDigit); Star CSpace; lit_i (u "GB")].

(** [\b(OC|오버클럭|Overclock)\b], IGNORECASE. *)
Definition oc_pattern : regex :=
  seqs [WordB; Group (alts [lit_i (u "OC"); lit_i (u "오버클럭"); lit_i (u "Overclock")]); WordB].

(** [\d+\s*GB], [\b(D6X?|GDDR6X?)\b], [\b(지포스|GeForce)\b], all IGNORECASE,
    and [[^\w\s가-힣-]]. *)
Definition vram_words : regex := seqs [Plus CDigit; Star CSpace; lit_i (u "GB")].
Definition memory_type : regex :=
  seqs [WordB;
        Group (alts [seqs [lit_i (u "D6"); Opt (LitI 88)];
                     seqs [lit_i (u "GDDR6"); Opt (LitI 88)]]);
        WordB].
Definition gpu_family : regex :=
  seqs [WordB; Group (alts [lit_i (u "지포스"); lit_i (u "GeForce")]); WordB].
Definition decoration : regex :=
  Chr (CNot (CUnion CWord (CUnion CSpace (CUnion (CRange 44032 55203) (CLit 45))))).

Definition brand_mapping : list (ustring * ustring) :=
  Eval vm_compute in
    [ (u "기가바이트", u "GIGABYTE"); (u "팔릿", u "PALIT"); (u "이엠텍", u "EMTEK") ].

(** [d.get(k, default)]. *)
Fixpoint dict_get (d : list (ustring * ustring)) (k default : ustring) : ustring :=
  match d with
  | [] => default
  | (k', v) :: d' => if ustring_eqb k k' then v else dict_get d' k default
  end.

Section WithUnicode.
Context (U : ucd).

Definition _extract_brand (name : ustring) : result error ustring :=
  match re_search U brand_pattern name with
  | None => Raise (NormalizationError (u "Failed to extract brand from: " ++ name))
  | Some mo =>
      let brand := py_upper U (default [] (m_group1 mo)) in
      Ok (dict_get brand_mapping brand brand)
  end.

(** One word of the chipset in standard format. *)
Definition standard_word (word : ustring) : ustring :=
  if negb (str_in (py_lower U word) [u "rtx"])
  then py_capitalize U word
  else py_upper U word.

(** The text of a chipset match in standard format: whitespace
    normalised, the RTX prefix added when missing, title case. *)
Definition canonical_chipset (matched : ustring) : ustring :=
  let chipset := py_join (u " ") (py_split U matched) in
  let chipset :=
    if negb (startswith (u "RTX") (py_upper U chipset))
    then u "RTX " ++ chipset
    else chipset in
  py_join (u " ") (map standard_word (py_split U chipset)).

Definition _extract_chipset (name : ustring) : result error ustring :=
  match re_search U chipset_pattern name with
  | None => Raise (NormalizationError (u "Failed to extract chipset from: " ++ name))
  | Some mo =>
      let chipset_normalized := canonical_chipset (default [] (m_group1 mo)) in
      if negb (str_in chipset_normalized RTX_4070_VARIANTS)
      then Raise (NormalizationError
                    (u "Chipset " ++ chipset_normalized ++ u " not in RTX 4070 series"))
      else Ok chipset_normalized
  end.

Definition _extract_vram (name : ustring) : result error ustring :=
  match re_search U vram_pattern name with
  | None => Raise (NormalizationError (u "Failed to extract VRAM from: " ++ name))
  | Some mo => Ok (default [] (m_group1 mo) ++ u "GB")
  end.

Definition _detect_oc (name : ustring) : bool :=
  match re_search U oc_pattern name with
  | Some _ => true
  | None => false
  end.

Definition _extract_model_name (name brand chipset : ustring) : ustring :=
  let cleaned := name in
  let cleaned := re_sub U (lit_i brand) [] cleaned in
  let cleaned := re_sub U (lit_i chipset) [] cleaned in
  let cleaned := re_sub U vram_words [] cleaned in
  let cleaned := re_sub U oc_pattern [] cleaned in
  let cleaned := re_sub U memory_type [] cleaned in
  let cleaned := re_sub U gpu_family [] cleaned in
  let cleaned := re_sub U decoration (u " ") cleaned in
  let cleaned := py_join (u " ") (py_split U cleaned) in
  let cleaned := py_strip U cleaned in
  if (2 <? length cleaned)%nat then cleaned else name.

Definition normalize (product_name : ustring) : result error NormalizedProduct :=
  match py_strip U product_name with
  | [] => Raise (NormalizationError (u "Product name cannot be empty"))
  | _ =>
      let* brand := _extract_brand product_name in
      let* chipset := _extract_chipset product_name in
      let* vram := _extract_vram product_name in
      let is_oc := _detect_oc product_name in
      let model_name := _extract_model_name product_name brand chipset in
      Ok {| brand := brand; chipset := chipset; model_name := model_name;
            vram := vram; is_oc := is_oc |}
  end.
End WithUnicode.

End ProductNormalizer.

(** The entries of the Unicode tables for the non-ASCII characters that the
    examples below use: the whitespace characters, the Hangul syllables,
    and the letters whose case mappings reach ASCII (U+0130, U+0131,
    U+017F, U+212A).  Every other character is treated as a caseless
    symbol. *)
Definition ucd_excerpt : ucd := {|
  ext_isspace := fun c =>
    existsb (N.eqb c)
      [133; 160; 5760; 8232; 8233; 8239; 8287; 12288] || ((8192 <=? c) && (c <=? 8202));
  ext_isdecimal := fun _ => false;
  ext_isalnum := fun c =>
    ((44032 <=? c) && (c <=? 55203)) || existsb (N.eqb c) [304; 305; 383; 8490];
  ext_tolower := fun c => if c =? 304 then 105 else if c =? 8490 then 107 else c;
  ext_toupper := fun c => if c =? 305 then 73 else if c =? 383 then 83 else c;
  ext_lower := fun c =>
    if c =? 304 then [105; 775] else if c =? 8490 then [107] else [c];
  ext_upper := fun c => if c =? 305 then [73] else if c =? 383 then [83] else [c];
  ext_title := fun c => if c =? 305 then [73] else if c =? 383 then [83] else [c]
|}.

(** ** Numbers and time *)

Definition Qcleb (a b : Qc) : bool := Qle_bool a b.
Definition Qcltb (a b : Qc) : bool := negb (Qle_bool b a).
Definition Qceqb (a b : Qc) : bool := Qeq_bool a b.
Definition Qc_of_Z (z : Z) : Qc := Q2Qc (inject_Z z).
Definition Qc_of_nat (n : nat) : Qc := Qc_of_Z (Z.of_nat n).

(** The nearest integer, ties to the even one. *)
Definition round_half_even (q : Q) : Z :=
  let f := Qfloor q in
  match Qcompare (q - inject_Z f) (1 # 2) with
  | Lt => f
  | Gt => (f + 1)%Z
  | Eq => if Z.even f then f else (f + 1)%Z
  end.

(** [round(x, 2)]. *)
Definition py_round2 (x : Qc) : Qc :=
  Q2Qc (inject_Z (round_half_even (x * 100)) / 100).

(** [sum(l)] and [sum(l) / len(l)]. *)
Definition py_sum (l : list Qc) : Qc := fold_left Qcplus l (Q2Qc 0).
Definition mean (l : list Qc) : Qc := (py_sum l / Qc_of_nat (length l))%Qc.

(** A naive [datetime], in microseconds; [timedelta(days=n)]; [date()];
    [timedelta.days]. *)
Definition day_us : Z := 86400000000.
Definition timedelta_days (n : Z) : Z := (n * day_us)%Z.
Definition date_of (t : Z) : Z := (t / day_us)%Z.
Definition timedelta_in_days (d : Z) : Z := (d / day_us)%Z.

(** ** Exceptions and storage ([db_connection.py]) *)

(** A formatted message: the literal text with the values substituted into
    it. *)
Inductive frag : Type :=
| Txt (s : string)
| Int (z : Z)
| Num (q : Qc).

Inductive exn : Type :=
| ValueError (msg : list frag)
| InsufficientDataError (msg : list frag)
| SKUMatchError (msg : list frag)
| DatabaseError (msg : list frag)
| DatabaseConnectionError (msg : list frag).

(** [str(e)]. *)
Definition str_exn (e : exn) : list frag :=
  match e with
  | ValueError m | InsufficientDataError m | SKUMatchError m
  | DatabaseError m | DatabaseConnectionError m => m
  end.

Module Storage.

(** A row of [price_logs]. *)
Record price_log : Type := {
  pl_sku_id : Z;
  pl_price : Qc;
  pl_recorded_at : Z
}.

(** A row of [skus]. *)
Record sku : Type := {
  sku_id : Z;
  sku_brand : ustring;
  sku_chipset : ustring;
  sku_model_name : ustring;
  sku_vram : ustring;
  sku_is_oc : bool
}.

(** The database as the transformers see it: the two tables they read,
    and, during an outage, the exception that every query raises (after
    the retries of [execute_with_retry], where it is used). *)
Record database : Type := {
  price_logs : list price_log;
  skus : list sku;
  outage : option exn
}.

(** Running a query: its rows, or the exception of the outage. *)
Definition execute {A : Type} (db : database) (rows : list A) : result exn (list A) :=
  match outage db with
  | Some e => Raise e
  | None => Ok rows
  end.

(** [ORDER BY ... ]: a stable insertion sort, [before a b] telling that
    [a] may stand before [b]. *)
Section OrderBy.
Context {A : Type} (before : A -> A -> bool).
Fixpoint insert_row (x : A) (l : list A) : list A :=
  match l with
  | [] => [x]
  | y :: l' => if before x y then x :: l else y :: insert_row x l'
  end.
Definition order_by (l : list A) : list A := fold_right insert_row [] l.
End OrderBy.

End Storage.

(** ** [config.py] *)

Module Config.

(** The settings that the modules below read. *)
Record Settings : Type := {
  risk_threshold : Qc;
  sentiment_weight_new_release : Qc;
  sentiment_weight_price_drop : Qc;
  sentiment_weight_default : Qc;
  max_retries : Z;
  retry_backoff_seconds : Z
}.

(** The defaults of the fields. *)
Definition default_settings : Settings := {|
  risk_threshold := Qc_of_Z 100;
  sentiment_weight_new_release := Qc_of_Z 3;
  sentiment_weight_price_drop := Qc_of_Z 2;
  sentiment_weight_default := Qc_of_Z 1;
  max_retries := 3;
  retry_backoff_seconds := 5
|}.

(** The constraints [ge=1] of the two retry fields, which are checked when
    the settings are loaded. *)
Definition field_constraints (settings : Settings) : Prop :=
  (1 <= max_retries settings)%Z /\ (1 <= retry_backoff_seconds settings)%Z.

End Config.

(** ** The retries of [db_connection.py] *)

Module DatabaseManager.
Import Config.

(** What one attempt does: the block under [try] returns, raises one of
    the errors of the driver that the loop catches ([OperationalError],
    [DatabaseError]), or raises something else. *)
Inductive outcome (A : Type) : Type :=
| returns (a : A)
| driver_error (e : list frag)
| other_error (e : exn).
Arguments returns {A} a.
Arguments driver_error {A} e.
Arguments other_error {A} e.

(** [f"{last_error}"]. *)
Definition format_last_error (last_error : option (list frag)) : list frag :=
  match last_error with
  | Some e => e
  | None => [Txt "None"]
  end.

Section Retry.
Context {A : Type} (settings : Settings).
(** The outcome of each attempt, by its number from 0, and the exception
    raised when the attempts are used up. *)
Context (attempt : nat -> outcome A) (final_error : list frag -> exn).

(** The [while retries < settings.max_retries] loop, on the state
    [(retries, last_error)] and the durations slept so far.  Every turn
    returns or adds one to [retries]: [fuel] bounds the turns, and [None]
    tells that it did not suffice. *)
Fixpoint retry_loop (fuel : nat) (retries : Z) (last_error : option (list frag))
         (slept : list Z) : option (result exn A * list Z) :=
  if (retries <? max_retries settings)%Z then
    match fuel with
    | O => None
    | S fuel =>
        match attempt (Z.to_nat retries) with
        | returns a => Some (Ok a, slept)
        | other_error e => Some (Raise e, slept)
        | driver_error e =>
            let last_error := Some e in
            let retries := (retries + 1)%Z in
            if (retries <? max_retries settings)%Z then
              let backoff_time :=
                (retry_backoff_seconds settings * 2 ^ (retries - 1))%Z in
              retry_loop fuel retries last_error (slept ++ [backoff_time])
            else retry_loop fuel retries last_error slept
        end
    end
  else Some (Raise (final_error (format_last_error last_error)), slept).
End Retry.

(** [execute_with_retry]: the rows (or [None] without [fetch]) of the first
    attempt that returns, with the durations of the calls of
    [time.sleep]. *)
Definition execute_with_retry {A : Type} (settings : Settings) (attempt : nat -> outcome A)
  : option (result exn A * list Z) :=
  retry_loop settings attempt
    (fun last_error =>
       DatabaseError ([Txt "Query failed after "; Int (max_retries settings);
                       Txt " attempts: "] ++ last_error))
    (Z.to_nat (max_retries settings)) 0 None [].

(** [_initialize_pool]: the pool of the first attempt that returns. *)
Definition _initialize_pool {A : Type} (settings : Settings) (attempt : nat -> outcome A)
  : option (result exn A * list Z) :=
  retry_loop settings attempt
    (fun last_error =>
       DatabaseConnectionError
         ([Txt "Failed to connect to database after "; Int (max_retries settings);
           Txt " attempts: "] ++ last_error))
    (Z.to_nat (max_retries settings)) 0 None [].

End DatabaseManager.

(** ** [transformers/price_analyzer.py] *)

Module PriceAnalyzer.
Import Storage.

(** [SELECT price FROM price_logs WHERE sku_id = %s AND recorded_at >= %s
    AND recorded_at <= %s ORDER BY recorded_at DESC]. *)
Definition in_window (sku_id start_date end_date : Z) (row : price_log) : bool :=
  (pl_sku_id row =? sku_id)%Z
  && (start_date <=? pl_recorded_at row)%Z
  && (pl_recorded_at row <=? end_date)%Z.

Definition recorded_at_desc (a b : price_log) : bool :=
  (pl_recorded_at b <=? pl_recorded_at a)%Z.

Definition select_window (db : database) (sku_id start_date end_date : Z)
  : list price_log :=
  order_by recorded_at_desc (List.filter (in_window sku_id start_date end_date) (price_logs db)).

Definition _get_historical_prices (db : database) (now : Z)
           (sku_id days_ago window_days : Z) : result exn (list Qc) :=
  let target_date := (now - timedelta_days days_ago)%Z in
  let start_date := (target_date - timedelta_days window_days)%Z in
  let end_date := (target_date + timedelta_days window_days)%Z in
  let* results := execute db (select_window db sku_id start_date end_date) in
  Ok (map pl_price results).

Definition calculate_price_change (db : database) (now : Z)
           (sku_id : Z) (current_price : Qc) : result exn Qc :=
  if Qcleb current_price (Q2Qc 0) then
    Raise (ValueError [Txt "Invalid price: "; Num current_price;
                       Txt ". Price must be positive."])
  else
    let* historical_prices := _get_historical_prices db now sku_id 7 1 in
    match historical_prices with
    | [] =>
        Raise (InsufficientDataError
                 [Txt "Insufficient historical data for SKU "; Int sku_id;
                  Txt ". Need at least 7 days of price history."])
    | _ =>
        let avg_price_7_days_ago := mean historical_prices in
        if Qceqb avg_price_7_days_ago (Q2Qc 0) then
          Raise (ValueError [Txt "Historical average price is zero for SKU ";
                             Int sku_id])
        else
          let price_change_pct :=
            ((current_price - avg_price_7_days_ago) / avg_price_7_days_ago
             * Qc_of_Z 100)%Qc in
          Ok (py_round2 price_change_pct)
    end.

(** [SELECT recorded_at, price FROM price_logs WHERE sku_id = %s AND
    recorded_at >= %s ORDER BY recorded_at DESC]. *)
Definition get_price_history (db : database) (now : Z) (sku_id days : Z)
  : result exn (list (Z * Qc)) :=
  let start_date := (now - timedelta_days days)%Z in
  let* results :=
    execute db
      (order_by recorded_at_desc
         (List.filter (fun row => (pl_sku_id row =? sku_id)%Z
                             && (start_date <=? pl_recorded_at row)%Z)
                 (price_logs db))) in
  Ok (map (fun row => (pl_recorded_at row, pl_price row)) results).

(** [SELECT MIN(recorded_at) FROM price_logs WHERE sku_id = %s]: always one
    row, holding NULL when the product has no observation. *)
Fixpoint min_opt (l : list Z) : option Z :=
  match l with
  | [] => None
  | x :: l' =>
      match min_opt l' with
      | None => Some x
      | Some y => Some (Z.min x y)
      end
  end.
Definition earliest_recorded_at (db : database) (sku_id : Z) : option Z :=
  min_opt (map pl_recorded_at
               (List.filter (fun row => (pl_sku_id row =? sku_id)%Z) (price_logs db))).

Definition has_sufficient_data (db : database) (now : Z)
           (sku_id required_days : Z) : result exn bool :=
  match execute db [earliest_recorded_at db sku_id] with
  | Ok results =>
      match results with
      | Some earliest_date :: _ =>
          let days_of_data := timedelta_in_days (now - earliest_date) in
          Ok (required_days <=? days_of_data)%Z
      | _ => Ok false
      end
  | Raise e => Ok false        (* except Exception: return False *)
  end.

End PriceAnalyzer.

(** ** [transformers/risk_calculator.py] *)

Module RiskCalculator.
Import Storage.

Definition calculate_risk_index (db : database) (now : Z)
           (sku_id : Z) (current_price : Qc) (new_release_mentions : Z)
  : result exn Qc :=
  if Qcleb current_price (Q2Qc 0) then
    Raise (ValueError [Txt "Invalid price: "; Num current_price;
                       Txt ". Price must be positive."])
  else if (new_release_mentions <? 0)%Z then
    Raise (ValueError [Txt "Invalid new_release_mentions: "; Int new_release_mentions;
                       Txt ". Must be non-negative."])
  else
    let* historical_prices :=
      PriceAnalyzer._get_historical_prices db now sku_id 7 1 in
    match historical_prices with
    | [] =>
        Raise (InsufficientDataError
                 [Txt "Insufficient historical data for SKU "; Int sku_id;
                  Txt ". Need at least 7 days of price history."])
    | _ =>
        let last_week_avg_price := mean historical_prices in
        let price_delta := (current_price - last_week_avg_price)%Qc in
        let sentiment_impact := (Qc_of_Z new_release_mentions * Q2Qc (3 # 10))%Qc in
        let risk_index := (price_delta + sentiment_impact)%Qc in
        Ok (py_round2 risk_index)
    end.

(** [self.threshold] is [settings.risk_threshold]. *)
Definition check_threshold (threshold : Qc) (risk_index : Qc) : bool :=
  Qcltb risk_index threshold.


Section WithUnicode.
Context (U : ucd).

(** [any(term in keyword_lower for term in ["new release", "leak", "5070"])]. *)
Definition mentions_new_release (keyword : ustring) : bool :=
  let keyword_lower := py_lower U keyword in
  existsb (fun term => contains term keyword_lower)
          [u "new release"; u "leak"; u "5070"].

(** The loop of [calculate_risk_with_sentiment] over
    [sentiment_data.items()]. *)
Definition extract_new_release_mentions (sentiment_data : gmap ustring Z) : Z :=
  map_fold (fun keyword count new_release_mentions =>
              if mentions_new_release keyword
              then (new_release_mentions + count)%Z
              else new_release_mentions)
           0%Z sentiment_data.

Definition calculate_risk_with_sentiment (threshold : Qc) (db : database) (now : Z)
           (sku_id : Z) (current_price : Qc) (sentiment_data : gmap ustring Z)
  : result exn (Qc * bool) :=
  let new_release_mentions := extract_new_release_mentions sentiment_data in
  let* risk_index :=
    calculate_risk_index db now sku_id current_price new_release_mentions in
  let is_high_risk := check_threshold threshold risk_index in
  Ok (risk_index, is_high_risk).
End WithUnicode.

(** The dictionary [get_contributing_factors] returns: the breakdown, or
    the error with the two arguments. *)
Record factor_breakdown : Type := {
  f_current_price : Qc;
  f_last_week_avg_price : Qc;
  f_price_delta : Qc;
  f_price_change_pct : Qc;
  f_new_release_mentions : Z;
  f_sentiment_impact : Qc;
  f_threshold : Qc
}.

Inductive contributing_factors : Type :=
| factors_error (error : list frag) (current_price : Qc) (new_release_mentions : Z)
| factors (f : factor_breakdown).

(** Every exception is caught and reported in the dictionary: the
    failure of the query with its message, and the division by a zero
    average as [ZeroDivisionError]. *)
Definition get_contributing_factors (threshold : Qc) (db : database) (now : Z)
           (sku_id : Z) (current_price : Qc) (new_release_mentions : Z)
  : contributing_factors :=
  match PriceAnalyzer._get_historical_prices db now sku_id 7 1 with
  | Raise e => factors_error (str_exn e) current_price new_release_mentions
  | Ok [] =>
      factors_error [Txt "Insufficient historical data"] current_price new_release_mentions
  | Ok historical_prices =>
      let last_week_avg_price := mean historical_prices in
      let price_delta := (current_price - last_week_avg_price)%Qc in
      if Qceqb last_week_avg_price (Q2Qc 0) then
        factors_error [Txt "float division by zero"] current_price new_release_mentions
      else
        let price_change_pct := (price_delta / last_week_avg_price * Qc_of_Z 100)%Qc in
        let sentiment_impact := (Qc_of_Z new_release_mentions * Q2Qc (3 # 10))%Qc in
        factors {| f_current_price := py_round2 current_price;
                   f_last_week_avg_price := py_round2 last_week_avg_price;
                   f_price_delta := py_round2 price_delta;
                   f_price_change_pct := py_round2 price_change_pct;
                   f_new_release_mentions := new_release_mentions;
                   f_sentiment_impact := py_round2 sentiment_impact;
                   f_threshold := threshold |}
  end.

End RiskCalculator.

(** ** [transformers/sentiment_analyzer.py] *)

Module SentimentAnalyzer.

(** [models.MarketSignal]. *)
Record MarketSignal : Type := {
  keyword : ustring;
  post_title : ustring;
  post_url : ustring;
  subreddit : ustring;
  timestamp : Z;
  sentiment_score : option Qc
}.

(** The key under which a mention is counted once:
    [(signal.keyword, signal_date, signal.post_url)]. *)
Definition mention_key (signal : MarketSignal) : ustring * Z * ustring :=
  (keyword signal, date_of (timestamp signal), post_url signal).

(** [frequency_map[keyword][signal_date] += 1] on the nested
    [defaultdict]. *)
Definition increment (kw : ustring) (d : Z) (frequency_map : gmap ustring (gmap Z nat))
  : gmap ustring (gmap Z nat) :=
  let date_counts := default ∅ (frequency_map !! kw) in
  <[kw := <[d := S (default O (date_counts !! d))]> date_counts]> frequency_map.

(** One turn of the loop over the signals, on the pair
    [(unique_mentions, frequency_map)]. *)
Definition count_signal
           (st : gset (ustring * Z * ustring) * gmap ustring (gmap Z nat))
           (signal : MarketSignal)
  : gset (ustring * Z * ustring) * gmap ustring (gmap Z nat) :=
  let '(unique_mentions, frequency_map) := st in
  let mk := mention_key signal in
  if decide (mk ∈ unique_mentions) then st
  else ({[mk]} ∪ unique_mentions,
        increment (keyword signal) (date_of (timestamp signal)) frequency_map).

Definition analyze_keyword_frequency (signals : list MarketSignal)
  : gmap ustring (gmap Z nat) :=
  snd (fold_left count_signal signals (∅, ∅)).

(** [result[keyword][date]], 0 when there is no such entry. *)
Definition frequency (m : gmap ustring (gmap Z nat)) (kw : ustring) (d : Z) : nat :=
  default O (m !! kw ≫= fun date_counts => date_counts !! d).


(** [self.keyword_weights], as [__init__] builds it from the settings. *)
Definition keyword_weights (settings : Config.Settings) : list (ustring * Qc) :=
  [ (u "New Release", Config.sentiment_weight_new_release settings);
    (u "Leak", Config.sentiment_weight_new_release settings);
    (u "Price Drop", Config.sentiment_weight_price_drop settings);
    (u "Issues", Config.sentiment_weight_default settings);
    (u "Used Market", Config.sentiment_weight_default settings);
    (u "5070 release date", Config.sentiment_weight_new_release settings) ].

(** [d.get(k, default)]. *)
Fixpoint weights_get (d : list (ustring * Qc)) (k : ustring) (default : Qc) : Qc :=
  match d with
  | [] => default
  | (k', v) :: d' => if ustring_eqb k k' then v else weights_get d' k default
  end.

(** [self.keyword_weights.get(keyword, settings.sentiment_weight_default)]. *)
Definition weight (settings : Config.Settings) (keyword : ustring) : Qc :=
  weights_get (keyword_weights settings) keyword (Config.sentiment_weight_default settings).

Definition calculate_sentiment_score (settings : Config.Settings)
           (keyword_counts : gmap ustring Z) : Qc :=
  map_fold (fun keyword count sentiment_score =>
              (sentiment_score + Qc_of_Z count * weight settings keyword)%Qc)
           (Q2Qc 0) keyword_counts.

(** The dates of a frequency map, and the counts of the keywords on one
    date: the two inner loops of [calculate_daily_sentiment_scores]. *)
Definition all_dates (frequency_map : gmap ustring (gmap Z nat)) : gset Z :=
  map_fold (fun _ date_counts all_dates => all_dates ∪ dom date_counts) ∅ frequency_map.

Definition keyword_counts_for_date (frequency_map : gmap ustring (gmap Z nat))
           (target_date : Z) : gmap ustring Z :=
  omap (fun date_counts => Z.of_nat <$> date_counts !! target_date) frequency_map.

Definition calculate_daily_sentiment_scores (settings : Config.Settings)
           (signals : list MarketSignal) : gmap Z Qc :=
  let frequency_map := analyze_keyword_frequency signals in
  set_to_map
    (fun target_date =>
       (target_date,
        calculate_sentiment_score settings
          (keyword_counts_for_date frequency_map target_date)))
    (all_dates frequency_map).

(** [signal.sentiment_score = score]. *)
Definition with_sentiment (signal : MarketSignal) (score : Qc) : MarketSignal :=
  {| keyword := keyword signal; post_title := post_title signal;
     post_url := post_url signal; subreddit := subreddit signal;
     timestamp := timestamp signal; sentiment_score := Some score |}.

Definition enrich_signals_with_sentiment (settings : Config.Settings)
           (signals : list MarketSignal) : list MarketSignal :=
  let daily_scores := calculate_daily_sentiment_scores settings signals in
  map (fun signal =>
         with_sentiment signal
           (default (Q2Qc 0) (daily_scores !! date_of (timestamp signal))))
      signals.

Definition analyze_sentiment (settings : Config.Settings) (signals : list MarketSignal)
  : list MarketSignal :=
  enrich_signals_with_sentiment settings signals.

End SentimentAnalyzer.

(** ** [transformers/sku_matcher.py] *)

Module SKUMatcher.
Import Storage.
Import ProductNormalizer.

(** An element of the list [find_similar_skus] returns. *)
Record similar_sku : Type := {
  s_sku_id : Z;
  s_brand : ustring;
  s_chipset : ustring;
  s_model_name : ustring;
  s_vram : ustring;
  s_is_oc : bool;
  similarity_score : Z
}.

(** [SELECT id FROM skus WHERE brand = %s AND chipset = %s AND model_name =
    %s AND vram = %s AND is_oc = %s LIMIT 1]. *)
Definition exact_match (product : NormalizedProduct) (row : sku) : bool :=
  ustring_eqb (sku_brand row) (brand product)
  && ustring_eqb (sku_chipset row) (chipset product)
  && ustring_eqb (sku_model_name row) (model_name product)
  && ustring_eqb (sku_vram row) (vram product)
  && Bool.eqb (sku_is_oc row) (is_oc product).

Definition find_matching_sku (db : database) (product : NormalizedProduct)
  : result exn (option Z) :=
  match execute db (firstn 1 (List.filter (exact_match product) (skus db))) with
  | Ok rows =>
      match rows with
      | row :: _ => Ok (Some (sku_id row))
      | [] => Ok None
      end
  | Raise e => Raise (SKUMatchError (Txt "Failed to find matching SKU: " :: str_exn e))
  end.

(** The CASE expression of the similarity query. *)
Definition similarity (product : NormalizedProduct) (row : sku) : Z :=
  if ustring_eqb (sku_brand row) (brand product)
     && ustring_eqb (sku_chipset row) (chipset product) then 3
  else if ustring_eqb (sku_chipset row) (chipset product) then 2
  else if ustring_eqb (sku_brand row) (brand product) then 1
  else 0.

(** [WHERE (brand = %s OR chipset = %s)]. *)
Definition related (product : NormalizedProduct) (row : sku) : bool :=
  ustring_eqb (sku_brand row) (brand product)
  || ustring_eqb (sku_chipset row) (chipset product).

Definition scored (product : NormalizedProduct) (row : sku) : similar_sku :=
  {| s_sku_id := sku_id row; s_brand := sku_brand row; s_chipset := sku_chipset row;
     s_model_name := sku_model_name row; s_vram := sku_vram row;
     s_is_oc := sku_is_oc row; similarity_score := similarity product row |}.

(** [ORDER BY similarity_score DESC, id DESC]. *)
Definition ranks_before (a b : similar_sku) : bool :=
  (similarity_score b <? similarity_score a)%Z
  || ((similarity_score a =? similarity_score b)%Z && (s_sku_id b <=? s_sku_id a)%Z).

Definition similar_rows (db : database) (product : NormalizedProduct) (limit : nat)
  : list similar_sku :=
  firstn limit
    (order_by ranks_before (map (scored product) (List.filter (related product) (skus db)))).

Definition find_similar_skus (db : database) (product : NormalizedProduct) (limit : nat)
  : result exn (list similar_sku) :=
  match execute db (similar_rows db product limit) with
  | Ok results => Ok results
  | Raise e => Raise (SKUMatchError (Txt "Failed to find similar SKUs: " :: str_exn e))
  end.

(** The dictionary [suggest_new_sku] builds; the two optional keys are
    present only when similar SKUs were found. *)
Record suggestion : Type := {
  product_data : NormalizedProduct;
  suggested_fields : NormalizedProduct;
  similar_existing_skus : option (list similar_sku);
  note : option (list frag)
}.

Definition suggest_new_sku (db : database) (product : NormalizedProduct)
  : result exn suggestion :=
  let base := {| product_data := product; suggested_fields := product;
                 similar_existing_skus := None; note := None |} in
  match find_similar_skus db product 3 with
  | Ok (x :: l) =>
      Ok {| product_data := product; suggested_fields := product;
            similar_existing_skus := Some (x :: l);
            note := Some [Txt "Found "; Int (Z.of_nat (length (x :: l)));
                          Txt " similar SKUs. ";
                          Txt "Review these before creating a new SKU to avoid duplicates."] |}
  | Ok [] => Ok base
  | Raise (SKUMatchError _) => Ok base      (* except SKUMatchError: pass *)
  | Raise e => Raise e
  end.

Inductive match_result : Type :=
| use_existing (sku_id : Z) (product_data : NormalizedProduct)
| create_new_sku (s : suggestion)
| error (msg : list frag) (product_data : NormalizedProduct).

Definition match_or_suggest (db : database) (product : NormalizedProduct)
  : result exn match_result :=
  let* found := find_matching_sku db product in
  match found with
  | Some sku_id => Ok (use_existing sku_id product)
  | None =>
      let* s := suggest_new_sku db product in
      Ok (create_new_sku s)
  end.

(** Only [SKUMatchError] is caught per product; anything else ends the
    batch. *)
Fixpoint batch_match (db : database) (products : list NormalizedProduct)
  : result exn (list match_result) :=
  match products with
  | [] => Ok []
  | product :: rest =>
      let* r :=
        match match_or_suggest db product with
        | Ok r => Ok r
        | Raise (SKUMatchError m) => Ok (error m product)
        | Raise e => Raise e
        end in
      let* results := batch_match db rest in
      Ok (r :: results)
  end.

End SKUMatcher.


(** ** [loaders/db_loader.py] *)

Module Loader.

(** The pieces of a formatted text: literal text, a string, a number with
    two decimals ([:.2f]) and an integer. *)
Inductive piece : Type :=
| Lit (s : string)
| Str (s : ustring)
| Fixed2 (q : Qc)
| Dec (z : Z).

(** The keys of [factors] that [_format_alert_message] reads; [None] when
    the key is absent. *)
Record alert_factors : Type := {
  price_change_pct : option Qc;
  new_release_mentions : option Z;
  sentiment_score : option Qc;
  reason : option ustring
}.

Definition recommend_disposal : list piece := [Lit "권고: 즉시 재고 처분 검토 필요"].
Definition recommend_monitoring : list piece := [Lit "권고: 재고 모니터링 강화"].

(** [message_parts], as it stands before the join. *)
Definition message_parts (product_name : ustring) (risk_index threshold : Qc)
           (factors : alert_factors) : list (list piece) :=
  let message_parts :=
    [ [Lit "제품: "; Str product_name];
      [Lit "위험 지수: "; Fixed2 risk_index; Lit " (임계값: "; Fixed2 threshold; Lit ")"] ] in
  let message_parts :=
    match price_change_pct factors with
    | Some x => message_parts ++ [[Lit "가격 변동: "; Fixed2 x; Lit "%"]]
    | None => message_parts
    end in
  let message_parts :=
    match new_release_mentions factors with
    | Some n => message_parts ++ [[Lit "신제품 언급: "; Dec n; Lit "회"]]
    | None => message_parts
    end in
  let message_parts :=
    match sentiment_score factors with
    | Some x => message_parts ++ [[Lit "감성 점수: "; Fixed2 x]]
    | None => message_parts
    end in
  let message_parts :=
    match reason factors with
    | Some r => message_parts ++ [[Lit "원인: "; Str r]]
    | None => message_parts
    end in
  if Qcltb (threshold * Q2Qc (3 # 2))%Qc risk_index
  then message_parts ++ [recommend_disposal]
  else if Qcltb threshold risk_index
  then message_parts ++ [recommend_monitoring]
  else message_parts.

(** [" | ".join(message_parts)]. *)
Fixpoint join_parts (parts : list (list piece)) : list piece :=
  match parts with
  | [] => []
  | [p] => p
  | p :: parts' => p ++ Lit " | " :: join_parts parts'
  end.

Definition _format_alert_message (product_name : ustring) (risk_index threshold : Qc)
           (factors : alert_factors) : list piece :=
  join_parts (message_parts product_name risk_index threshold factors).

End Loader.

(** ** [main.py] *)

Module ETLPipeline.
Import ProductNormalizer SKUMatcher.

(** [models.PriceData]. *)
Record PriceData : Type := {
  product_name : ustring;
  price : Qc;
  source : ustring;
  source_url : ustring;
  recorded_at : Z;
  price_change_pct : option Qc
}.

(** The entries of [stats['errors']] that [transform_products] adds:
    "Failed to normalize '...': ...", "Failed to match SKU for '...': ..."
    and "Unexpected error processing '...': ...". *)
Inductive stage_error : Type :=
| normalize_failed (product_name : ustring) (e : ProductNormalizer.error)
| match_failed (product_name : ustring) (e : list frag)
| unexpected (product_name : ustring) (e : exn).

(** The two values the loop builds and the entries of [self.stats] it
    updates. *)
Record transform_state : Type := {
  normalized_products : list NormalizedProduct;
  sku_mapping : gmap ustring (option Z);
  products_normalized : Z;
  errors : list stage_error
}.

Section WithUnicode.
Context (U : ucd).

(** One turn of the loop over [price_data_list]. *)
Definition transform_product (db : Storage.database) (st : transform_state)
           (price_data : PriceData) : transform_state :=
  match normalize U (product_name price_data) with
  | Ok normalized =>
      let normalized_products := normalized_products st ++ [normalized] in
      match match_or_suggest db normalized with
      | Ok match_result =>
          let entry :=
            match match_result with
            | use_existing sku_id _ => Some sku_id
            | _ => None
            end in
          {| normalized_products := normalized_products;
             sku_mapping := <[product_name price_data := entry]> (sku_mapping st);
             products_normalized := (products_normalized st + 1)%Z;
             errors := errors st |}
      | Raise (SKUMatchError e) =>
          {| normalized_products := normalized_products;
             sku_mapping := sku_mapping st;
             products_normalized := products_normalized st;
             errors := errors st ++ [match_failed (product_name price_data) e] |}
      | Raise e =>
          {| normalized_products := normalized_products;
             sku_mapping := sku_mapping st;
             products_normalized := products_normalized st;
             errors := errors st ++ [unexpected (product_name price_data) e] |}
      end
  | Raise e =>
      {| normalized_products := normalized_products st;
         sku_mapping := sku_mapping st;
         products_normalized := products_normalized st;
         errors := errors st ++ [normalize_failed (product_name price_data) e] |}
  end.

(** [transform_products], from the statistics of the run so far. *)
Definition transform_products (db : Storage.database) (products_normalized0 : Z)
           (errors0 : list stage_error) (price_data_list : list PriceData)
  : transform_state :=
  fold_left (transform_product db) price_data_list
            {| normalized_products := []; sku_mapping := ∅;
               products_normalized := products_normalized0; errors := errors0 |}.
End WithUnicode.

End ETLPipeline.

(** ** [extractors/danawa_crawler.py] *)

Module DanawaCrawler.

Definition RTX_4070_VARIANTS : list ustring :=
  Eval vm_compute in
    [ u "RTX 4070"; u "RTX 4070 Super"; u "RTX 4070 Ti"; u "RTX 4070 Ti Super" ].

(** [s.replace(" ", "")]. *)
Definition without_spaces (s : ustring) : ustring :=
  List.filter (fun c => negb (c =? 32)) s.

Section WithUnicode.
Context (U : ucd).

Definition _is_matching_chipset (product_name chipset : ustring) : bool :=
  let product_upper := py_upper U product_name in
  let chipset_upper := py_upper U chipset in
  let chipset_normalized := without_spaces chipset_upper in
  let product_normalized := without_spaces product_upper in
  if contains chipset_normalized product_normalized then
    if contains (u "TI") chipset_upper then
      if negb (contains (u "SUPER") chipset_upper)
         && contains (u "TISUPER") product_normalized
      then false
      else true
    else true
  else false.
End WithUnicode.

End DanawaCrawler.

(** ** Vocabulary of the specification *)

(** The price observations of a catalog entry recorded between [lo] and
    [hi] days before [now], both ends included. *)
Definition observations_between (db : Storage.database) (now sku_id lo hi : Z)
  : list Storage.price_log :=
  List.filter
    (fun row =>
       (Storage.pl_sku_id row =? sku_id)%Z
       && (now - timedelta_days hi <=? Storage.pl_recorded_at row)%Z
       && (Storage.pl_recorded_at row <=? now - timedelta_days lo)%Z)
    (Storage.price_logs db).

(** The baseline price: the mean of the prices observed 6 to 8 days ago. *)
Definition baseline (db : Storage.database) (now sku_id : Z) : Qc :=
  mean (map Storage.pl_price (observations_between db now sku_id 6 8)).

(** The price observations of a catalog entry. *)
Definition observations_of (db : Storage.database) (sku_id : Z) : list Storage.price_log :=
  List.filter (fun row => (Storage.pl_sku_id row =? sku_id)%Z) (Storage.price_logs db).

(** The mention keys occurring in a list of signals, as a set. *)
Definition mention_keys (signals : list SentimentAnalyzer.MarketSignal)
  : gset (ustring * Z * ustring) :=
  list_to_set (map SentimentAnalyzer.mention_key signals).

(** The number of distinct posts among the keys of a keyword on a date. *)
Definition distinct_posts (keys : gset (ustring * Z * ustring)) (kw : ustring) (d : Z) : nat :=
  size (filter (fun k : ustring * Z * ustring => fst (fst k) = kw /\ snd (fst k) = d) keys).

(** A frequency map that holds no empty date map and no zero count. *)
Definition compact (fm : gmap ustring (gmap Z nat)) : Prop :=
  forall kw (m : gmap Z nat), fm !! kw = Some m ->
    m <> ∅ /\ forall d n, m !! d = Some n -> n <> O.

(** What the counting loop maintains: the frequency of a keyword on a date
    is the number of distinct posts among the keys seen so far. *)
Definition counted (seen : gset (ustring * Z * ustring)) (fm : gmap ustring (gmap Z nat))
  : Prop :=
  compact fm
  /\ forall kw d, SentimentAnalyzer.frequency fm kw d = distinct_posts seen kw d.

(** *** Matching

    The words of regular expressions: [lang U r w] when [r] can consume
    exactly [w], word boundaries aside. *)
Inductive lang (U : ucd) : regex -> ustring -> Prop :=
| lang_chr k c : cset_match U k c = true -> lang U (Chr k) [c]
| lang_lit l c : lit_match_i U l c = true -> lang U (LitI l) [c]
| lang_eps : lang U Eps []
| lang_seq a b w1 w2 : lang U a w1 -> lang U b w2 -> lang U (Seq a b) (w1 ++ w2)
| lang_alt_l a b w : lang U a w -> lang U (Alt a b) w
| lang_alt_r a b w : lang U b w -> lang U (Alt a b) w
| lang_plus k w : w <> [] -> Forall (fun c => cset_match U k c = true) w -> lang U (Plus k) w
| lang_star k w : Forall (fun c => cset_match U k c = true) w -> lang U (Star k) w
| lang_opt_some a w : lang U a w -> lang U (Opt a) w
| lang_opt_none a : lang U (Opt a) []
| lang_wordb : lang U WordB []
| lang_group a w : lang U a w -> lang U (Group a) w.

(** The character before the position reached after reading [l], the
    character before [l] being [prev]. *)
Fixpoint last_char (prev : option N) (l : ustring) : option N :=
  match l with
  | [] => prev
  | c :: l' => last_char (Some c) l'
  end.

(** No match of [r] starts at a position of [pre], in the text
    [pre ++ rest]. *)
Fixpoint no_match_in (U : ucd) (r : regex) (prev : option N) (pre rest : ustring) : bool :=
  match pre with
  | [] => true
  | c :: pre' =>
      match match_here U r prev (pre ++ rest) with
      | Some _ => false
      | None => no_match_in U r (Some c) pre' rest
      end
  end.

(** An empty position or a non-word character: what [\b] needs on the other
    side of a word character. *)
Definition not_word (U : ucd) (c : option N) : Prop := is_word_opt U c = false.

(** The first success among attempts made in order. *)
Fixpoint first_some {A : Type} (l : list (option A)) : option A :=
  match l with
  | [] => None
  | Some x :: _ => Some x
  | None :: l' => first_some l'
  end.

(** One alternative of a pattern [\b(a1|a2|...)\b], tried at the head of
    [s]: the alternative as group 1, then the closing [\b]. *)
Definition try_alternative (U : ucd) (prev : option N) (s : ustring) (a : regex)
  : option (ustring * capture) :=
  rmatch U a prev s None
         (fun p s' _ => if at_boundary U p s' then Some (s', Some (s, s')) else None).

(** The text goes on with [\s+Super\b]. *)
Definition super_follows (U : ucd) (prev : option N) (post : ustring) : bool :=
  match match_here U (seqs [ProductNormalizer.ws; ProductNormalizer.w_super; WordB]) prev post with
  | Some _ => true
  | None => false
  end.

(** The phrase of the longest variant, and the numeral-only forms. *)
Definition phrase_rtx_ti_super : ustring := Eval vm_compute in u "RTX 4070 Ti Super".
Definition form_ti_super : ustring := Eval vm_compute in u "4070 Ti Super".
Definition form_super : ustring := Eval vm_compute in u "4070 Super".
Definition form_ti : ustring := Eval vm_compute in u "4070 Ti".

(** *** ASCII spellings

    The other case of an ASCII letter, the spellings of a word that differ
    from it by the case of ASCII letters only, and the choices of one
    spelling for each word of a list. *)
Definition toggle_case (c : N) : N :=
  if ascii_islower c then c - 32 else if ascii_isupper c then c + 32 else c.

Fixpoint case_variants (l : ustring) : list ustring :=
  match l with
  | [] => [[]]
  | c :: l' => flat_map (fun t => [c :: t; toggle_case c :: t]) (case_variants l')
  end.

Fixpoint all_variants (ls : list ustring) : list (list ustring) :=
  match ls with
  | [] => [[]]
  | l :: ls' =>
      flat_map (fun x => map (cons x) (all_variants ls')) (case_variants l)
  end.

(** The words [ls] as a pattern, [\s+] between them, IGNORECASE. *)
Fixpoint spaced (ls : list ustring) : list regex :=
  match ls with
  | [] => []
  | [l] => [lit_i l]
  | l :: ls' => lit_i l :: ProductNormalizer.ws :: spaced ls'
  end.

(** The words of the seven chipset alternatives. *)
Definition chipset_words : list (list ustring) :=
  Eval vm_compute in
    [ [u "RTX"; u "4070"; u "Ti"; u "Super"]; [u "RTX"; u "4070"; u "Super"];
      [u "RTX"; u "4070"; u "Ti"]; [u "RTX"; u "4070"];
      [u "4070"; u "Ti"; u "Super"]; [u "4070"; u "Super"]; [u "4070"; u "Ti"] ].

(** The standard format of a chipset given as its words: what
    [canonical_chipset] does once the matched text is split. *)
Definition standard_words (U : ucd) (words : list ustring) : ustring :=
  let chipset := py_join (u " ") words in
  let chipset :=
    if negb (startswith (u "RTX") (py_upper U chipset))
    then u "RTX " ++ chipset
    else chipset in
  py_join (u " ") (map (ProductNormalizer.standard_word U) (py_split U chipset)).

(** The integers below [n]. *)
Definition below (n : nat) : list N := map N.of_nat (seq 0 n).

(** The words a pattern is made of: ASCII letters and digits. *)
Definition plain_word (U : ucd) (l : ustring) : Prop :=
  l <> [] /\ Forall (fun c => c < 128 /\ isalnum U c = true) l.


(** *** Further vocabulary *)

(** The observations of a catalog entry recorded in the last [days] days. *)
Definition history_rows (db : Storage.database) (now sku_id days : Z)
  : list Storage.price_log :=
  List.filter
    (fun row => (Storage.pl_sku_id row =? sku_id)%Z
                && (now - timedelta_days days <=? Storage.pl_recorded_at row)%Z)
    (Storage.price_logs db).

(** The sum, over the distinct mention keys of a date, of the weights of
    their keywords. *)
Definition weighted_mentions (settings : Config.Settings)
           (keys : gset (ustring * Z * ustring)) (d : Z) : Qc :=
  py_sum (map (fun k : ustring * Z * ustring => SentimentAnalyzer.weight settings (fst (fst k)))
              (elements (filter (fun k : ustring * Z * ustring => snd (fst k) = d) keys))).

(** A catalog row that agrees with a product in the five fields of an exact
    match. *)
Definition same_product (product : ProductNormalizer.NormalizedProduct) (row : Storage.sku)
  : Prop :=
  Storage.sku_brand row = ProductNormalizer.brand product
  /\ Storage.sku_chipset row = ProductNormalizer.chipset product
  /\ Storage.sku_model_name row = ProductNormalizer.model_name product
  /\ Storage.sku_vram row = ProductNormalizer.vram product
  /\ Storage.sku_is_oc row = ProductNormalizer.is_oc product.

(** The entry of [batch_match] for one product: the result of
    [match_or_suggest], or the error entry with the message of the
    exception. *)
Definition batch_entry (db : Storage.database) (product : ProductNormalizer.NormalizedProduct)
  : SKUMatcher.match_result :=
  match SKUMatcher.match_or_suggest db product with
  | Ok r => r
  | Raise e => SKUMatcher.error (str_exn e) product
  end.

(** A word: a non-empty text without whitespace. *)
Definition is_word_text (U : ucd) (w : ustring) : Prop :=
  w <> [] /\ Forall (fun c => isspace U c = false) w.

(** The Hangul syllables, and what it means for a Unicode table to leave
    them without case, as the Unicode standard does. *)
Definition is_hangul (c : N) : bool := (44032 <=? c) && (c <=? 55203).

Definition hangul_caseless (U : ucd) : Prop :=
  forall c, is_hangul c = true ->
    ext_tolower U c = c /\ ext_toupper U c = c /\ ext_upper U c = [c].

(** The characters a model name is made of: word characters, Hangul
    syllables and the hyphen. *)
Definition model_char (U : ucd) (c : N) : bool :=
  isword U c || is_hangul c || (c =? 45).

(** The brand names in Latin letters, which are what [_extract_brand] is
    meant to return, and the brand names in Hangul. *)
Definition latin_brands : list ustring :=
  Eval vm_compute in
    [ u "ASUS"; u "MSI"; u "GIGABYTE"; u "ZOTAC"; u "PALIT"; u "GALAX"; u "GAINWARD";
      u "EMTEK"; u "PNY"; u "INNO3D"; u "COLORFUL"; u "MANLI"; u "KFA2"; u "EVGA";
      u "LEADTEK" ].

Definition hangul_brands : list ustring :=
  Eval vm_compute in [ u "기가바이트"; u "팔릿"; u "이엠텍" ].

(** The durations slept after the failures of the attempts [from],
    [from + 1], ..., [from + n - 1]: [retry_backoff_seconds * 2 ** i] after
    attempt [i]. *)
Definition backoffs (settings : Config.Settings) (from n : nat) : list Z :=
  map (fun i => (Config.retry_backoff_seconds settings * 2 ^ Z.of_nat i)%Z) (seq from n).

(** The products of the names that normalize, in the order of the names. *)
Definition normalizable (U : ucd) (names : list ustring)
  : list ProductNormalizer.NormalizedProduct :=
  flat_map (fun name => match ProductNormalizer.normalize U name with
                        | Ok p => [p]
                        | Raise _ => []
                        end) names.

(** A product name in capitals and without spaces, as the crawler compares
    it. *)
Definition squeezed (U : ucd) (product_name : ustring) : ustring :=
  DanawaCrawler.without_spaces (py_upper U product_name).

(** ** Sample data *)

(** A database with one observation of entry 1, of 1,000,000, recorded on
    day 23; the examples read it on day 30. *)
Definition sample_db : Storage.database := {|
  Storage.price_logs :=
    [ {| Storage.pl_sku_id := 1; Storage.pl_price := Qc_of_Z 1000000;
         Storage.pl_recorded_at := timedelta_days 23 |} ];
  Storage.skus := [];
  Storage.outage := None
|}.

Definition empty_db : Storage.database :=
  {| Storage.price_logs := []; Storage.skus := []; Storage.outage := None |}.

(** The same tables during an outage of the storage layer. *)
Definition down_db : Storage.database := {|
  Storage.price_logs := Storage.price_logs sample_db;
  Storage.skus := [];
  Storage.outage := Some (DatabaseError [Txt "Query failed after 3 attempts: connection lost"])
|}.

(** A catalog of five entries, and a product of brand ASUS and chipset
    RTX 4070 Super to look up in it. *)
Definition sample_catalog : Storage.database := {|
  Storage.price_logs := [];
  Storage.skus :=
    [ {| Storage.sku_id := 1; Storage.sku_brand := u "MSI";
         Storage.sku_chipset := u "RTX 4070 Super"; Storage.sku_model_name := u "Ventus";
         Storage.sku_vram := u "12GB"; Storage.sku_is_oc := false |};
      {| Storage.sku_id := 2; Storage.sku_brand := u "ASUS";
         Storage.sku_chipset := u "RTX 4070 Ti"; Storage.sku_model_name := u "TUF";
         Storage.sku_vram := u "12GB"; Storage.sku_is_oc := true |};
      {| Storage.sku_id := 3; Storage.sku_brand := u "ASUS";
         Storage.sku_chipset := u "RTX 4070 Super"; Storage.sku_model_name := u "Dual";
         Storage.sku_vram := u "12GB"; Storage.sku_is_oc := false |};
      {| Storage.sku_id := 4; Storage.sku_brand := u "ZOTAC";
         Storage.sku_chipset := u "RTX 4070"; Storage.sku_model_name := u "Twin Edge";
         Storage.sku_vram := u "12GB"; Storage.sku_is_oc := false |};
      {| Storage.sku_id := 5; Storage.sku_brand := u "ASUS";
         Storage.sku_chipset := u "RTX 4070 Super"; Storage.sku_model_name := u "ProArt";
         Storage.sku_vram := u "12GB"; Storage.sku_is_oc := true |} ];
  Storage.outage := None
|}.

Definition sample_product : ProductNormalizer.NormalizedProduct := {|
  ProductNormalizer.brand := u "ASUS";
  ProductNormalizer.chipset := u "RTX 4070 Super";
  ProductNormalizer.model_name := u "Strix";
  ProductNormalizer.vram := u "12GB";
  ProductNormalizer.is_oc := true
|}.

(** Three signals of 1 January 2024 (day 738886): two mentions of "New
    Release" in the same post, and a mention of "Price Drop" in that post. *)
Definition sample_signal (kw url : string) (hour : Z) : SentimentAnalyzer.MarketSignal := {|
  SentimentAnalyzer.keyword := u kw;
  SentimentAnalyzer.post_title := u "RTX 5070 rumours";
  SentimentAnalyzer.post_url := u url;
  SentimentAnalyzer.subreddit := u "nvidia";
  SentimentAnalyzer.timestamp := (timedelta_days 738886 + hour * 3600000000)%Z;
  SentimentAnalyzer.sentiment_score := None
|}.


(** A database whose only observation of entry 1 is six and a half days
    old on day 30. *)
Definition recent_db : Storage.database := {|
  Storage.price_logs :=
    [ {| Storage.pl_sku_id := 1; Storage.pl_price := Qc_of_Z 500000;
         Storage.pl_recorded_at := (timedelta_days 23 + 43200000000)%Z |} ];
  Storage.skus := [];
  Storage.outage := None
|}.

(** The catalog during an outage. *)
Definition catalog_down : Storage.database := {|
  Storage.price_logs := [];
  Storage.skus := Storage.skus sample_catalog;
  Storage.outage := Some (DatabaseError [Txt "Query failed after 3 attempts: connection lost"])
|}.

(** A product that the catalog holds as entry 3. *)
Definition listed_product : ProductNormalizer.NormalizedProduct := {|
  ProductNormalizer.brand := u "ASUS";
  ProductNormalizer.chipset := u "RTX 4070 Super";
  ProductNormalizer.model_name := u "Dual";
  ProductNormalizer.vram := u "12GB";
  ProductNormalizer.is_oc := false
|}.

(** Four signals: three of 1 January 2024, two of them the same mention,
    and one of the day after. *)
Definition sample_signals : list SentimentAnalyzer.MarketSignal :=
  [ sample_signal "New Release" "https://reddit.com/r/nvidia/1" 9;
    sample_signal "New Release" "https://reddit.com/r/nvidia/1" 17;
    sample_signal "Price Drop" "https://reddit.com/r/nvidia/1" 9;
    sample_signal "Leak" "https://reddit.com/r/nvidia/2" 30 ].

(** A query that fails twice before it returns, and one that always
    fails. *)
Definition flaky_query (i : nat) : DatabaseManager.outcome (list Z) :=
  if (i <? 2)%nat then DatabaseManager.driver_error [Txt "connection lost"]
  else DatabaseManager.returns [1; 2; 3]%Z.

Definition dead_query (i : nat) : DatabaseManager.outcome (list Z) :=
  DatabaseManager.driver_error [Txt "connection lost"].

(** Two listings of the crawler: one that normalizes, and one of another
    series. *)
Definition sample_listing (name : string) (price : Z) : ETLPipeline.PriceData := {|
  ETLPipeline.product_name := u name;
  ETLPipeline.price := Qc_of_Z price;
  ETLPipeline.source := u "다나와";
  ETLPipeline.source_url := u "http://prod.danawa.com/info/?pcode=1";
  ETLPipeline.recorded_at := timedelta_days 30;
  ETLPipeline.price_change_pct := None
|}.

Definition sample_listings : list ETLPipeline.PriceData :=
  [ sample_listing "ASUS Dual RTX 4070 Super 12GB" 899000;
    sample_listing "MSI RTX 4060 Ventus 8GB" 450000 ].

(** * Properties *)

(** ** Numbers *)

Lemma Qcleb_le (a b : Qc) : Qcleb a b = true <-> (a <= b)%Qc.
Proof. unfold Qcleb, Qcle. apply Qle_bool_iff. Qed.

Lemma Qcleb_gt (a b : Qc) : Qcleb a b = false <-> (b < a)%Qc.
Proof.
  unfold Qcleb, Qclt. rewrite <- not_true_iff_false, Qle_bool_iff.
  split; [apply Qnot_le_lt | apply Qlt_not_le].
Qed.

Lemma Qcltb_lt (a b : Qc) : Qcltb a b = true <-> (a < b)%Qc.
Proof. unfold Qcltb. rewrite negb_true_iff. apply Qcleb_gt. Qed.

Lemma Qceqb_eq (a b : Qc) : Qceqb a b = true <-> a = b.
Proof.
  unfold Qceqb. rewrite Qeq_bool_iff. split.
  - apply Qc_is_canon.
  - intros ->. reflexivity.
Qed.

Lemma Qceqb_neq (a b : Qc) : Qceqb a b = false <-> a <> b.
Proof. rewrite <- not_true_iff_false, Qceqb_eq. reflexivity. Qed.

(** Rounding depends on the value of the rational only. *)
Lemma round_half_even_comp (p q : Q) : p == q -> round_half_even p = round_half_even q.
Proof.
  intros E. unfold round_half_even.
  rewrite (Qfloor_comp _ _ E).
  assert (E' : p - inject_Z (Qfloor q) == q - inject_Z (Qfloor q)) by (rewrite E; reflexivity).
  rewrite (Qcompare_comp _ _ E' _ _ (Qeq_refl (1 # 2))).
  reflexivity.
Qed.

(** Rounding moves a number by half a unit at most. *)
Lemma round_half_even_near (q : Q) :
  (Qabs (inject_Z (round_half_even q) - q) <= 1 # 2)%Q.
Proof.
  pose proof (Qfloor_le q) as Hlo. pose proof (Qlt_floor q) as Hhi.
  rewrite inject_Z_plus in Hhi. apply Qabs_Qle_condition.
  unfold round_half_even.
  destruct (Qcompare_spec (q - inject_Z (Qfloor q)) (1 # 2)) as [E|E|E];
    [destruct (Z.even (Qfloor q))| |]; rewrite ?inject_Z_plus;
    change (inject_Z 1) with 1%Q in *;
    generalize dependent (inject_Z (Qfloor q)); intros f Hlo Hhi E; split; lra.
Qed.

(** [round(x, 2)] is a number of hundredths, half a hundredth away from [x]
    at most. *)
Lemma py_round2_near (x : Qc) :
  exists n : Z,
    (py_round2 x == inject_Z n / 100)%Q /\ (Qabs (py_round2 x - x) <= 1 # 200)%Q.
Proof.
  exists (round_half_even (x * 100)). unfold py_round2.
  assert (E : (Q2Qc (inject_Z (round_half_even (x * 100)) / 100)
               == inject_Z (round_half_even (x * 100)) / 100)%Q) by apply Qred_correct.
  split; [exact E|]. rewrite E.
  pose proof (round_half_even_near (x * 100)) as H.
  apply Qabs_Qle_condition in H. apply Qabs_Qle_condition.
  generalize dependent (inject_Z (round_half_even (x * 100))). intros r _ [H1 H2].
  generalize dependent (this x). intros y H1 H2.
  assert (Hr : (r / 100 == r * (1 # 100))%Q) by (unfold Qdiv; reflexivity).
  rewrite Hr. split; lra.
Qed.

(** ** Ordered queries *)

Section OrderByFacts.
Context {A : Type} (before : A -> A -> bool).

Lemma insert_row_perm (x : A) (l : list A) :
  Permutation (Storage.insert_row before x l) (x :: l).
Proof.
  induction l as [|y l IH]; simpl; [reflexivity|].
  destruct (before x y); [reflexivity|].
  rewrite IH. apply perm_swap.
Qed.

Lemma order_by_perm (l : list A) : Permutation (Storage.order_by before l) l.
Proof.
  induction l as [|x l IH]; simpl; [reflexivity|].
  rewrite insert_row_perm. constructor. exact IH.
Qed.

Hypothesis before_total : forall a b, before a b = true \/ before b a = true.
Hypothesis before_trans :
  forall a b c, before a b = true -> before b c = true -> before a c = true.

Lemma insert_row_sorted (x : A) (l : list A) :
  StronglySorted (fun a b => before a b = true) l ->
  StronglySorted (fun a b => before a b = true) (Storage.insert_row before x l).
Proof.
  induction 1 as [|y l Hs IH Hy]; simpl.
  - repeat constructor.
  - destruct (before x y) eqn:E.
    + constructor; [constructor; assumption|].
      constructor; [exact E|].
      eapply Forall_impl; [exact Hy|]. intros z Hz. eapply before_trans; eassumption.
    + constructor; [exact IH|].
      rewrite (insert_row_perm x l). constructor; [|exact Hy].
      destruct (before_total x y) as [H|H]; congruence.
Qed.

Lemma order_by_sorted (l : list A) :
  StronglySorted (fun a b => before a b = true) (Storage.order_by before l).
Proof.
  induction l as [|x l IH]; simpl; [constructor|].
  apply insert_row_sorted, IH.
Qed.
End OrderByFacts.

Lemma py_sum_from (l : list Qc) (a : Qc) :
  fold_left Qcplus l a = (a + py_sum l)%Qc.
Proof.
  unfold py_sum. revert a. induction l as [|x l IH]; intros a; simpl.
  - rewrite Qcplus_0_r. reflexivity.
  - rewrite (IH (a + x)%Qc), (IH (Q2Qc 0 + x)%Qc), Qcplus_0_l, Qcplus_assoc. reflexivity.
Qed.

Lemma py_sum_perm (l l' : list Qc) : Permutation l l' -> py_sum l = py_sum l'.
Proof.
  induction 1 as [|x l l' _ IH|x y l|l l' l'' _ IH1 _ IH2].
  - reflexivity.
  - unfold py_sum. simpl. rewrite !(py_sum_from _ (Q2Qc 0 + x)%Qc), IH. reflexivity.
  - unfold py_sum. simpl. rewrite !(py_sum_from _ (_ + _)%Qc).
    f_equal. rewrite <- !Qcplus_assoc, (Qcplus_comm y x). reflexivity.
  - congruence.
Qed.

Lemma mean_perm (l l' : list Qc) : Permutation l l' -> mean l = mean l'.
Proof.
  intros P. unfold mean. rewrite (py_sum_perm _ _ P), (Permutation_length P). reflexivity.
Qed.

(** ** The price window *)

Section PriceWindow.
Import Storage PriceAnalyzer.
Variables (db : database) (now sku_id : Z).

Lemma select_window_perm :
  Permutation
    (select_window db sku_id (now - timedelta_days 7 - timedelta_days 1)
                   (now - timedelta_days 7 + timedelta_days 1))
    (observations_between db now sku_id 6 8).
Proof.
  unfold select_window. rewrite order_by_perm.
  unfold observations_between, in_window.
  replace (now - timedelta_days 7 - timedelta_days 1)%Z with (now - timedelta_days 8)%Z
    by (unfold timedelta_days; lia).
  replace (now - timedelta_days 7 + timedelta_days 1)%Z with (now - timedelta_days 6)%Z
    by (unfold timedelta_days; lia).
  reflexivity.
Qed.

(** With storage answering, the historical prices are the prices of the
    window, in some order. *)
Lemma historical_prices_window :
  outage db = None ->
  exists prices,
    _get_historical_prices db now sku_id 7 1 = Ok prices
    /\ Permutation prices (map pl_price (observations_between db now sku_id 6 8)).
Proof.
  intros Hout. unfold _get_historical_prices, execute. rewrite Hout. simpl.
  eexists. split; [reflexivity|].
  apply Permutation_map, select_window_perm.
Qed.

Lemma historical_prices_outage (e : exn) :
  outage db = Some e -> _get_historical_prices db now sku_id 7 1 = Raise e.
Proof.
  intros Hout. unfold _get_historical_prices, execute. rewrite Hout. reflexivity.
Qed.
End PriceWindow.

Lemma perm_nil_iff {A B : Type} (f : A -> B) (l : list B) (l' : list A) :
  Permutation l (map f l') -> (l = [] <-> l' = []).
Proof.
  intros P. split; intros ->.
  - apply Permutation_nil in P. destruct l'; [reflexivity|discriminate].
  - apply Permutation_nil. symmetry. exact P.
Qed.

(** ** The risk index *)

Section RiskIndex.
Import Storage RiskCalculator.


(** C7.  [check_threshold] is true exactly when the risk index is below
    the threshold; at the threshold itself it is false. *)
Theorem check_threshold_strict (threshold risk_index : Qc) :
  (check_threshold threshold risk_index = true <-> (risk_index < threshold)%Qc)
  /\ check_threshold threshold threshold = false.
Proof.
  split.
  - apply Qcltb_lt.
  - unfold check_threshold. apply not_true_iff_false. rewrite Qcltb_lt.
    unfold Qclt. apply Qlt_irrefl.
Qed.
End RiskIndex.


(** ** The price change *)

Section PriceChange.
Import Storage PriceAnalyzer.

Lemma price_change_value (db : database) (now sku_id : Z) (current_price : Qc) :
  outage db = None ->
  (Q2Qc 0 < current_price)%Qc ->
  observations_between db now sku_id 6 8 <> [] ->
  baseline db now sku_id <> Q2Qc 0 ->
  calculate_price_change db now sku_id current_price
  = Ok (py_round2 ((current_price - baseline db now sku_id) / baseline db now sku_id
                   * Qc_of_Z 100)%Qc).
Proof.
  intros Hout Hprice Hobs Hbase. unfold calculate_price_change.
  apply Qcleb_gt in Hprice. rewrite Hprice.
  destruct (historical_prices_window db now sku_id Hout) as (prices & -> & P).
  simpl. destruct prices as [|p prices].
  - exfalso. apply Hobs. apply (perm_nil_iff _ _ _ P). reflexivity.
  - unfold baseline in *. rewrite <- (mean_perm _ _ P) in *.
    apply Qceqb_neq in Hbase. rewrite Hbase. reflexivity.
Qed.


End PriceChange.


(** ** Storage failures *)

Section StorageFailures.
Import Storage PriceAnalyzer RiskCalculator SKUMatcher.

Lemma min_opt_spec (l : list Z) :
  match min_opt l with
  | None => l = []
  | Some m => In m l /\ forall x, In x l -> (m <= x)%Z
  end.
Proof.
  induction l as [|x l IH]; simpl; [reflexivity|].
  destruct (min_opt l) as [m|].
  - destruct IH as [Hin Hmin]. split.
    + destruct (Z.min_spec x m) as [[_ ->]|[_ ->]]; [left; reflexivity|right; exact Hin].
    + intros y [<-|Hy]; [apply Z.le_min_l|].
      etransitivity; [apply Z.le_min_r|apply Hmin, Hy].
  - subst l. split; [left; reflexivity|].
    intros y [<-|[]]. reflexivity.
Qed.

(** The age in whole days reaches [n] exactly when the age reaches [n]
    days. *)
Lemma whole_days_le (n age : Z) :
  (n <= timedelta_in_days age)%Z <-> (timedelta_days n <= age)%Z.
Proof.
  unfold timedelta_in_days, timedelta_days.
  assert (Hd : (0 < day_us)%Z) by reflexivity.
  split; intros H.
  - etransitivity; [|apply (Z.mul_div_le age day_us Hd)].
    rewrite Z.mul_comm. apply Z.mul_le_mono_nonneg_l; [lia|exact H].
  - apply Z.div_le_lower_bound; [exact Hd|]. rewrite Z.mul_comm. exact H.
Qed.

Lemma sufficient_data_iff (db : database) (now sku_id required_days : Z) :
  outage db = None ->
  has_sufficient_data db now sku_id required_days = Ok true
  <-> exists row,
      In row (observations_of db sku_id)
      /\ (forall row', In row' (observations_of db sku_id) ->
                       (pl_recorded_at row <= pl_recorded_at row')%Z)
      /\ (timedelta_days required_days <= now - pl_recorded_at row)%Z.
Proof.
  intros Hout. unfold has_sufficient_data, execute, earliest_recorded_at.
  rewrite Hout. fold (observations_of db sku_id).
  pose proof (min_opt_spec (map pl_recorded_at (observations_of db sku_id))) as Hmin.
  destruct (min_opt (map pl_recorded_at (observations_of db sku_id))) as [t|].
  - destruct Hmin as [Hin Hle]. apply in_map_iff in Hin. destruct Hin as (row & <- & Hrow).
    split.
    + intros E. injection E as E. apply Z.leb_le, whole_days_le in E.
      exists row. split; [exact Hrow|]. split; [|exact E].
      intros row' Hrow'. apply Hle, in_map, Hrow'.
    + intros (row' & Hrow' & Hfirst & Hage). f_equal. apply Z.leb_le, whole_days_le.
      assert (pl_recorded_at row = pl_recorded_at row') as ->.
      { apply Z.le_antisymm; [apply Hle, in_map, Hrow'|apply Hfirst, Hrow]. }
      exact Hage.
  - split; [discriminate|].
    intros (row & Hrow & _). apply (in_map pl_recorded_at) in Hrow.
    rewrite Hmin in Hrow. destruct Hrow.
Qed.


End StorageFailures.

(** ** Strings *)

Lemma ustring_eqb_eq (a b : ustring) : ustring_eqb a b = true <-> a = b.
Proof.
  revert b. induction a as [|x a IH]; intros [|y b]; simpl; try (split; congruence).
  rewrite andb_true_iff, N.eqb_eq, IH. split.
  - intros [-> ->]. reflexivity.
  - intros E. injection E as -> ->. split; reflexivity.
Qed.

Lemma ustring_eqb_refl (a : ustring) : ustring_eqb a a = true.
Proof. apply ustring_eqb_eq. reflexivity. Qed.

Lemma ustring_eqb_neq (a b : ustring) : ustring_eqb a b = false <-> a <> b.
Proof. rewrite <- not_true_iff_false, ustring_eqb_eq. reflexivity. Qed.

Lemma str_in_In (x : ustring) (l : list ustring) : str_in x l = true <-> In x l.
Proof.
  unfold str_in. rewrite existsb_exists. split.
  - intros (y & Hy & E). apply ustring_eqb_eq in E. subst. exact Hy.
  - intros H. exists x. split; [exact H|apply ustring_eqb_refl].
Qed.

(** ** Sorted lists *)

Section SortedFacts.
Context {A : Type} (R : A -> A -> Prop).

Lemma sorted_firstn (n : nat) (l : list A) :
  StronglySorted R l -> StronglySorted R (firstn n l).
Proof.
  intros H. revert n. induction H as [|x l Hs IH Hx]; intros [|n]; simpl; try constructor.
  - apply IH.
  - rewrite List.Forall_forall in *. intros y Hy. apply Hx.
    rewrite <- (firstn_skipn n l). apply in_or_app. left. exact Hy.
Qed.

Lemma sorted_nth (l : list A) :
  StronglySorted R l ->
  forall i j a b, (i < j)%nat -> nth_error l i = Some a -> nth_error l j = Some b -> R a b.
Proof.
  induction 1 as [|x l Hs IH Hx]; intros i j a b Hij Ha Hb.
  - destruct i; discriminate.
  - destruct j as [|j]; [lia|]. simpl in Hb. destruct i as [|i]; simpl in Ha.
    + injection Ha as <-. rewrite List.Forall_forall in Hx. apply Hx.
      eapply nth_error_In. exact Hb.
    + apply (IH i j); [lia|assumption|assumption].
Qed.

Lemma sorted_app_inv (l1 l2 : list A) :
  StronglySorted R (l1 ++ l2) -> forall a b, In a l1 -> In b l2 -> R a b.
Proof.
  induction l1 as [|x l1 IH]; simpl; intros H a b Ha Hb; [destruct Ha|].
  apply StronglySorted_inv in H. destruct H as [Hs Hx].
  destruct Ha as [<-|Ha].
  - rewrite List.Forall_forall in Hx. apply Hx. apply in_or_app. right. exact Hb.
  - apply IH; assumption.
Qed.
End SortedFacts.

(** ** Similar catalog entries *)

Section SimilarSkus.
Import Storage SKUMatcher.
Import ProductNormalizer.

Lemma ranks_before_total (a b : similar_sku) :
  ranks_before a b = true \/ ranks_before b a = true.
Proof.
  unfold ranks_before.
  rewrite !orb_true_iff, !andb_true_iff, !Z.ltb_lt, !Z.eqb_eq, !Z.leb_le. lia.
Qed.

Lemma ranks_before_trans (a b c : similar_sku) :
  ranks_before a b = true -> ranks_before b c = true -> ranks_before a c = true.
Proof.
  unfold ranks_before.
  rewrite !orb_true_iff, !andb_true_iff, !Z.ltb_lt, !Z.eqb_eq, !Z.leb_le. lia.
Qed.

Lemma ranks_before_spec (a b : similar_sku) :
  ranks_before a b = true <->
  (similarity_score b < similarity_score a)%Z
  \/ (similarity_score a = similarity_score b /\ (s_sku_id b <= s_sku_id a)%Z).
Proof.
  unfold ranks_before.
  rewrite !orb_true_iff, !andb_true_iff, !Z.ltb_lt, !Z.eqb_eq, !Z.leb_le. reflexivity.
Qed.

Lemma similarity_cases (product : NormalizedProduct) (row : sku) :
  (similarity product row = 3%Z
   <-> sku_brand row = brand product /\ sku_chipset row = chipset product)
  /\ (similarity product row = 2%Z
      <-> sku_brand row <> brand product /\ sku_chipset row = chipset product)
  /\ (similarity product row = 1%Z
      <-> sku_brand row = brand product /\ sku_chipset row <> chipset product).
Proof.
  unfold similarity.
  destruct (ustring_eqb (sku_brand row) (brand product)) eqn:Eb;
    destruct (ustring_eqb (sku_chipset row) (chipset product)) eqn:Ec; simpl;
    repeat match goal with
           | H : ustring_eqb _ _ = true |- _ => apply ustring_eqb_eq in H
           | H : ustring_eqb _ _ = false |- _ => apply ustring_eqb_neq in H
           end;
    repeat split; intros; try discriminate; try tauto.
Qed.

Lemma similar_rows_sorted (db : database) (product : NormalizedProduct) (limit : nat) :
  StronglySorted (fun a b => ranks_before a b = true) (similar_rows db product limit).
Proof.
  unfold similar_rows. apply sorted_firstn.
  apply order_by_sorted; [apply ranks_before_total|apply ranks_before_trans].
Qed.

Lemma similar_rows_origin (db : database) (product : NormalizedProduct) (limit : nat)
      (e : similar_sku) :
  In e (similar_rows db product limit) ->
  exists row, In row (skus db) /\ related product row = true /\ e = scored product row.
Proof.
  unfold similar_rows. intros H.
  assert (H' : In e (order_by ranks_before
                       (map (scored product) (List.filter (related product) (skus db))))).
  { rewrite <- (firstn_skipn limit _). apply in_or_app. left. exact H. }
  apply (Permutation_in _ (order_by_perm ranks_before _)) in H'.
  apply in_map_iff in H'. destruct H' as (row & <- & Hrow).
  apply filter_In in Hrow. destruct Hrow. exists row. auto.
Qed.

(** C8.  With storage answering, [find_similar_skus] returns at most
    [limit] entries; each is a catalog entry sharing the brand or the
    chipset of the product and carries score 3 when it shares both, 2 when
    it shares only the chipset, 1 when it shares only the brand; the list
    is ordered by score descending and, among equal scores, by entry id
    descending, ids being handed out in order of creation (the most
    recently created entry has the greatest id); an entry sharing both
    therefore precedes one sharing only the chipset, which precedes one
    sharing only the brand; and an entry left out by the limit ranks after
    every entry returned. *)
Theorem similar_skus_ranked (db : database) (product : NormalizedProduct) (limit : nat) :
  outage db = None ->
  exists results,
    find_similar_skus db product limit = Ok results
    /\ (length results <= limit)%nat
    /\ (forall e, In e results ->
          exists row, In row (skus db) /\ e = scored product row
          /\ (s_brand e = brand product \/ s_chipset e = chipset product)
          /\ (similarity_score e = 3%Z
              <-> s_brand e = brand product /\ s_chipset e = chipset product)
          /\ (similarity_score e = 2%Z
              <-> s_brand e <> brand product /\ s_chipset e = chipset product)
          /\ (similarity_score e = 1%Z
              <-> s_brand e = brand product /\ s_chipset e <> chipset product))
    /\ (forall i j a b, (i < j)%nat ->
          nth_error results i = Some a -> nth_error results j = Some b ->
          (similarity_score b < similarity_score a)%Z
          \/ (similarity_score a = similarity_score b /\ (s_sku_id b <= s_sku_id a)%Z))
    /\ (forall i j a b,
          nth_error results i = Some a -> nth_error results j = Some b ->
          (similarity_score b < similarity_score a)%Z -> (i < j)%nat)
    /\ (forall row, In row (skus db) -> related product row = true ->
          ~ In (scored product row) results ->
          length results = limit
          /\ forall e, In e results -> ranks_before e (scored product row) = true).
Proof.
  intros Hout. exists (similar_rows db product limit).
  split; [unfold find_similar_skus, execute; rewrite Hout; reflexivity|].
  split; [unfold similar_rows; rewrite length_firstn; lia|].
  split; [|split; [|split]].
  - intros e He. destruct (similar_rows_origin _ _ _ _ He) as (row & Hrow & Hrel & ->).
    exists row. split; [exact Hrow|]. split; [reflexivity|].
    split; [|apply similarity_cases].
    unfold related in Hrel. apply orb_true_iff in Hrel.
    rewrite !ustring_eqb_eq in Hrel. exact Hrel.
  - intros i j a b Hij Ha Hb. apply ranks_before_spec.
    exact (sorted_nth _ _ (similar_rows_sorted db product limit) i j a b Hij Ha Hb).
  - intros i j a b Ha Hb Hlt.
    destruct (Nat.lt_trichotomy i j) as [Hij|[->|Hji]]; [exact Hij| |].
    + rewrite Ha in Hb. injection Hb as ->. lia.
    + pose proof (sorted_nth _ _ (similar_rows_sorted db product limit) j i b a Hji Hb Ha) as H.
      apply ranks_before_spec in H. lia.
  - intros row Hrow Hrel Hout'.
    set (full := order_by ranks_before
                   (map (scored product) (List.filter (related product) (skus db)))).
    assert (Hfull : In (scored product row) full).
    { apply (Permutation_in _ (Permutation_sym (order_by_perm ranks_before _))).
      apply in_map, filter_In. auto. }
    unfold similar_rows in *. fold full in Hout' |- *.
    rewrite <- (firstn_skipn limit full) in Hfull.
    apply in_app_or in Hfull. destruct Hfull as [Hfull|Hfull]; [contradiction|].
    split.
    + rewrite length_firstn. apply Nat.min_l.
      destruct (Nat.le_gt_cases limit (length full)) as [H|H]; [exact H|].
      rewrite skipn_all2 in Hfull by lia. destruct Hfull.
    + intros e He.
      eapply (sorted_app_inv (fun a b => ranks_before a b = true)
                             (firstn limit full) (skipn limit full)); [|exact He|exact Hfull].
      rewrite firstn_skipn. apply order_by_sorted;
        [apply ranks_before_total|apply ranks_before_trans].
Qed.
End SimilarSkus.

(** ** Keyword frequencies *)

Section KeywordFrequency.
Import SentimentAnalyzer.

Implicit Types (fm : gmap ustring (gmap Z nat)) (seen : gset (ustring * Z * ustring)).

Lemma compact_eq fm1 fm2 :
  compact fm1 -> compact fm2 ->
  (forall kw d, frequency fm1 kw d = frequency fm2 kw d) -> fm1 = fm2.
Proof.
  intros C1 C2 Hf.
  assert (Hsub : forall fa fb, compact fa -> compact fb ->
            (forall kw d, frequency fa kw d = frequency fb kw d) ->
            forall kw m, fa !! kw = Some m -> exists m', fb !! kw = Some m').
  { intros fa fb Ca Cb Hab kw m Hm.
    destruct (fb !! kw) as [m'|] eqn:Hm'; [eauto|].
    destruct (Ca kw m Hm) as [Hne Hnz].
    destruct (map_choose m Hne) as (d & n & Hd).
    specialize (Hab kw d). unfold frequency in Hab. rewrite Hm, Hm' in Hab. simpl in Hab.
    rewrite Hd in Hab. simpl in Hab. exfalso. eapply Hnz; eassumption. }
  apply map_eq. intros kw.
  destruct (fm1 !! kw) as [m1|] eqn:H1.
  - destruct (Hsub fm1 fm2 C1 C2 Hf kw m1 H1) as (m2 & H2). rewrite H2. f_equal.
    apply map_eq. intros d.
    specialize (Hf kw d). unfold frequency in Hf. rewrite H1, H2 in Hf. simpl in Hf.
    destruct (m1 !! d) as [n1|] eqn:E1, (m2 !! d) as [n2|] eqn:E2; simpl in Hf.
    + congruence.
    + exfalso. eapply (proj2 (C1 kw m1 H1)); [exact E1|exact Hf].
    + exfalso. eapply (proj2 (C2 kw m2 H2)); [exact E2|symmetry; exact Hf].
    + reflexivity.
  - destruct (fm2 !! kw) as [m2|] eqn:H2; [|reflexivity].
    destruct (Hsub fm2 fm1 C2 C1 (fun kw d => eq_sym (Hf kw d)) kw m2 H2) as (m1 & H1').
    congruence.
Qed.

Lemma increment_frequency fm kw d kw' d' :
  frequency (increment kw d fm) kw' d'
  = if decide (kw' = kw /\ d' = d) then S (frequency fm kw d) else frequency fm kw' d'.
Proof.
  unfold frequency, increment.
  destruct (decide (kw' = kw)) as [->|Hkw].
  - rewrite lookup_insert_eq. simpl.
    destruct (decide (d' = d)) as [->|Hd].
    + rewrite lookup_insert_eq. simpl.
      rewrite decide_True by auto.
      destruct (fm !! kw); reflexivity.
    + rewrite lookup_insert_ne by congruence.
      rewrite decide_False by tauto.
      destruct (fm !! kw); simpl; [reflexivity|rewrite lookup_empty; reflexivity].
  - rewrite lookup_insert_ne by congruence.
    rewrite decide_False by tauto. reflexivity.
Qed.

Lemma increment_compact fm kw d : compact fm -> compact (increment kw d fm).
Proof.
  intros C kw' m. unfold increment.
  destruct (decide (kw' = kw)) as [->|Hkw].
  - rewrite lookup_insert_eq. intros E. injection E as <-. split.
    + apply insert_non_empty.
    + intros d' n. destruct (decide (d' = d)) as [->|Hd].
      * rewrite lookup_insert_eq. intros E. injection E as <-. discriminate.
      * rewrite lookup_insert_ne by congruence.
        destruct (fm !! kw) as [m0|] eqn:E0; simpl.
        -- apply (proj2 (C kw m0 E0)).
        -- rewrite lookup_empty. discriminate.
  - rewrite lookup_insert_ne by congruence. apply C.
Qed.

Lemma distinct_posts_add seen (k : ustring * Z * ustring) kw d :
  k ∉ seen ->
  distinct_posts ({[k]} ∪ seen) kw d
  = if decide (fst (fst k) = kw /\ snd (fst k) = d)
    then S (distinct_posts seen kw d) else distinct_posts seen kw d.
Proof.
  intros Hk. unfold distinct_posts. rewrite filter_union_L; [|apply _].
  case_decide as Hm.
  - rewrite (filter_singleton_True_L _ k Hm).
    rewrite size_union.
    + rewrite size_singleton. reflexivity.
    + apply disjoint_singleton_l. rewrite elem_of_filter. tauto.
  - rewrite (filter_singleton_False_L _ k Hm).
    rewrite union_empty_l_L. reflexivity.
Qed.

Lemma count_signal_counted seen fm (signal : MarketSignal) :
  counted seen fm ->
  counted (fst (count_signal (seen, fm) signal)) (snd (count_signal (seen, fm) signal))
  /\ fst (count_signal (seen, fm) signal) = {[mention_key signal]} ∪ seen.
Proof.
  intros [C F]. unfold count_signal.
  destruct (decide (mention_key signal ∈ seen)) as [Hin|Hout]; simpl.
  - split; [split; assumption|]. apply set_eq. intros k.
    rewrite elem_of_union, elem_of_singleton. split; [auto|intros [->|H]; assumption].
  - split; [|reflexivity]. split; [apply increment_compact, C|].
    intros kw d. rewrite increment_frequency, (distinct_posts_add _ _ _ _ Hout).
    unfold mention_key at 1 2. simpl. rewrite !F.
    destruct (decide (kw = keyword signal /\ d = date_of (timestamp signal))) as [[-> ->]|H].
    + rewrite decide_True by auto. reflexivity.
    + rewrite decide_False; [reflexivity|]. intros [<- <-]. apply H. auto.
Qed.

Lemma fold_counted (signals : list MarketSignal) seen fm :
  counted seen fm ->
  counted (fst (fold_left count_signal signals (seen, fm)))
          (snd (fold_left count_signal signals (seen, fm)))
  /\ fst (fold_left count_signal signals (seen, fm)) = mention_keys signals ∪ seen.
Proof.
  revert seen fm. induction signals as [|signal signals IH]; intros seen fm H;
    cbn [fold_left].
  - split; [exact H|]. unfold mention_keys. simpl. rewrite union_empty_l_L. reflexivity.
  - destruct (count_signal_counted seen fm signal H) as [H' E].
    destruct (count_signal (seen, fm) signal) as [seen' fm'] eqn:Est. simpl in H', E.
    destruct (IH seen' fm' H') as [H'' E'']. split; [exact H''|].
    rewrite E'', E. unfold mention_keys. simpl.
    rewrite (union_comm_L {[mention_key signal]} (list_to_set _)), <- union_assoc_L.
    reflexivity.
Qed.

Lemma analysis_counted (signals : list MarketSignal) :
  counted (mention_keys signals) (analyze_keyword_frequency signals).
Proof.
  unfold analyze_keyword_frequency.
  assert (H0 : counted ∅ (∅ : gmap ustring (gmap Z nat))).
  { split.
    - intros kw m. rewrite lookup_empty. discriminate.
    - intros kw d. unfold frequency, distinct_posts.
      rewrite lookup_empty. simpl.
      rewrite filter_empty_L by apply _. rewrite size_empty. reflexivity. }
  destruct (fold_counted signals ∅ ∅ H0) as [H E].
  rewrite E in H. rewrite union_empty_r_L in H. exact H.
Qed.

Lemma same_keys_same_analysis (signals signals' : list MarketSignal) :
  mention_keys signals = mention_keys signals' ->
  analyze_keyword_frequency signals = analyze_keyword_frequency signals'.
Proof.
  intros E.
  destruct (analysis_counted signals) as [C F], (analysis_counted signals') as [C' F'].
  apply compact_eq; [exact C|exact C'|].
  intros kw d. rewrite F, F', E. reflexivity.
Qed.
End KeywordFrequency.

Section KeywordFrequencyClaims.
Import SentimentAnalyzer.

Lemma mention_keys_elem (signals : list MarketSignal) (k : ustring * Z * ustring) :
  k ∈ mention_keys signals <-> exists s, In s signals /\ mention_key s = k.
Proof.
  unfold mention_keys. rewrite elem_of_list_to_set, list_elem_of_In, in_map_iff.
  split; intros (s & H1 & H2); exists s; auto.
Qed.

Lemma mention_keys_ext (signals signals' : list MarketSignal) :
  (forall k, k ∈ mention_keys signals <-> k ∈ mention_keys signals') ->
  mention_keys signals = mention_keys signals'.
Proof. intros H. apply set_eq. exact H. Qed.

Lemma distinct_posts_single (k : ustring * Z * ustring) (kw : ustring) (d : Z) :
  distinct_posts {[k]} kw d = if decide (fst (fst k) = kw /\ snd (fst k) = d) then 1%nat else O.
Proof.
  assert (E : ({[k]} : gset (ustring * Z * ustring)) = {[k]} ∪ ∅)
    by (rewrite union_empty_r_L; reflexivity).
  rewrite E, distinct_posts_add by apply not_elem_of_empty.
  unfold distinct_posts. rewrite filter_empty_L by apply _. rewrite size_empty. reflexivity.
Qed.

End KeywordFrequencyClaims.

(** ** The matcher *)

Section MatcherFacts.
Context (U : ucd).

Lemma last_char_app (prev : option N) (w1 w2 : ustring) :
  last_char prev (w1 ++ w2) = last_char (last_char prev w1) w2.
Proof. revert prev. induction w1 as [|c w1 IH]; intros prev; simpl; [reflexivity|apply IH]. Qed.

(** A continuation that fails wherever another one fails makes the whole
    match fail wherever the other does. *)
Lemma star_c_none_mono {R R' : Type} (p : N -> bool) (prev : option N) (s : ustring)
      (k : option N -> ustring -> option R) (k' : option N -> ustring -> option R') :
  (forall q t, k' q t = None -> k q t = None) ->
  star_c p prev s k' = None -> star_c p prev s k = None.
Proof.
  intros Hk. revert prev. induction s as [|c s IH]; intros prev; simpl.
  - apply Hk.
  - destruct (p c); [|apply Hk].
    destruct (star_c p (Some c) s k') eqn:E'; [discriminate|].
    rewrite (IH _ E'). apply Hk.
Qed.

Lemma rmatch_none_mono {R R' : Type} (r : regex) :
  forall (prev : option N) (s : ustring) (cap cap' : capture)
         (k : option N -> ustring -> capture -> option R)
         (k' : option N -> ustring -> capture -> option R'),
    (forall q t c c', k' q t c' = None -> k q t c = None) ->
    rmatch U r prev s cap' k' = None -> rmatch U r prev s cap k = None.
Proof.
  induction r as [cs|l| |a IHa b IHb|a IHa b IHb|cs|cs|a IHa| |a IHa];
    intros prev s cap cap' k k' Hk; simpl.
  - destruct s as [|c s]; [reflexivity|]. destruct (cset_match U cs c); [apply Hk|reflexivity].
  - destruct s as [|c s]; [reflexivity|]. destruct (lit_match_i U l c); [apply Hk|reflexivity].
  - apply Hk.
  - apply IHa. intros q t c c'. apply IHb. exact Hk.
  - destruct (rmatch U a prev s cap' k') eqn:Ea; [discriminate|].
    rewrite (IHa _ _ _ _ _ _ Hk Ea). apply IHb. exact Hk.
  - destruct s as [|c s]; [reflexivity|]. destruct (cset_match U cs c); [|reflexivity].
    apply star_c_none_mono. intros q t. apply Hk.
  - apply star_c_none_mono. intros q t. apply Hk.
  - destruct (rmatch U a prev s cap' k') eqn:Ea; [discriminate|].
    rewrite (IHa _ _ _ _ _ _ Hk Ea). apply Hk.
  - destruct (at_boundary U prev s); [apply Hk|reflexivity].
  - apply IHa. intros q t c c'. apply Hk.
Qed.

(** A successful match has consumed a word of the expression, and the
    continuation has succeeded on what is left. *)
Lemma star_c_sound {R : Type} (p : N -> bool) (prev : option N) (s : ustring)
      (k : option N -> ustring -> option R) (x : R) :
  star_c p prev s k = Some x ->
  exists w s', s = w ++ s' /\ Forall (fun c => p c = true) w /\ k (last_char prev w) s' = Some x.
Proof.
  revert prev. induction s as [|c s IH]; intros prev; simpl.
  - intros H. exists [], []. auto.
  - destruct (p c) eqn:Ep.
    + destruct (star_c p (Some c) s k) eqn:E.
      * intros H. injection H as ->. destruct (IH _ E) as (w & s' & -> & Hw & Hk).
        exists (c :: w), s'. split; [reflexivity|]. split; [constructor; assumption|].
        exact Hk.
      * intros H. exists [], (c :: s). auto.
    + intros H. exists [], (c :: s). auto.
Qed.

Lemma rmatch_sound {R : Type} (r : regex) :
  forall (prev : option N) (s : ustring) (cap : capture)
         (k : option N -> ustring -> capture -> option R) (x : R),
    rmatch U r prev s cap k = Some x ->
    exists w s' cap', s = w ++ s' /\ lang U r w /\ k (last_char prev w) s' cap' = Some x.
Proof.
  induction r as [cs|l| |a IHa b IHb|a IHa b IHb|cs|cs|a IHa| |a IHa];
    intros prev s cap k x; simpl.
  - destruct s as [|c s]; [discriminate|]. destruct (cset_match U cs c) eqn:E; [|discriminate].
    intros H. exists [c], s, cap. split; [reflexivity|]. split; [constructor; exact E|exact H].
  - destruct s as [|c s]; [discriminate|]. destruct (lit_match_i U l c) eqn:E; [|discriminate].
    intros H. exists [c], s, cap. split; [reflexivity|]. split; [constructor; exact E|exact H].
  - intros H. exists [], s, cap. split; [reflexivity|]. split; [constructor|exact H].
  - intros H. apply IHa in H. destruct H as (w1 & s1 & c1 & -> & L1 & H).
    apply IHb in H. destruct H as (w2 & s2 & c2 & -> & L2 & H).
    exists (w1 ++ w2), s2, c2. split; [apply app_assoc|]. split; [constructor; assumption|].
    rewrite last_char_app. exact H.
  - destruct (rmatch U a prev s cap k) eqn:Ea.
    + intros H. injection H as ->. apply IHa in Ea. destruct Ea as (w & s' & c' & -> & L & H).
      exists w, s', c'. split; [reflexivity|]. split; [apply lang_alt_l; exact L|exact H].
    + intros H. apply IHb in H. destruct H as (w & s' & c' & -> & L & H).
      exists w, s', c'. split; [reflexivity|]. split; [apply lang_alt_r; exact L|exact H].
  - destruct s as [|c s]; [discriminate|]. destruct (cset_match U cs c) eqn:E; [|discriminate].
    intros H. apply star_c_sound in H. destruct H as (w & s' & -> & Hw & H).
    exists (c :: w), s', cap. split; [reflexivity|].
    split; [constructor; [discriminate|constructor; assumption]|].
    exact H.
  - intros H. apply star_c_sound in H. destruct H as (w & s' & -> & Hw & H).
    exists w, s', cap. split; [reflexivity|]. split; [constructor; exact Hw|exact H].
  - destruct (rmatch U a prev s cap k) eqn:Ea.
    + intros H. injection H as ->. apply IHa in Ea. destruct Ea as (w & s' & c' & -> & L & H).
      exists w, s', c'. split; [reflexivity|]. split; [apply lang_opt_some; exact L|exact H].
    + intros H. exists [], s, cap. split; [reflexivity|]. split; [apply lang_opt_none|exact H].
  - destruct (at_boundary U prev s); [|discriminate].
    intros H. exists [], s, cap. split; [reflexivity|]. split; [constructor|exact H].
  - intros H. apply IHa in H. destruct H as (w & s' & c' & -> & L & H).
    exists w, s', (Some (w ++ s', s')). split; [reflexivity|]. split; [constructor; exact L|exact H].
Qed.

Lemma search_from_here (r : regex) (before : ustring) (prev : option N) (s rest : ustring)
      (cap : capture) :
  match_here U r prev s = Some (rest, cap) ->
  search_from U r before prev s
  = Some {| m_before := rev before; m_group0 := consumed s rest;
            m_group1 := group_text cap; m_after := rest |}.
Proof. intros H. destruct s; simpl; rewrite H; reflexivity. Qed.

(** The search skips the positions at which the pattern does not match. *)
Lemma search_from_skip (r : regex) (pre rest : ustring) :
  forall (before : ustring) (prev : option N),
    no_match_in U r prev pre rest = true ->
    search_from U r before prev (pre ++ rest)
    = search_from U r (rev pre ++ before) (last_char prev pre) rest.
Proof.
  induction pre as [|c pre IH]; intros before prev H.
  - reflexivity.
  - simpl in H. change ((c :: pre) ++ rest) with (c :: (pre ++ rest)) in *.
    simpl. destruct (match_here U r prev (c :: pre ++ rest)); [discriminate|].
    rewrite (IH _ _ H). rewrite <- app_assoc. reflexivity.
Qed.
End MatcherFacts.

(** ** Patterns of alternatives *)

Section Alternatives.
Context (U : ucd).

Lemma rmatch_alts {R : Type} (l : list regex) (prev : option N) (s : ustring) (cap : capture)
      (k : option N -> ustring -> capture -> option R) :
  rmatch U (alts l) prev s cap k = first_some (map (fun a => rmatch U a prev s cap k) l).
Proof.
  induction l as [|a l IH].
  - simpl. destruct s as [|c s]; [reflexivity|]. simpl.
    destruct ((1 <=? c) && (c <=? 0)) eqn:E; [|reflexivity].
    apply andb_true_iff in E. destruct E as [E1 E2].
    apply N.leb_le in E1, E2. lia.
  - destruct l as [|b l].
    + simpl. destruct (rmatch U a prev s cap k); reflexivity.
    + change (rmatch U (alts (a :: b :: l)) prev s cap k)
        with (match rmatch U a prev s cap k with
              | Some x => Some x
              | None => rmatch U (alts (b :: l)) prev s cap k
              end).
      rewrite IH. change (map ?f (a :: ?t)) with (f a :: map f t). cbv beta.
      destruct (rmatch U a prev s cap k); reflexivity.
Qed.

(** A pattern [\b(a1|a2|...)\b] matches at a word boundary, with the first
    alternative that matches up to a word boundary. *)
Lemma match_here_alternatives (l : list regex) (prev : option N) (s : ustring) :
  match_here U (seqs [WordB; Group (alts l); WordB]) prev s
  = if at_boundary U prev s then first_some (map (try_alternative U prev s) l) else None.
Proof.
  unfold match_here, seqs. simpl.
  destruct (at_boundary U prev s); [|reflexivity].
  rewrite rmatch_alts. reflexivity.
Qed.
End Alternatives.

(** ** The chipset pattern on given phrases *)

(** Evaluate the character tests on given characters. *)
Ltac eval_chars :=
  repeat match goal with
    | |- context [lit_match_i ?U ?a ?b] =>
        let v := eval vm_compute in (lit_match_i U a b) in
        match v with true => idtac | false => idtac end;
        change (lit_match_i U a b) with v
    | |- context [isspace ?U ?b] =>
        let v := eval vm_compute in (isspace U b) in
        match v with true => idtac | false => idtac end;
        change (isspace U b) with v
    | |- context [isword ?U ?b] =>
        let v := eval vm_compute in (isword U b) in
        match v with true => idtac | false => idtac end;
        change (isword U b) with v
    end.

Ltac run_matcher := repeat (cbn; eval_chars).

Section ChipsetMatching.
Import ProductNormalizer.
Context (U : ucd).

Lemma rmatch_seq_none_mono {R R' : Type} (a b b' : regex) (prev : option N) (s : ustring)
      (cap cap' : capture)
      (k : option N -> ustring -> capture -> option R)
      (k' : option N -> ustring -> capture -> option R') :
  rmatch U (Seq a b') prev s cap' k' = None ->
  (forall q t c c', rmatch U b' q t c' k' = None -> rmatch U b q t c k = None) ->
  rmatch U (Seq a b) prev s cap k = None.
Proof.
  intros E H. simpl in *. revert E. apply rmatch_none_mono. exact H.
Qed.

Lemma consumed_app (w rest : ustring) : consumed (w ++ rest) rest = w.
Proof.
  unfold consumed. rewrite length_app.
  replace (length w + length rest - length rest)%nat with (length w) by lia.
  rewrite firstn_app, firstn_all, Nat.sub_diag. simpl. apply app_nil_r.
Qed.

(** The alternatives with the RTX prefix do not match at a digit 4. *)
Lemma try_rtx_at_4 (prev : option N) (s : ustring) (a : regex) :
  In a [alt_rtx_ti_super; alt_rtx_super; alt_rtx_ti; alt_rtx] ->
  try_alternative U prev (52 :: s) a = None.
Proof.
  intros [<-|[<-|[<-|[<-|[]]]]]; unfold try_alternative; run_matcher; reflexivity.
Qed.

Lemma try_rtx_ti_super_phrase (prev : option N) (post : ustring) :
  not_word U (head post) ->
  try_alternative U prev (phrase_rtx_ti_super ++ post) alt_rtx_ti_super
  = Some (post, Some (phrase_rtx_ti_super ++ post, post)).
Proof.
  intros H. unfold try_alternative, phrase_rtx_ti_super. run_matcher.
  unfold at_boundary. run_matcher. rewrite H. reflexivity.
Qed.

Lemma try_ti_super_form (prev : option N) (post : ustring) :
  not_word U (head post) ->
  try_alternative U prev (form_ti_super ++ post) alt_ti_super
  = Some (post, Some (form_ti_super ++ post, post)).
Proof.
  intros H. unfold try_alternative, form_ti_super. run_matcher.
  unfold at_boundary. run_matcher. rewrite H. reflexivity.
Qed.

Lemma try_ti_super_at_super (prev : option N) (post : ustring) :
  try_alternative U prev (form_super ++ post) alt_ti_super = None.
Proof. unfold try_alternative, form_super. run_matcher. reflexivity. Qed.

Lemma try_super_form (prev : option N) (post : ustring) :
  not_word U (head post) ->
  try_alternative U prev (form_super ++ post) alt_super
  = Some (post, Some (form_super ++ post, post)).
Proof.
  intros H. unfold try_alternative, form_super. run_matcher.
  unfold at_boundary. run_matcher. rewrite H. reflexivity.
Qed.

Lemma try_ti_super_at_ti (prev : option N) (post : ustring) :
  super_follows U (Some 105) post = false ->
  try_alternative U prev (form_ti ++ post) alt_ti_super = None.
Proof.
  intros H. unfold try_alternative, form_ti, alt_ti_super, seqs.
  change (fold_right Seq Eps [w_4070; ws; w_ti; ws; w_super])
    with (Seq w_4070 (Seq ws (Seq w_ti (Seq ws (Seq w_super Eps))))).
  remember (Seq ws (Seq w_super Eps)) as tail eqn:Et.
  unfold w_4070, w_ti, ws. run_matcher. subst tail.
  unfold super_follows, match_here, seqs in H. cbn [fold_right] in H.
  destruct (rmatch U (Seq ws (Seq w_super (Seq WordB Eps))) (Some 105) post None
                   (fun (_ : option N) (s' : ustring) (c : capture) => Some (s', c)))
    eqn:E; [discriminate|].
  eapply rmatch_seq_none_mono; [exact E|]. intros q t c c' E1.
  eapply rmatch_seq_none_mono; [exact E1|]. intros q' t' c2 c2' E2.
  cbn in *. destruct (at_boundary U q' t'); [discriminate|reflexivity].
Qed.

Lemma try_super_at_ti (prev : option N) (post : ustring) :
  try_alternative U prev (form_ti ++ post) alt_super = None.
Proof. unfold try_alternative, form_ti. run_matcher. reflexivity. Qed.

Lemma try_ti_form (prev : option N) (post : ustring) :
  not_word U (head post) ->
  try_alternative U prev (form_ti ++ post) alt_ti
  = Some (post, Some (form_ti ++ post, post)).
Proof.
  intros H. unfold try_alternative, form_ti. run_matcher.
  unfold at_boundary. run_matcher. rewrite H. reflexivity.
Qed.

(** At a word boundary the pattern matches each of these phrases whole. *)
Lemma chipset_match_phrase (prev : option N) (post : ustring) :
  not_word U prev -> not_word U (head post) ->
  match_here U chipset_pattern prev (phrase_rtx_ti_super ++ post)
  = Some (post, Some (phrase_rtx_ti_super ++ post, post)).
Proof.
  intros Hprev Hpost. unfold chipset_pattern. rewrite match_here_alternatives.
  assert (Hb : at_boundary U prev (phrase_rtx_ti_super ++ post) = true).
  { unfold at_boundary. rewrite Hprev. run_matcher. reflexivity. }
  rewrite Hb. unfold chipset_alternatives. cbn [map first_some].
  rewrite (try_rtx_ti_super_phrase prev post Hpost). reflexivity.
Qed.

Lemma chipset_match_form (form : ustring) (prev : option N) (post : ustring) :
  In form [form_ti_super; form_super; form_ti] ->
  not_word U prev -> not_word U (head post) ->
  (form = form_ti -> super_follows U (Some 105) post = false) ->
  match_here U chipset_pattern prev (form ++ post) = Some (post, Some (form ++ post, post)).
Proof.
  intros Hform Hprev Hpost Hsuper. unfold chipset_pattern. rewrite match_here_alternatives.
  assert (Hb : at_boundary U prev (form ++ post) = true).
  { unfold at_boundary. rewrite Hprev.
    destruct Hform as [<-|[<-|[<-|[]]]]; run_matcher; reflexivity. }
  rewrite Hb. unfold chipset_alternatives. cbn [map first_some].
  assert (H4 : exists s, form ++ post = 52 :: s).
  { destruct Hform as [<-|[<-|[<-|[]]]]; eexists; reflexivity. }
  destruct H4 as (s & Es).
  rewrite Es, !try_rtx_at_4 by (simpl; tauto). rewrite <- Es. clear s Es.
  destruct Hform as [<-|[<-|[<-|[]]]].
  - rewrite (try_ti_super_form prev post Hpost). reflexivity.
  - rewrite try_ti_super_at_super, (try_super_form prev post Hpost). reflexivity.
  - rewrite (try_ti_super_at_ti prev post (Hsuper eq_refl)), try_super_at_ti,
      (try_ti_form prev post Hpost). reflexivity.
Qed.

(** The search finds the phrase when no match starts before it. *)
Lemma chipset_search_found (pre w post : ustring) :
  no_match_in U chipset_pattern None pre (w ++ post) = true ->
  match_here U chipset_pattern (last_char None pre) (w ++ post)
  = Some (post, Some (w ++ post, post)) ->
  re_search U chipset_pattern (pre ++ w ++ post)
  = Some {| m_before := pre; m_group0 := w; m_group1 := Some w; m_after := post |}.
Proof.
  intros Hpre Hm. unfold re_search. rewrite (search_from_skip U _ _ _ _ _ Hpre).
  rewrite (search_from_here U _ _ _ _ _ _ Hm).
  simpl. rewrite consumed_app, app_nil_r, rev_involutive. reflexivity.
Qed.
End ChipsetMatching.

(** ** Normalization of names with a given chipset phrase *)

Section NormalizePhrase.
Import ProductNormalizer.
Context (U : ucd).

Lemma lstrip_keeps (c : N) (s : ustring) :
  In c s -> isspace U c = false -> In c (lstrip U s).
Proof.
  intros Hin Hc. induction s as [|a s IH]; [destruct Hin|].
  simpl. destruct (isspace U a) eqn:Ea; [|exact Hin].
  destruct Hin as [->|Hin]; [congruence|]. apply IH, Hin.
Qed.

Lemma strip_nonblank (c : N) (s : ustring) :
  In c s -> isspace U c = false -> py_strip U s <> [].
Proof.
  intros Hin Hc. unfold py_strip.
  assert (H : In c (rev (lstrip U (rev (lstrip U s))))).
  { apply -> in_rev. apply lstrip_keeps; [|exact Hc].
    apply -> in_rev. apply lstrip_keeps; assumption. }
  intros E. rewrite E in H. destruct H.
Qed.

Lemma extract_chipset_found (name : ustring) (mo : match_obj) (w v : ustring) :
  re_search U chipset_pattern name = Some mo ->
  m_group1 mo = Some w ->
  canonical_chipset U w = v ->
  In v RTX_4070_VARIANTS ->
  _extract_chipset U name = Ok v.
Proof.
  intros Hs Hg Hc Hv. unfold _extract_chipset. rewrite Hs, Hg.
  change (default [] (Some w)) with w. rewrite Hc.
  apply str_in_In in Hv. rewrite Hv. reflexivity.
Qed.

Lemma normalize_ok (name b ch v : ustring) :
  py_strip U name <> [] ->
  _extract_brand U name = Ok b ->
  _extract_chipset U name = Ok ch ->
  _extract_vram U name = Ok v ->
  normalize U name
  = Ok {| brand := b; chipset := ch; model_name := _extract_model_name U name b ch;
          vram := v; is_oc := _detect_oc U name |}.
Proof.
  intros Hne Hb Hc Hv. unfold normalize.
  destruct (py_strip U name); [contradiction|].
  rewrite Hb, Hc, Hv. reflexivity.
Qed.

Lemma normalize_chipset (name : ustring) (p : NormalizedProduct) :
  normalize U name = Ok p -> _extract_chipset U name = Ok (chipset p).
Proof.
  unfold normalize. destruct (py_strip U name); [discriminate|].
  destruct (_extract_brand U name); [|discriminate]. cbn [bind].
  destruct (_extract_chipset U name); [|discriminate]. cbn [bind].
  destruct (_extract_vram U name); [|discriminate]. cbn [bind].
  intros E. injection E as <-. reflexivity.
Qed.
End NormalizePhrase.

Section ChipsetClaims.
Import ProductNormalizer.
Context (U : ucd).

(** C4, as the code has it.  When the phrase "RTX 4070 Ti Super" stands
    between word boundaries and no chipset pattern matches at an earlier
    position of the text, the chipset extracted is "RTX 4070 Ti Super", and a
    successful [normalize] returns it: never "RTX 4070 Ti", "RTX 4070 Super"
    or "RTX 4070".  (At one position the patterns are tried most specific
    first; over the text the leftmost position with a match wins.) *)
Theorem longest_chipset_first (pre post : ustring) :
  no_match_in U chipset_pattern None pre (phrase_rtx_ti_super ++ post) = true ->
  not_word U (last_char None pre) ->
  not_word U (head post) ->
  _extract_chipset U (pre ++ phrase_rtx_ti_super ++ post) = Ok (u "RTX 4070 Ti Super")
  /\ forall p,
      normalize U (pre ++ phrase_rtx_ti_super ++ post) = Ok p ->
      chipset p = u "RTX 4070 Ti Super"
      /\ chipset p <> u "RTX 4070 Ti"
      /\ chipset p <> u "RTX 4070 Super"
      /\ chipset p <> u "RTX 4070".
Proof.
  intros Hpre Hprev Hpost.
  assert (Hc : _extract_chipset U (pre ++ phrase_rtx_ti_super ++ post)
               = Ok (u "RTX 4070 Ti Super")).
  { eapply extract_chipset_found.
    - apply chipset_search_found; [exact Hpre|].
      apply chipset_match_phrase; assumption.
    - reflexivity.
    - vm_compute. reflexivity.
    - vm_compute. tauto. }
  split; [exact Hc|].
  intros p Hp. apply normalize_chipset in Hp. rewrite Hc in Hp. injection Hp as Hp.
  rewrite <- Hp. split; [reflexivity|].
  split; [|split]; vm_compute; discriminate.
Qed.

(** C5, as the code has it.  A name that gives the chipset as "4070 Ti
    Super", "4070 Super" or "4070 Ti", between word boundaries, with no
    chipset pattern matching at an earlier position (and, for "4070 Ti", not
    going on with "Super"), and in which a brand and a VRAM size are
    recognised, normalizes successfully, the chipset being the form with
    "RTX " put before it.  A bare "4070" is not among the patterns:
    "MSI 4070 12GB" fails with the chipset error. *)
Theorem numeral_only_forms (form pre post b v : ustring) :
  In form [form_ti_super; form_super; form_ti] ->
  no_match_in U chipset_pattern None pre (form ++ post) = true ->
  not_word U (last_char None pre) ->
  not_word U (head post) ->
  (form = form_ti -> super_follows U (Some 105) post = false) ->
  _extract_brand U (pre ++ form ++ post) = Ok b ->
  _extract_vram U (pre ++ form ++ post) = Ok v ->
  (exists p,
      normalize U (pre ++ form ++ post) = Ok p
      /\ chipset p = u "RTX " ++ form
      /\ In (chipset p) RTX_4070_VARIANTS
      /\ brand p = b /\ vram p = v)
  /\ normalize U (u "MSI 4070 12GB")
     = Raise (NormalizationError (u "Failed to extract chipset from: MSI 4070 12GB")).
Proof.
  intros Hform Hpre Hprev Hpost Hsuper Hb Hv.
  split; [|vm_compute; reflexivity].
  assert (Hin : In (u "RTX " ++ form) RTX_4070_VARIANTS).
  { destruct Hform as [<-|[<-|[<-|[]]]]; vm_compute; tauto. }
  assert (Hc : _extract_chipset U (pre ++ form ++ post) = Ok (u "RTX " ++ form)).
  { eapply extract_chipset_found.
    - apply chipset_search_found; [exact Hpre|].
      apply chipset_match_form; assumption.
    - reflexivity.
    - destruct Hform as [<-|[<-|[<-|[]]]]; vm_compute; reflexivity.
    - exact Hin. }
  assert (Hne : py_strip U (pre ++ form ++ post) <> []).
  { apply (strip_nonblank U 52); [|vm_compute; reflexivity].
    apply in_or_app. right. apply in_or_app. left.
    destruct Hform as [<-|[<-|[<-|[]]]]; left; reflexivity. }
  exists {| brand := b; chipset := u "RTX " ++ form;
            model_name := _extract_model_name U (pre ++ form ++ post) b (u "RTX " ++ form);
            vram := v; is_oc := _detect_oc U (pre ++ form ++ post) |}.
  split; [apply normalize_ok; assumption|].
  split; [reflexivity|]. split; [exact Hin|]. split; reflexivity.
Qed.
End ChipsetClaims.

(** ** Texts without a chipset *)

Section NoChipset.
Import ProductNormalizer.
Context (U : ucd).

Lemma contains_app_r (p w s : ustring) : contains p s = true -> contains p (w ++ s) = true.
Proof.
  intros H. induction w as [|c w IH]; [exact H|].
  simpl. rewrite IH. apply orb_true_r.
Qed.

Lemma startswith_contains (p s : ustring) : startswith p s = true -> contains p s = true.
Proof. intros H. destruct s; simpl; rewrite H; reflexivity. Qed.

Lemma contains_app_l (p s w : ustring) : contains p s = true -> contains p (s ++ w) = true.
Proof.
  assert (Hsw : forall p s, startswith p s = true -> startswith p (s ++ w) = true).
  { clear. induction p as [|a p IH]; intros [|b s]; simpl; try reflexivity; try discriminate.
    intros H. apply andb_true_iff in H. destruct H as [-> H]. simpl. apply IH, H. }
  induction s as [|c s IH]; simpl.
  - rewrite orb_false_r. intros H. apply startswith_contains. apply (Hsw p [] H).
  - intros H. apply orb_true_iff in H. destruct H as [H|H].
    + pose proof (Hsw p (c :: s) H) as H'. simpl in H'. rewrite H'. reflexivity.
    + rewrite (IH H). apply orb_true_r.
Qed.

Lemma contains_self (s : ustring) : contains s s = true.
Proof.
  apply startswith_contains. induction s as [|c s IH]; simpl; [reflexivity|].
  rewrite N.eqb_refl. exact IH.
Qed.

Lemma rmatch_seq_sound {R : Type} (a b : regex) (prev : option N) (s : ustring)
      (cap : capture) (k : option N -> ustring -> capture -> option R) (x : R) :
  rmatch U (Seq a b) prev s cap k = Some x ->
  exists w s' p c', s = w ++ s' /\ lang U a w /\ rmatch U b p s' c' k = Some x.
Proof.
  intros H. simpl in H. apply rmatch_sound in H.
  destruct H as (w & s' & c' & -> & L & H). eauto 8.
Qed.

(** Whatever follows it in the pattern, the literal 4070 is read as such. *)
Lemma rmatch_4070_head {R : Type} (t : regex) (prev : option N) (s : ustring)
      (cap : capture) (k : option N -> ustring -> capture -> option R) (x : R) :
  rmatch U (Seq w_4070 t) prev s cap k = Some x -> startswith (u "4070") s = true.
Proof.
  unfold w_4070. simpl.
  destruct s as [|c1 s]; [discriminate|].
  change (lit_match_i U 52 c1) with (c1 =? 52).
  destruct (c1 =? 52) eqn:E1; [|discriminate]. apply N.eqb_eq in E1. subst c1.
  destruct s as [|c2 s]; [discriminate|].
  change (lit_match_i U 48 c2) with (c2 =? 48).
  destruct (c2 =? 48) eqn:E2; [|discriminate]. apply N.eqb_eq in E2. subst c2.
  destruct s as [|c3 s]; [discriminate|].
  change (lit_match_i U 55 c3) with (c3 =? 55).
  destruct (c3 =? 55) eqn:E3; [|discriminate]. apply N.eqb_eq in E3. subst c3.
  destruct s as [|c4 s]; [discriminate|].
  change (lit_match_i U 48 c4) with (c4 =? 48).
  destruct (c4 =? 48) eqn:E4; [|discriminate]. apply N.eqb_eq in E4. subst c4.
  reflexivity.
Qed.

Lemma rmatch_rtx_4070 {R : Type} (t : regex) (prev : option N) (s : ustring)
      (cap : capture) (k : option N -> ustring -> capture -> option R) (x : R) :
  rmatch U (Seq w_rtx (Seq ws (Seq w_4070 t))) prev s cap k = Some x ->
  contains (u "4070") s = true.
Proof.
  intros H. apply rmatch_seq_sound in H. destruct H as (w1 & s1 & p1 & c1 & -> & _ & H).
  apply rmatch_seq_sound in H. destruct H as (w2 & s2 & p2 & c2 & -> & _ & H).
  apply rmatch_4070_head in H.
  apply contains_app_r, contains_app_r, startswith_contains, H.
Qed.

Lemma try_alternative_4070 (prev : option N) (s : ustring) (a : regex) (x : ustring * capture) :
  In a chipset_alternatives ->
  try_alternative U prev s a = Some x -> contains (u "4070") s = true.
Proof.
  unfold try_alternative.
  intros [<-|[<-|[<-|[<-|[<-|[<-|[<-|[]]]]]]]] H.
  1-4: exact (rmatch_rtx_4070 _ _ _ _ _ _ H).
  all: apply startswith_contains; exact (rmatch_4070_head _ _ _ _ _ _ H).
Qed.

Lemma first_some_In {A : Type} (l : list (option A)) (x : A) :
  first_some l = Some x -> In (Some x) l.
Proof.
  induction l as [|[y|] l IH]; simpl; [discriminate| |].
  - intros E. left. exact E.
  - intros E. right. apply IH, E.
Qed.

Lemma chipset_match_4070 (prev : option N) (s : ustring) (x : ustring * capture) :
  match_here U chipset_pattern prev s = Some x -> contains (u "4070") s = true.
Proof.
  unfold chipset_pattern. rewrite match_here_alternatives.
  destruct (at_boundary U prev s); [|discriminate].
  intros H. apply first_some_In, in_map_iff in H. destruct H as (a & Ha & Hin).
  exact (try_alternative_4070 _ _ _ _ Hin Ha).
Qed.

Lemma search_from_found (r : regex) (s : ustring) :
  forall (before : ustring) (prev : option N) (mo : match_obj),
    search_from U r before prev s = Some mo ->
    exists w s' p x, s = w ++ s' /\ match_here U r p s' = Some x.
Proof.
  induction s as [|c s IH]; intros before prev mo; simpl.
  - destruct (match_here U r prev []) as [x|] eqn:E; [|discriminate].
    intros _. exists [], [], prev, x. auto.
  - destruct (match_here U r prev (c :: s)) as [x|] eqn:E.
    + intros _. exists [], (c :: s), prev, x. auto.
    + intros H. apply IH in H. destruct H as (w & s' & p & x & -> & H).
      exists (c :: w), s', p, x. auto.
Qed.

(** A text that does not contain 4070 holds no chipset of the series. *)
Lemma no_4070_no_chipset (name : ustring) :
  contains (u "4070") name = false -> re_search U chipset_pattern name = None.
Proof.
  intros H. destruct (re_search U chipset_pattern name) as [mo|] eqn:E; [|reflexivity].
  apply search_from_found in E. destruct E as (w & s' & p & x & -> & E).
  apply chipset_match_4070 in E. apply (contains_app_r _ w) in E. congruence.
Qed.
End NoChipset.

Section OutOfScope.
Import ProductNormalizer.
Context (U : ucd).

Lemma extract_chipset_in_series (name v : ustring) :
  _extract_chipset U name = Ok v -> In v RTX_4070_VARIANTS.
Proof.
  unfold _extract_chipset. destruct (re_search U chipset_pattern name) as [mo|]; [|discriminate].
  destruct (str_in _ RTX_4070_VARIANTS) eqn:E; [|discriminate].
  intros H. injection H as <-. apply str_in_In, E.
Qed.

End OutOfScope.

(** ** ASCII chipset texts *)

Section AsciiChipset.
Import ProductNormalizer.
Context (U : ucd).

Lemma below_spec (n : nat) (P : N -> bool) :
  forallb P (below n) = true -> forall c, c < N.of_nat n -> P c = true.
Proof.
  intros H c Hc. rewrite forallb_forall in H. apply H.
  unfold below. apply in_map_iff. exists (N.to_nat c).
  split; [apply N2Nat.id|]. apply in_seq. lia.
Qed.

(** On ASCII text a literal of an IGNORECASE pattern matches its two
    cases, and a character matched by a letter or a digit is not
    whitespace. *)
Lemma lit_match_ascii (l t : N) :
  l < 128 -> t < 128 -> lit_match_i U l t = true -> t = l \/ t = toggle_case l.
Proof.
  intros Hl Ht H.
  assert (Hall : forallb (fun l => forallb (fun t =>
             implb (lit_match_i U l t) ((t =? l) || (t =? toggle_case l)))
             (below 128)) (below 128) = true) by (vm_compute; reflexivity).
  apply (below_spec 128 _ Hall l) in Hl. apply (below_spec 128 _ Hl t) in Ht.
  rewrite H in Ht. simpl in Ht. apply orb_true_iff in Ht.
  destruct Ht as [E|E]; apply N.eqb_eq in E; auto.
Qed.

Lemma alnum_variant_not_space (l t : N) :
  l < 128 -> isalnum U l = true -> t = l \/ t = toggle_case l -> isspace U t = false.
Proof.
  intros Hl Hal Ht.
  assert (Hall : forallb (fun l =>
             implb (isalnum U l) (negb (isspace U l) && negb (isspace U (toggle_case l))))
             (below 128) = true) by (vm_compute; reflexivity).
  apply (below_spec 128 _ Hall l) in Hl. rewrite Hal in Hl. simpl in Hl.
  apply andb_true_iff in Hl. destruct Hl as [H1 H2].
  apply negb_true_iff in H1, H2. destruct Ht as [->| ->]; assumption.
Qed.

Lemma lang_lit_i (l x : ustring) :
  lang U (lit_i l) x -> Forall2 (fun c t => lit_match_i U c t = true) l x.
Proof.
  revert x. induction l as [|c l IH]; intros x H.
  - inversion H. constructor.
  - unfold lit_i, seqs in H. simpl in H. inversion H as [| | |a b w1 w2 H1 H2| | | | | | | |]; subst.
    inversion H1; subst. simpl. constructor; [assumption|]. apply IH. exact H2.
Qed.

Lemma case_variants_In (l x : ustring) :
  Forall2 (fun c t => t = c \/ t = toggle_case c) l x -> In x (case_variants l).
Proof.
  induction 1 as [|c t l x Hc _ IH]; simpl; [left; reflexivity|].
  apply in_flat_map. exists x. split; [exact IH|].
  destruct Hc as [->| ->]; simpl; auto.
Qed.

(** [str.split] on words separated by whitespace. *)
Lemma split_acc_word (x acc s : ustring) :
  Forall (fun c => isspace U c = false) x ->
  split_acc U acc (x ++ s) = split_acc U (rev x ++ acc) s.
Proof.
  intros H. revert acc. induction H as [|c x Hc _ IH]; intros acc; simpl; [reflexivity|].
  rewrite Hc, IH, <- app_assoc. reflexivity.
Qed.

Lemma split_acc_spaces (sp s : ustring) :
  Forall (fun c => isspace U c = true) sp ->
  split_acc U [] (sp ++ s) = split_acc U [] s.
Proof.
  induction 1 as [|c sp Hc _ IH]; simpl; [reflexivity|]. rewrite Hc. exact IH.
Qed.

Lemma py_split_word_spaces (x sp s : ustring) :
  x <> [] -> Forall (fun c => isspace U c = false) x ->
  sp <> [] -> Forall (fun c => isspace U c = true) sp ->
  py_split U (x ++ sp ++ s) = x :: py_split U s.
Proof.
  intros Hx Hxs Hsp Hsps. unfold py_split.
  rewrite (split_acc_word _ _ _ Hxs), app_nil_r.
  destruct sp as [|c sp]; [contradiction|]. inversion Hsps; subst.
  simpl. rewrite H1.
  destruct (rev x) as [|d r] eqn:Er.
  - apply (f_equal (@rev N)) in Er. rewrite rev_involutive in Er. contradiction.
  - rewrite <- Er, rev_involutive. f_equal. apply split_acc_spaces. assumption.
Qed.

Lemma py_split_word (x : ustring) :
  x <> [] -> Forall (fun c => isspace U c = false) x -> py_split U x = [x].
Proof.
  intros Hx Hxs. unfold py_split.
  rewrite <- (app_nil_r x) at 1. rewrite (split_acc_word _ _ _ Hxs), app_nil_r. simpl.
  destruct (rev x) as [|d r] eqn:Er.
  - apply (f_equal (@rev N)) in Er. rewrite rev_involutive in Er. contradiction.
  - rewrite <- Er, rev_involutive. reflexivity.
Qed.
End AsciiChipset.

Section AsciiChipsetWords.
Import ProductNormalizer.
Context (U : ucd).

Lemma matched_word (l x : ustring) :
  plain_word U l ->
  Forall2 (fun c t => lit_match_i U c t = true) l x ->
  forallb is_ascii x = true ->
  In x (case_variants l) /\ x <> [] /\ Forall (fun c => isspace U c = false) x.
Proof.
  intros [Hne Hl] H Hx.
  assert (Hv : Forall2 (fun c t => (t = c \/ t = toggle_case c) /\ isspace U t = false) l x).
  { clear Hne. induction H as [|c t l x Hm _ IH]; [constructor|].
    inversion Hl as [|? ? [Hc Hal] Hl']; subst.
    simpl in Hx. apply andb_true_iff in Hx. destruct Hx as [Ht Hx].
    apply N.ltb_lt in Ht.
    pose proof (lit_match_ascii U c t Hc Ht Hm) as Hct.
    constructor; [|apply IH; assumption].
    split; [exact Hct|]. exact (alnum_variant_not_space U c t Hc Hal Hct). }
  split; [|split].
  - apply case_variants_In. eapply Forall2_impl; [exact Hv|]. intros c t [E _]. exact E.
  - destruct Hv; [contradiction|discriminate].
  - clear -Hv. induction Hv as [|c t l x [_ Hs] _ IH]; constructor; assumption.
Qed.

Lemma forallb_ascii_app (a b : ustring) :
  forallb is_ascii (a ++ b) = true ->
  forallb is_ascii a = true /\ forallb is_ascii b = true.
Proof. rewrite forallb_app, andb_true_iff. tauto. Qed.

(** An ASCII text of the language of spaced words splits into spellings of
    the words. *)
Lemma lang_spaced (ls : list ustring) :
  ls <> [] -> Forall (plain_word U) ls ->
  forall w, lang U (seqs (spaced ls)) w -> forallb is_ascii w = true ->
  Forall2 (fun l x => In x (case_variants l)) ls (py_split U w).
Proof.
  induction ls as [|l ls IH]; [contradiction|].
  intros _ Hls w Hw Hascii. inversion Hls as [|? ? Hl Hls']; subst.
  destruct ls as [|l2 ls].
  - unfold seqs in Hw. simpl in Hw.
    inversion Hw as [| | |a b x w2 Hx H2| | | | | | | |]; subst.
    inversion H2; subst. rewrite app_nil_r in *.
    apply lang_lit_i in Hx.
    destruct (matched_word l x Hl Hx Hascii) as (Hin & Hne & Hns).
    rewrite (py_split_word U x Hne Hns). constructor; [exact Hin|constructor].
  - change (seqs (spaced (l :: l2 :: ls)))
      with (Seq (lit_i l) (Seq ws (seqs (spaced (l2 :: ls))))) in Hw.
    inversion Hw as [| | |a b x w2 Hx H2| | | | | | | |]; subst.
    inversion H2 as [| | |a b sp w3 Hsp H3| | | | | | | |]; subst.
    inversion Hsp as [| | | | | |k sp' Hspne Hsps| | | | |]; subst.
    apply forallb_ascii_app in Hascii. destruct Hascii as [Hax Hrest].
    apply forallb_ascii_app in Hrest. destruct Hrest as [_ Haw3].
    apply lang_lit_i in Hx.
    destruct (matched_word l x Hl Hx Hax) as (Hin & Hne & Hns).
    rewrite (py_split_word_spaces U x sp w3 Hne Hns Hspne Hsps).
    constructor; [exact Hin|]. apply IH; [discriminate|assumption|assumption|assumption].
Qed.

Lemma all_variants_In (ls : list ustring) (xs : list ustring) :
  Forall2 (fun l x => In x (case_variants l)) ls xs -> In xs (all_variants ls).
Proof.
  induction 1 as [|l x ls xs Hx _ IH]; simpl; [left; reflexivity|].
  apply in_flat_map. exists x. split; [exact Hx|]. apply in_map, IH.
Qed.

Lemma chipset_alternatives_words :
  chipset_alternatives = map (fun ls => seqs (spaced ls)) chipset_words.
Proof. reflexivity. Qed.

Lemma chipset_words_plain (ls : list ustring) :
  In ls chipset_words -> ls <> [] /\ Forall (plain_word U) ls.
Proof.
  assert (Hc : forall l, forallb (fun c => (c <? 128) && isalnum U c) l = true -> l <> [] ->
                         plain_word U l).
  { intros l H Hne. split; [exact Hne|]. apply List.Forall_forall. intros c Hc.
    rewrite forallb_forall in H. specialize (H c Hc).
    apply andb_true_iff in H. destruct H as [H1 H2]. apply N.ltb_lt in H1. auto. }
  intros H. split.
  - repeat (destruct H as [<-|H]; [discriminate|]). destruct H.
  - repeat (destruct H as [<-|H];
            [repeat constructor; apply Hc; (vm_compute; reflexivity) || discriminate|]).
    destruct H.
Qed.

(** Every ASCII spelling of the words of an alternative is standardised to
    a chipset of the series. *)
Lemma standard_words_in_series (ls xs : list ustring) :
  In ls chipset_words -> In xs (all_variants ls) ->
  In (standard_words U xs) RTX_4070_VARIANTS.
Proof.
  intros Hls Hxs. apply str_in_In.
  assert (Hall : forallb (fun ls => forallb (fun xs =>
              str_in (standard_words U xs) RTX_4070_VARIANTS) (all_variants ls))
            chipset_words = true) by (vm_compute; reflexivity).
  rewrite forallb_forall in Hall. specialize (Hall ls Hls).
  rewrite forallb_forall in Hall. exact (Hall xs Hxs).
Qed.

(** What a match of the chipset pattern consists of. *)
Lemma chipset_match_inv (prev : option N) (s rest : ustring) (cap : capture) :
  match_here U chipset_pattern prev s = Some (rest, cap) ->
  exists w ls,
    s = w ++ rest /\ cap = Some (s, rest)
    /\ In ls chipset_words /\ lang U (seqs (spaced ls)) w.
Proof.
  unfold chipset_pattern. rewrite match_here_alternatives.
  destruct (at_boundary U prev s); [|discriminate].
  intros H. apply first_some_In, in_map_iff in H. destruct H as (a & Ha & Hin).
  rewrite chipset_alternatives_words in Hin. apply in_map_iff in Hin.
  destruct Hin as (ls & <- & Hls).
  unfold try_alternative in Ha. apply rmatch_sound in Ha.
  destruct Ha as (w & s' & c' & -> & L & Ha).
  destruct (at_boundary U _ s'); [|discriminate]. injection Ha as <- <-.
  exists w, ls. auto.
Qed.

Lemma search_from_inv (r : regex) (s : ustring) :
  forall (before : ustring) (prev : option N) (mo : match_obj),
    search_from U r before prev s = Some mo ->
    exists s' p rest cap,
      match_here U r p s' = Some (rest, cap)
      /\ m_group0 mo = consumed s' rest /\ m_group1 mo = group_text cap.
Proof.
  induction s as [|c s IH]; intros before prev mo; simpl.
  - destruct (match_here U r prev []) as [[rest cap]|] eqn:E; [|discriminate].
    intros H. injection H as <-. exists [], prev, rest, cap. auto.
  - destruct (match_here U r prev (c :: s)) as [[rest cap]|] eqn:E.
    + intros H. injection H as <-. exists (c :: s), prev, rest, cap. auto.
    + apply IH.
Qed.
End AsciiChipsetWords.

Section SeriesCheck.
Import ProductNormalizer.
Context (U : ucd).

Lemma canonical_ascii_in_series (name : ustring) (mo : match_obj) (w : ustring) :
  re_search U chipset_pattern name = Some mo ->
  m_group1 mo = Some w ->
  forallb is_ascii w = true ->
  In (canonical_chipset U w) RTX_4070_VARIANTS.
Proof.
  intros Hs Hg Hascii. unfold re_search in Hs. apply search_from_inv in Hs.
  destruct Hs as (s' & p & rest & cap & Hm & _ & Hg1).
  apply chipset_match_inv in Hm. destruct Hm as (w' & ls & -> & -> & Hls & L).
  rewrite Hg in Hg1. simpl in Hg1. rewrite consumed_app in Hg1. injection Hg1 as ->.
  destruct (chipset_words_plain U ls Hls) as [Hne Hplain].
  change (canonical_chipset U w') with (standard_words U (py_split U w')).
  apply (standard_words_in_series U ls); [exact Hls|].
  apply all_variants_In. apply lang_spaced; assumption.
Qed.

End SeriesCheck.

(** ** Examples *)

Section Examples.
Import ProductNormalizer.

(** C4, as stated, fails: a text may hold the phrase "RTX 4070 Ti Super"
    and be normalized to a shorter variant, when a shorter variant stands
    earlier in the text, or when the phrase is not followed by a word
    boundary. *)
Lemma shorter_variant_despite_phrase :
  (contains (u "RTX 4070 Ti Super") (u "MSI RTX 4070 vs RTX 4070 Ti Super 12GB") = true
   /\ exists p, normalize ucd_excerpt (u "MSI RTX 4070 vs RTX 4070 Ti Super 12GB") = Ok p
                /\ chipset p = u "RTX 4070")
  /\ (contains (u "RTX 4070 Ti Super") (u "MSI RTX 4070 Ti SuperX 12GB") = true
      /\ exists p, normalize ucd_excerpt (u "MSI RTX 4070 Ti SuperX 12GB") = Ok p
                   /\ chipset p = u "RTX 4070 Ti").
Proof.
  split; (split; [vm_compute; reflexivity|]); eexists; (split; [vm_compute; reflexivity|]);
    reflexivity.
Qed.

Lemma longest_chipset_first_witness :
  _extract_chipset ucd_excerpt (u "GIGABYTE 지포스 " ++ phrase_rtx_ti_super ++ u " GAMING OC 16GB")
  = Ok (u "RTX 4070 Ti Super").
Proof.
  refine (proj1 (longest_chipset_first ucd_excerpt (u "GIGABYTE 지포스 ") (u " GAMING OC 16GB")
                                       _ _ _)).
  - vm_compute. reflexivity.
  - vm_compute. reflexivity.
  - vm_compute. reflexivity.
Defined.

(** C5, as stated, fails for the bare "4070": the name holds a brand and a
    VRAM size, and no chipset is extracted. *)
Lemma bare_4070_not_recognised :
  _extract_brand ucd_excerpt (u "MSI 4070 12GB") = Ok (u "MSI")
  /\ _extract_vram ucd_excerpt (u "MSI 4070 12GB") = Ok (u "12GB")
  /\ normalize ucd_excerpt (u "MSI 4070 12GB")
     = Raise (NormalizationError (u "Failed to extract chipset from: MSI 4070 12GB")).
Proof. repeat split; vm_compute; reflexivity. Qed.

Lemma numeral_only_forms_witness :
  exists p,
    normalize ucd_excerpt (u "MSI " ++ form_ti_super ++ u " 16GB OC is amazing") = Ok p
    /\ chipset p = u "RTX 4070 Ti Super"
    /\ brand p = u "MSI" /\ vram p = u "16GB".
Proof.
  destruct (proj1 (numeral_only_forms ucd_excerpt form_ti_super (u "MSI ")
                                      (u " 16GB OC is amazing") (u "MSI") (u "16GB")
                                      ltac:(left; reflexivity)
                                      ltac:(vm_compute; reflexivity)
                                      ltac:(vm_compute; reflexivity)
                                      ltac:(vm_compute; reflexivity)
                                      ltac:(intros E; vm_compute in E; discriminate)
                                      ltac:(vm_compute; reflexivity)
                                      ltac:(vm_compute; reflexivity)))
    as (p & H1 & H2 & _ & H3 & H4).
  exists p. repeat split; assumption.
Defined.



(** Without a recognisable brand, the brand is what the error reports,
    whatever the chipset. *)
Example out_of_scope_without_brand :
  normalize ucd_excerpt (u "RTX 4060 8GB")
  = Raise (NormalizationError (u "Failed to extract brand from: RTX 4060 8GB")).
Proof. vm_compute. reflexivity. Qed.

(** The canonical form of a match is found whatever the case and the
    whitespace of the text. *)
Example chipset_any_case_and_spacing :
  _extract_chipset ucd_excerpt (u "asus rtx   4070	ti  super oc 16gb")
  = Ok (u "RTX 4070 Ti Super").
Proof. vm_compute. reflexivity. Qed.

Lemma similar_skus_ranked_witness :
  exists results,
    SKUMatcher.find_similar_skus sample_catalog sample_product 3 = Ok results
    /\ map SKUMatcher.s_sku_id results = [5; 3; 1]%Z
    /\ map SKUMatcher.similarity_score results = [3; 3; 2]%Z.
Proof.
  destruct (similar_skus_ranked sample_catalog sample_product 3 eq_refl)
    as (results & H & _).
  exists results. split; [exact H|].
  vm_compute in H. injection H as <-. split; reflexivity.
Defined.


End Examples.

(** * Further properties

    Properties of the functions around those above: the rest of the
    analyzers, the matcher and the normalizer, the retries of the database
    manager, the alert message of the loader, the product stage of the
    pipeline and the chipset filter of the crawler. *)

(** ** Rounding *)

Section Rounding.
Lemma round_half_even_bounds (q : Q) :
  (Qfloor q <= round_half_even q <= Qfloor q + 1)%Z.
Proof.
  unfold round_half_even.
  destruct (q - inject_Z (Qfloor q) ?= 1 # 2)%Q; [destruct (Z.even (Qfloor q))| |]; lia.
Qed.

Lemma round_half_even_mono (p q : Q) :
  (p <= q)%Q -> (round_half_even p <= round_half_even q)%Z.
Proof.
  intros H. pose proof (Qfloor_resp_le _ _ H) as Hf.
  destruct (Z.eq_dec (Qfloor p) (Qfloor q)) as [E|E].
  - unfold round_half_even. rewrite E.
    destruct (Qcompare_spec (p - inject_Z (Qfloor q)) (1 # 2)) as [Hp|Hp|Hp];
      destruct (Qcompare_spec (q - inject_Z (Qfloor q)) (1 # 2)) as [Hq|Hq|Hq];
      try destruct (Z.even (Qfloor q)); try lia;
      exfalso; generalize dependent (inject_Z (Qfloor q)); intros; lra.
  - pose proof (round_half_even_bounds p). pose proof (round_half_even_bounds q). lia.
Qed.

Lemma py_round2_mono (x y : Qc) : (x <= y)%Qc -> (py_round2 x <= py_round2 y)%Qc.
Proof.
  intros H. unfold Qcle in *. unfold py_round2. simpl. rewrite !Qred_correct.
  apply Qmult_le_compat_r; [|discriminate].
  rewrite <- Zle_Qle. apply round_half_even_mono.
  apply Qmult_le_compat_r; [exact H|discriminate].
Qed.

Lemma py_round2_Z (z : Z) : py_round2 (Qc_of_Z z) = Qc_of_Z z.
Proof.
  apply Qc_is_canon. unfold py_round2, Qc_of_Z.
  assert (E : (Q2Qc (inject_Z z) * 100 == inject_Z (z * 100))%Q)
    by (unfold Q2Qc, this; rewrite Qred_correct, inject_Z_mult; reflexivity).
  rewrite (round_half_even_comp _ _ E). unfold Q2Qc, this. rewrite !Qred_correct.
  assert (R : round_half_even (inject_Z (z * 100)) = (z * 100)%Z).
  { unfold round_half_even. rewrite Qfloor_Z.
    destruct (Qcompare_spec (inject_Z (z * 100) - inject_Z (z * 100)) (1 # 2)) as [H|H|H].
    - exfalso. generalize dependent (inject_Z (z * 100)). intros; lra.
    - reflexivity.
    - exfalso. generalize dependent (inject_Z (z * 100)). intros; lra. }
  rewrite R, inject_Z_mult. field.
Qed.
End Rounding.

Lemma sorted_impl {A : Type} (R R' : A -> A -> Prop) (l : list A) :
  (forall a b, R a b -> R' a b) -> StronglySorted R l -> StronglySorted R' l.
Proof.
  intros H. induction 1 as [|x l Hs IH Hx]; constructor; [exact IH|].
  eapply Forall_impl; [exact Hx|]. intros y. apply H.
Qed.

Lemma filter_none {A : Type} (f : A -> bool) (l : list A) :
  (forall x, In x l -> f x = false) -> List.filter f l = [].
Proof.
  induction l as [|x l IH]; simpl; intros H; [reflexivity|].
  rewrite (H x) by (left; reflexivity). apply IH. intros y Hy. apply H. right. exact Hy.
Qed.

Section PriceQueries.
Import Storage PriceAnalyzer.

Lemma recorded_at_desc_total (a b : price_log) :
  recorded_at_desc a b = true \/ recorded_at_desc b a = true.
Proof. unfold recorded_at_desc. rewrite !Z.leb_le. lia. Qed.

Lemma recorded_at_desc_trans (a b c : price_log) :
  recorded_at_desc a b = true -> recorded_at_desc b c = true -> recorded_at_desc a c = true.
Proof. unfold recorded_at_desc. rewrite !Z.leb_le. lia. Qed.

Lemma timedelta_days_add (a b : Z) :
  timedelta_days (a + b) = (timedelta_days a + timedelta_days b)%Z.
Proof. unfold timedelta_days. lia. Qed.

Lemma timedelta_days_sub (a b : Z) :
  timedelta_days (a - b) = (timedelta_days a - timedelta_days b)%Z.
Proof. unfold timedelta_days. lia. Qed.

Lemma timedelta_days_le (a b : Z) : (a <= b)%Z <-> (timedelta_days a <= timedelta_days b)%Z.
Proof. unfold timedelta_days, day_us. lia. Qed.

Lemma select_window_rows (db : database) (now sku_id days_ago window_days : Z) :
  Permutation
    (select_window db sku_id
       (now - timedelta_days days_ago - timedelta_days window_days)
       (now - timedelta_days days_ago + timedelta_days window_days))
    (observations_between db now sku_id (days_ago - window_days) (days_ago + window_days)).
Proof.
  unfold select_window. rewrite order_by_perm.
  unfold observations_between, in_window.
  rewrite timedelta_days_add, timedelta_days_sub.
  replace (now - timedelta_days days_ago - timedelta_days window_days)%Z
    with (now - (timedelta_days days_ago + timedelta_days window_days))%Z by lia.
  replace (now - timedelta_days days_ago + timedelta_days window_days)%Z
    with (now - (timedelta_days days_ago - timedelta_days window_days))%Z by lia.
  reflexivity.
Qed.

Lemma select_window_sorted (db : database) (sku_id start_date end_date : Z) :
  StronglySorted (fun a b => (pl_recorded_at b <= pl_recorded_at a)%Z)
                 (select_window db sku_id start_date end_date).
Proof.
  unfold select_window.
  eapply sorted_impl;
    [|apply (order_by_sorted recorded_at_desc);
      [apply recorded_at_desc_total|apply recorded_at_desc_trans]].
  intros a b H. apply Z.leb_le, H.
Qed.


(** X1.  With storage answering, [_get_historical_prices] returns the prices
    of exactly the observations of the entry recorded between
    [days_ago + window_days] and [days_ago - window_days] days ago, both
    ends included, the most recent first; with a negative [window_days]
    the window is empty and the result is the empty list. *)
Theorem historical_prices_any_window (db : database) (now sku_id days_ago window_days : Z) :
  outage db = None ->
  exists rows,
    _get_historical_prices db now sku_id days_ago window_days = Ok (map pl_price rows)
    /\ Permutation rows
         (observations_between db now sku_id (days_ago - window_days)
                               (days_ago + window_days))
    /\ StronglySorted (fun a b => (pl_recorded_at b <= pl_recorded_at a)%Z) rows
    /\ ((window_days < 0)%Z -> rows = []).
Proof.
  intros Hout.
  exists (select_window db sku_id
            (now - timedelta_days days_ago - timedelta_days window_days)
            (now - timedelta_days days_ago + timedelta_days window_days)).
  split; [unfold _get_historical_prices, execute; rewrite Hout; reflexivity|].
  split; [apply select_window_rows|]. split; [apply select_window_sorted|].
  intros Hneg. apply Permutation_nil. symmetry.
  rewrite select_window_rows. unfold observations_between.
  rewrite filter_none; [reflexivity|]. intros row _.
  apply andb_false_iff.
  destruct (now - timedelta_days (days_ago + window_days) <=? pl_recorded_at row)%Z eqn:E1;
    [|left; apply andb_false_iff; right; reflexivity].
  right. apply Z.leb_gt. apply Z.leb_le in E1.
  assert (timedelta_days (days_ago + window_days) < timedelta_days (days_ago - window_days))%Z
    by (unfold timedelta_days, day_us; lia).
  lia.
Qed.

Lemma price_history_rows (db : database) (now sku_id days : Z) :
  outage db = None ->
  exists rows,
    get_price_history db now sku_id days
    = Ok (map (fun row => (pl_recorded_at row, pl_price row)) rows)
    /\ Permutation rows (history_rows db now sku_id days)
    /\ StronglySorted (fun a b => (pl_recorded_at b <= pl_recorded_at a)%Z) rows.
Proof.
  intros Hout. unfold get_price_history, execute. rewrite Hout. simpl.
  eexists. split; [reflexivity|]. split; [apply order_by_perm|].
  eapply sorted_impl;
    [|apply (order_by_sorted recorded_at_desc);
      [apply recorded_at_desc_total|apply recorded_at_desc_trans]].
  intros a b H. apply Z.leb_le, H.
Qed.




(** X3.  When [days_ago + window_days <= days], every price that
    [_get_historical_prices] returns is the price of a pair that
    [get_price_history] returns, with a timestamp inside the window; so the
    window holds no more prices than the history holds pairs. *)
Theorem window_within_history (db : database) (now sku_id days_ago window_days days : Z)
        (prices : list Qc) (history : list (Z * Qc)) :
  (days_ago + window_days <= days)%Z ->
  _get_historical_prices db now sku_id days_ago window_days = Ok prices ->
  get_price_history db now sku_id days = Ok history ->
  (length prices <= length history)%nat
  /\ forall p, In p prices ->
       exists t, In (t, p) history
                 /\ (now - timedelta_days (days_ago + window_days) <= t)%Z
                 /\ (t <= now - timedelta_days (days_ago - window_days))%Z.
Proof.
  intros Hdays Hp Hh.
  assert (Hout : outage db = None).
  { unfold _get_historical_prices, execute in Hp. destruct (outage db); [discriminate|].
    reflexivity. }
  assert (E : _get_historical_prices db now sku_id days_ago window_days
              = Ok (map pl_price
                        (select_window db sku_id
                           (now - timedelta_days days_ago - timedelta_days window_days)
                           (now - timedelta_days days_ago + timedelta_days window_days))))
    by (unfold _get_historical_prices, execute; rewrite Hout; reflexivity).
  pose proof (select_window_rows db now sku_id days_ago window_days) as P.
  rewrite Hp in E. injection E as ->.
  destruct (price_history_rows db now sku_id days Hout) as (rows' & E' & P' & _).
  rewrite Hh in E'. injection E' as ->.
  assert (Hle : (timedelta_days (days_ago + window_days) <= timedelta_days days)%Z)
    by (apply (proj1 (timedelta_days_le _ _)), Hdays).
  assert (Hsub : forall row,
            In row (observations_between db now sku_id (days_ago - window_days)
                                         (days_ago + window_days)) ->
            In row (history_rows db now sku_id days)).
  { intros row Hrow. unfold observations_between in Hrow. unfold history_rows.
    apply filter_In in Hrow. destruct Hrow as [Hrow Hc]. apply filter_In.
    split; [exact Hrow|].
    apply andb_true_iff in Hc. destruct Hc as [Hc H3]. apply andb_true_iff in Hc.
    destruct Hc as [H1 H2]. apply andb_true_iff. split; [exact H1|].
    apply Z.leb_le. apply Z.leb_le in H2. lia. }
  split.
  - rewrite !length_map, (Permutation_length P), (Permutation_length P').
    unfold observations_between, history_rows.
    induction (price_logs db) as [|row l IH]; simpl; [lia|].
    destruct ((pl_sku_id row =? sku_id)%Z) eqn:H1; simpl; [|exact IH].
    destruct ((now - timedelta_days (days_ago + window_days) <=? pl_recorded_at row)%Z) eqn:H2;
      simpl.
    + assert ((now - timedelta_days days <=? pl_recorded_at row)%Z = true) as ->.
      { apply Z.leb_le. apply Z.leb_le in H2. lia. }
      destruct ((pl_recorded_at row <=? now - timedelta_days (days_ago - window_days))%Z);
        simpl; lia.
    + destruct ((now - timedelta_days days <=? pl_recorded_at row)%Z); simpl; lia.
  - intros p Hin. apply in_map_iff in Hin. destruct Hin as (row & <- & Hrow).
    apply (Permutation_in _ P) in Hrow.
    exists (pl_recorded_at row). split.
    + apply in_map_iff. exists row. split; [reflexivity|].
      apply (Permutation_in _ (Permutation_sym P')), Hsub, Hrow.
    + unfold observations_between in Hrow. apply filter_In in Hrow.
      destruct Hrow as [_ Hc]. apply andb_true_iff in Hc. destruct Hc as [Hc H3].
      apply andb_true_iff in Hc. destruct Hc as [_ H2].
      apply Z.leb_le in H2, H3. auto.
Qed.

Lemma price_change_ok_inv (db : database) (now sku_id : Z) (current_price r : Qc) :
  calculate_price_change db now sku_id current_price = Ok r ->
  (Q2Qc 0 < current_price)%Qc
  /\ outage db = None
  /\ observations_between db now sku_id 6 8 <> []
  /\ baseline db now sku_id <> Q2Qc 0
  /\ r = py_round2 ((current_price - baseline db now sku_id) / baseline db now sku_id
                    * Qc_of_Z 100)%Qc.
Proof.
  intros H.
  assert (Hprice : (Q2Qc 0 < current_price)%Qc).
  { apply Qcleb_gt. unfold calculate_price_change in H.
    destruct (Qcleb current_price (Q2Qc 0)); [discriminate|reflexivity]. }
  assert (Hout : outage db = None).
  { unfold calculate_price_change in H. apply Qcleb_gt in Hprice. rewrite Hprice in H.
    unfold _get_historical_prices, execute in H.
    destruct (outage db); [discriminate|reflexivity]. }
  pose proof H as H'. unfold calculate_price_change in H'.
  rewrite (proj2 (Qcleb_gt _ _) Hprice) in H'.
  destruct (historical_prices_window db now sku_id Hout) as (prices & E & P).
  rewrite E in H'. simpl in H'.
  destruct prices as [|p prices]; [discriminate|].
  assert (Hobs : observations_between db now sku_id 6 8 <> []).
  { intros E0. apply (perm_nil_iff _ _ _ P) in E0. discriminate. }
  assert (Hb : baseline db now sku_id <> Q2Qc 0).
  { unfold baseline. rewrite <- (mean_perm _ _ P). apply Qceqb_neq.
    destruct (Qceqb (mean (p :: prices)) (Q2Qc 0)); [discriminate|reflexivity]. }
  repeat (split; [assumption|]).
  rewrite (price_change_value db now sku_id current_price Hout Hprice Hobs Hb) in H.
  injection H as <-. reflexivity.
Qed.

Lemma window_row_old_enough (db : database) (now sku_id : Z) :
  outage db = None ->
  observations_between db now sku_id 6 8 <> [] ->
  has_sufficient_data db now sku_id 6 = Ok true.
Proof.
  intros Hout Hobs. unfold has_sufficient_data, execute, earliest_recorded_at.
  rewrite Hout. fold (observations_of db sku_id).
  destruct (observations_between db now sku_id 6 8) as [|row l] eqn:E; [congruence|].
  assert (Hrow : In row (observations_between db now sku_id 6 8))
    by (rewrite E; left; reflexivity).
  unfold observations_between in Hrow. apply filter_In in Hrow.
  destruct Hrow as [Hrow Hc]. apply andb_true_iff in Hc. destruct Hc as [Hc H3].
  apply andb_true_iff in Hc. destruct Hc as [H1 _]. apply Z.leb_le in H3.
  assert (Hin : In (pl_recorded_at row) (map pl_recorded_at (observations_of db sku_id))).
  { apply in_map. unfold observations_of. apply filter_In. auto. }
  pose proof (min_opt_spec (map pl_recorded_at (observations_of db sku_id))) as Hmin.
  destruct (min_opt (map pl_recorded_at (observations_of db sku_id))) as [m|].
  - destruct Hmin as [_ Hmin]. f_equal. apply Z.leb_le, whole_days_le.
    specialize (Hmin _ Hin). lia.
  - rewrite Hmin in Hin. destruct Hin.
Qed.

Lemma sufficient_data_weaken (db : database) (now now' sku_id r r' : Z) :
  has_sufficient_data db now sku_id r = Ok true ->
  (now <= now')%Z -> (r' <= r)%Z ->
  has_sufficient_data db now' sku_id r' = Ok true.
Proof.
  unfold has_sufficient_data. destruct (execute db [earliest_recorded_at db sku_id]) as [rows|e];
    [|discriminate].
  destruct rows as [|[t|] rows]; try discriminate.
  intros H Hnow Hr. injection H as H. f_equal.
  apply Z.leb_le, whole_days_le. apply Z.leb_le, whole_days_le in H.
  assert (timedelta_days r' <= timedelta_days r)%Z by (apply (proj1 (timedelta_days_le _ _)), Hr).
  lia.
Qed.


(** X4.  [has_sufficient_data] is false for an entry without
    observations; and once it is true it stays true at any later time and
    for any smaller [required_days]. *)
Theorem sufficient_data_monotone (db : database) (now sku_id required_days : Z) :
  (observations_of db sku_id = [] ->
   has_sufficient_data db now sku_id required_days = Ok false)
  /\ (has_sufficient_data db now sku_id required_days = Ok true ->
      forall now' required_days',
        (now <= now')%Z -> (required_days' <= required_days)%Z ->
        has_sufficient_data db now' sku_id required_days' = Ok true).
Proof.
  split.
  - intros E. unfold has_sufficient_data, execute, earliest_recorded_at.
    fold (observations_of db sku_id). rewrite E. simpl.
    destruct (outage db); reflexivity.
  - intros H now' r' Hnow Hr. eapply sufficient_data_weaken; eassumption.
Qed.
End PriceQueries.

Section Analysis.
Import Storage PriceAnalyzer RiskCalculator.

Lemma risk_index_ok_inv (db : database) (now sku_id : Z) (current_price : Qc)
      (new_release_mentions : Z) (r : Qc) :
  calculate_risk_index db now sku_id current_price new_release_mentions = Ok r ->
  (Q2Qc 0 < current_price)%Qc
  /\ (0 <= new_release_mentions)%Z
  /\ outage db = None
  /\ observations_between db now sku_id 6 8 <> []
  /\ r = py_round2 ((current_price - baseline db now sku_id)
                    + Qc_of_Z new_release_mentions * Q2Qc (3 # 10))%Qc.
Proof.
  intros H. unfold calculate_risk_index in H.
  destruct (Qcleb current_price (Q2Qc 0)) eqn:Hp; [discriminate|].
  destruct (new_release_mentions <? 0)%Z eqn:Hm; [discriminate|].
  apply Qcleb_gt in Hp. apply Z.ltb_ge in Hm.
  assert (Hout : outage db = None).
  { unfold _get_historical_prices, execute in H. destruct (outage db); [discriminate|].
    reflexivity. }
  destruct (historical_prices_window db now sku_id Hout) as (prices & E & P).
  rewrite E in H. simpl in H. destruct prices as [|p prices]; [discriminate|].
  repeat (split; [assumption|]). split.
  - intros E0. apply (perm_nil_iff _ _ _ P) in E0. discriminate.
  - injection H as <-. unfold baseline. rewrite <- (mean_perm _ _ P). reflexivity.
Qed.


(** X5.  Whenever [calculate_price_change] or [calculate_risk_index]
    returns a value, the entry has six days of data: from then on
    [has_sufficient_data] is true for every [required_days <= 6] (the window
    of the analysis starts six days ago). *)
Theorem analysis_implies_six_days (db : database) (now sku_id : Z) (current_price : Qc)
        (new_release_mentions : Z) (r : Qc) :
  calculate_price_change db now sku_id current_price = Ok r
  \/ calculate_risk_index db now sku_id current_price new_release_mentions = Ok r ->
  forall now' required_days, (now <= now')%Z -> (required_days <= 6)%Z ->
    has_sufficient_data db now' sku_id required_days = Ok true.
Proof.
  intros H now' required_days Hnow Hr.
  assert (H6 : has_sufficient_data db now sku_id 6 = Ok true).
  { destruct H as [H|H].
    - apply price_change_ok_inv in H. destruct H as (_ & Hout & Hobs & _).
      apply window_row_old_enough; assumption.
    - apply risk_index_ok_inv in H. destruct H as (_ & _ & Hout & Hobs & _).
      apply window_row_old_enough; assumption. }
  eapply sufficient_data_weaken; [exact H6|exact Hnow|exact Hr].
Qed.

Lemma Qcinv_pos (b : Qc) : (Q2Qc 0 < b)%Qc -> (Q2Qc 0 < / b)%Qc.
Proof.
  unfold Qclt. intros H.
  change (this (/ b)%Qc) with (Qred (/ this b)). rewrite Qred_correct.
  apply Qinv_lt_0_compat. exact H.
Qed.

Lemma pct_mono (b p p' : Qc) :
  (Q2Qc 0 < b)%Qc -> (p <= p')%Qc ->
  ((p - b) / b * Qc_of_Z 100 <= (p' - b) / b * Qc_of_Z 100)%Qc.
Proof.
  intros Hb Hp. apply Qcmult_le_compat_r; [|discriminate].
  unfold Qcdiv. apply Qcmult_le_compat_r; [|apply Qclt_le_weak, Qcinv_pos, Hb].
  unfold Qcminus. apply Qcplus_le_compat; [exact Hp|apply Qcle_refl].
Qed.

Lemma pct_at_baseline (b : Qc) :
  b <> Q2Qc 0 -> ((b - b) / b * Qc_of_Z 100)%Qc = Qc_of_Z 0.
Proof.
  intros Hb. replace (Qc_of_Z 0) with (Q2Qc 0) by (apply Qc_is_canon; reflexivity).
  field. exact Hb.
Qed.

Lemma pct_at_zero (b : Qc) :
  b <> Q2Qc 0 -> ((Q2Qc 0 - b) / b * Qc_of_Z 100)%Qc = Qc_of_Z (-100).
Proof.
  intros Hb. replace (Qc_of_Z 100) with (Q2Qc 100) by (apply Qc_is_canon; reflexivity).
  replace (Qc_of_Z (-100)) with (- Q2Qc 100)%Qc by (apply Qc_is_canon; reflexivity).
  field. exact Hb.
Qed.


(** X6.  When [calculate_price_change] returns [r] and the baseline is
    positive: [r] is at least -100; it is at most 0 when the current price
    is at most the baseline and at least 0 when the current price is at
    least the baseline; and a higher current price never gives a lower
    result. *)
Theorem price_change_sign (db : database) (now sku_id : Z) (current_price r : Qc) :
  calculate_price_change db now sku_id current_price = Ok r ->
  (Q2Qc 0 < baseline db now sku_id)%Qc ->
  (Qc_of_Z (-100) <= r)%Qc
  /\ ((current_price <= baseline db now sku_id)%Qc -> (r <= Qc_of_Z 0)%Qc)
  /\ ((baseline db now sku_id <= current_price)%Qc -> (Qc_of_Z 0 <= r)%Qc)
  /\ (forall current_price' r',
        calculate_price_change db now sku_id current_price' = Ok r' ->
        (current_price <= current_price')%Qc -> (r <= r')%Qc).
Proof.
  intros H Hb. apply price_change_ok_inv in H. destruct H as (Hp & _ & _ & Hb0 & ->).
  split; [|split; [|split]].
  - rewrite <- (py_round2_Z (-100)), <- (pct_at_zero _ Hb0).
    apply py_round2_mono, pct_mono; [exact Hb|apply Qclt_le_weak, Hp].
  - intros Hle. rewrite <- (py_round2_Z 0), <- (pct_at_baseline _ Hb0).
    apply py_round2_mono, pct_mono; assumption.
  - intros Hle. rewrite <- (py_round2_Z 0), <- (pct_at_baseline _ Hb0).
    apply py_round2_mono, pct_mono; assumption.
  - intros p' r' H' Hle. apply price_change_ok_inv in H'.
    destruct H' as (_ & _ & _ & _ & ->). apply py_round2_mono, pct_mono; assumption.
Qed.


(** X8.  The risk index is monotone: if [calculate_risk_index] returns
    [r], then with a current price at least as high and at least as many
    mentions it returns some [r' >= r]; hence, whenever [check_threshold]
    flags [r'], it flags [r] as well. *)
Theorem risk_index_monotone (db : database) (now sku_id : Z) (current_price : Qc)
        (new_release_mentions : Z) (r : Qc) :
  calculate_risk_index db now sku_id current_price new_release_mentions = Ok r ->
  forall current_price' new_release_mentions',
    (current_price <= current_price')%Qc ->
    (new_release_mentions <= new_release_mentions')%Z ->
    exists r',
      calculate_risk_index db now sku_id current_price' new_release_mentions' = Ok r'
      /\ (r <= r')%Qc
      /\ forall threshold,
           check_threshold threshold r' = true -> check_threshold threshold r = true.
Proof.
  intros H p' m' Hp Hm. apply risk_index_ok_inv in H.
  destruct H as (Hpos & Hm0 & Hout & Hobs & ->).
  assert (Hpos' : (Q2Qc 0 < p')%Qc) by (eapply Qclt_le_trans; eassumption).
  assert (Hm0' : (0 <= m')%Z) by lia.
  assert (Hle : (py_round2 (current_price - baseline db now sku_id
                            + Qc_of_Z new_release_mentions * Q2Qc (3 # 10))
                 <= py_round2 (p' - baseline db now sku_id
                               + Qc_of_Z m' * Q2Qc (3 # 10)))%Qc).
  { apply py_round2_mono, Qcplus_le_compat.
    - unfold Qcminus. apply Qcplus_le_compat; [exact Hp|apply Qcle_refl].
    - apply Qcmult_le_compat_r; [|discriminate].
      unfold Qcle, Qc_of_Z. simpl. rewrite !Qred_correct. rewrite <- Zle_Qle. exact Hm. }
  eexists. split; [|split; [exact Hle|]].
  - unfold calculate_risk_index.
    rewrite (proj2 (Qcleb_gt _ _) Hpos'), (proj2 (Z.ltb_ge _ _) Hm0').
    destruct (historical_prices_window db now sku_id Hout) as (prices & -> & P).
    simpl. destruct prices as [|p prices].
    + exfalso. apply Hobs. apply (perm_nil_iff _ _ _ P). reflexivity.
    + unfold baseline. rewrite <- (mean_perm _ _ P). reflexivity.
  - intros threshold Hhigh. unfold check_threshold in *. apply Qcltb_lt in Hhigh.
    apply Qcltb_lt. eapply Qcle_lt_trans; eassumption.
Qed.


(** X7.  [calculate_risk_index] validates in this order: a current price
    [<= 0] raises [ValueError] naming the price, whatever the mentions and
    the history; with a positive price a negative number of mentions raises
    [ValueError] naming the number; with both valid, storage answering and
    no observation in the window of 6 to 8 days ago, it raises
    [InsufficientDataError]. *)
Theorem risk_index_rejections (db : database) (now sku_id : Z) (current_price : Qc)
        (new_release_mentions : Z) :
  ((current_price <= Q2Qc 0)%Qc ->
   calculate_risk_index db now sku_id current_price new_release_mentions
   = Raise (ValueError [Txt "Invalid price: "; Num current_price;
                        Txt ". Price must be positive."]))
  /\ ((Q2Qc 0 < current_price)%Qc -> (new_release_mentions < 0)%Z ->
      calculate_risk_index db now sku_id current_price new_release_mentions
      = Raise (ValueError [Txt "Invalid new_release_mentions: "; Int new_release_mentions;
                           Txt ". Must be non-negative."]))
  /\ ((Q2Qc 0 < current_price)%Qc -> (0 <= new_release_mentions)%Z ->
      outage db = None -> observations_between db now sku_id 6 8 = [] ->
      calculate_risk_index db now sku_id current_price new_release_mentions
      = Raise (InsufficientDataError
                 [Txt "Insufficient historical data for SKU "; Int sku_id;
                  Txt ". Need at least 7 days of price history."])).
Proof.
  unfold calculate_risk_index. split; [|split].
  - intros Hp. apply Qcleb_le in Hp. rewrite Hp. reflexivity.
  - intros Hp Hm. apply Qcleb_gt in Hp. apply Z.ltb_lt in Hm. rewrite Hp, Hm. reflexivity.
  - intros Hp Hm Hout Hobs. apply Qcleb_gt in Hp. apply Z.ltb_ge in Hm. rewrite Hp, Hm.
    destruct (historical_prices_window db now sku_id Hout) as (prices & -> & P).
    apply (perm_nil_iff _ _ _ P) in Hobs. subst prices. reflexivity.
Qed.
End Analysis.

(** ** Sentiment scores *)

Section SentimentScores.
Import Config SentimentAnalyzer.
Context (settings : Settings).
Implicit Types (fm : gmap ustring (gmap Z nat)) (keys : gset (ustring * Z * ustring)).

Lemma sentiment_score_insert (m : gmap ustring Z) (kw : ustring) (n : Z) :
  m !! kw = None ->
  calculate_sentiment_score settings (<[kw := n]> m)
  = (calculate_sentiment_score settings m + Qc_of_Z n * weight settings kw)%Qc.
Proof.
  intros H. unfold calculate_sentiment_score.
  rewrite map_fold_insert_L; [reflexivity| |exact H].
  intros. ring.
Qed.

Lemma sentiment_score_delete (m : gmap ustring Z) (kw : ustring) (n : Z) :
  m !! kw = Some n ->
  calculate_sentiment_score settings m
  = (calculate_sentiment_score settings (delete kw m) + Qc_of_Z n * weight settings kw)%Qc.
Proof.
  intros H. rewrite <- (insert_delete_id m kw n H) at 1.
  apply sentiment_score_insert, lookup_delete_eq.
Qed.

Lemma all_dates_spec fm (d : Z) :
  d ∈ all_dates fm <-> exists kw m, fm !! kw = Some m /\ is_Some (m !! d).
Proof.
  unfold all_dates.
  apply (map_fold_weak_ind
           (fun (acc : gset Z) (fm : gmap ustring (gmap Z nat)) =>
              d ∈ acc <-> exists kw m, fm !! kw = Some m /\ is_Some (m !! d))).
  - split; [intros H; apply not_elem_of_empty in H; destruct H|].
    intros (kw & m & H & _). rewrite lookup_empty in H. discriminate.
  - intros kw m fm' acc Hnone IH. rewrite elem_of_union, elem_of_dom, IH. split.
    + intros [(kw' & m' & H & Hd)|Hd].
      * exists kw', m'. split; [|exact Hd].
        rewrite lookup_insert_ne; [exact H|]. intros <-. congruence.
      * exists kw, m. rewrite lookup_insert_eq. auto.
    + intros (kw' & m' & H & Hd). destruct (decide (kw' = kw)) as [->|Hne].
      * rewrite lookup_insert_eq in H. injection H as <-. right. exact Hd.
      * rewrite lookup_insert_ne in H by congruence. left. eauto.
Qed.

Lemma distinct_posts_pos keys (kw : ustring) (d : Z) :
  distinct_posts keys kw d <> O
  <-> exists k, k ∈ keys /\ fst (fst k) = kw /\ snd (fst k) = d.
Proof.
  unfold distinct_posts. rewrite size_non_empty_iff. split.
  - intros H. apply set_choose in H. destruct H as (k & Hk).
    apply elem_of_filter in Hk. exists k. tauto.
  - intros (k & Hk & H1 & H2) E.
    assert (Hin : k ∈ filter (fun k : ustring * Z * ustring =>
                                fst (fst k) = kw /\ snd (fst k) = d) keys)
      by (apply elem_of_filter; auto).
    rewrite E in Hin. apply not_elem_of_empty in Hin. exact Hin.
Qed.

Lemma frequency_pos fm (kw : ustring) (d : Z) :
  compact fm ->
  frequency fm kw d <> O <-> exists m, fm !! kw = Some m /\ is_Some (m !! d).
Proof.
  intros C. unfold frequency. split.
  - destruct (fm !! kw) as [m|] eqn:E; simpl; [|congruence].
    destruct (m !! d) as [n|] eqn:E'; simpl; [|congruence].
    intros _. exists m. split; [reflexivity|]. eauto.
  - intros (m & Hm & [n Hn]). rewrite Hm. simpl. rewrite Hn. simpl.
    exact (proj2 (C kw m Hm) d n Hn).
Qed.

Lemma dates_of_counted keys fm (d : Z) :
  counted keys fm ->
  d ∈ all_dates fm <-> exists k, k ∈ keys /\ snd (fst k) = d.
Proof.
  intros [C F]. rewrite all_dates_spec. split.
  - intros (kw & m & Hm & Hd).
    assert (H : frequency fm kw d <> O) by (apply frequency_pos; eauto).
    rewrite F in H. apply distinct_posts_pos in H.
    destruct H as (k & Hk & _ & H2). eauto.
  - intros (k & Hk & Hd).
    assert (H : distinct_posts keys (fst (fst k)) d <> O)
      by (apply distinct_posts_pos; eauto).
    rewrite <- F in H. apply frequency_pos in H; [|exact C].
    destruct H as (m & Hm & Hd'). eauto.
Qed.

Lemma counts_for_date_lookup keys fm (d : Z) (kw : ustring) :
  counted keys fm ->
  keyword_counts_for_date fm d !! kw
  = match distinct_posts keys kw d with
    | O => None
    | S n => Some (Z.of_nat (S n))
    end.
Proof.
  intros [C F]. unfold keyword_counts_for_date. rewrite lookup_omap.
  rewrite <- F. unfold frequency.
  destruct (fm !! kw) as [m|] eqn:Hm; simpl; [|reflexivity].
  destruct (m !! d) as [n|] eqn:Hn; simpl; [|reflexivity].
  destruct n as [|n]; [|reflexivity].
  exfalso. exact (proj2 (C kw m Hm) d O Hn eq_refl).
Qed.

Lemma Qc_of_Z_succ (n : nat) :
  Qc_of_Z (Z.of_nat (S n)) = (Qc_of_Z (Z.of_nat n) + Q2Qc 1)%Qc.
Proof.
  apply Qc_is_canon. unfold Qc_of_Z. simpl.
  rewrite !Qred_correct. rewrite Nat2Z.inj_succ, <- Z.add_1_r, inject_Z_plus.
  reflexivity.
Qed.

Lemma py_sum_cons (a : Qc) (l : list Qc) : py_sum (a :: l) = (a + py_sum l)%Qc.
Proof. unfold py_sum at 1. simpl. rewrite py_sum_from, Qcplus_0_l. reflexivity. Qed.

Lemma weighted_mentions_add keys (k : ustring * Z * ustring) (d : Z) :
  k ∉ keys ->
  weighted_mentions settings ({[k]} ∪ keys) d
  = if decide (snd (fst k) = d)
    then (weight settings (fst (fst k)) + weighted_mentions settings keys d)%Qc
    else weighted_mentions settings keys d.
Proof.
  intros Hk. unfold weighted_mentions. rewrite filter_union_L; [|apply _].
  case_decide as Hd.
  - rewrite (filter_singleton_True_L _ k Hd).
    rewrite <- py_sum_cons. apply py_sum_perm.
    etransitivity; [|reflexivity].
    etransitivity;
      [apply Permutation_map, elements_union_singleton; rewrite elem_of_filter; tauto|].
    reflexivity.
  - rewrite (filter_singleton_False_L _ k Hd). rewrite union_empty_l_L. reflexivity.
Qed.

Lemma score_of_counts keys (d : Z) :
  forall m : gmap ustring Z,
    (forall kw, m !! kw = match distinct_posts keys kw d with
                          | O => None
                          | S n => Some (Z.of_nat (S n))
                          end) ->
    calculate_sentiment_score settings m = weighted_mentions settings keys d.
Proof.
  induction keys as [|k X Hk IH] using set_ind_L; intros m Hm.
  - assert (m = ∅) as ->.
    { apply map_empty. intros kw. rewrite Hm. unfold distinct_posts.
      rewrite filter_empty_L by apply _. rewrite size_empty. reflexivity. }
    unfold weighted_mentions. rewrite filter_empty_L by apply _.
    rewrite elements_empty. reflexivity.
  - rewrite (weighted_mentions_add _ _ _ Hk).
    destruct (decide (snd (fst k) = d)) as [Hd|Hd].
    + set (kw0 := fst (fst k)) in *.
      pose proof (Hm kw0) as H0. rewrite (distinct_posts_add _ _ _ _ Hk) in H0.
      rewrite decide_True in H0 by auto.
      rewrite (sentiment_score_delete m kw0 _ H0).
      set (n := distinct_posts X kw0 d) in *.
      assert (Hother : forall kw, kw <> kw0 ->
                m !! kw = match distinct_posts X kw d with
                          | O => None
                          | S n => Some (Z.of_nat (S n))
                          end).
      { intros kw Hne. rewrite Hm, (distinct_posts_add _ _ _ _ Hk).
        rewrite decide_False; [reflexivity|]. intros [E _]. apply Hne. symmetry. exact E. }
      destruct n as [|n'] eqn:En.
      * rewrite <- (IH (delete kw0 m)).
        -- replace (Qc_of_Z (Z.of_nat 1)) with (Q2Qc 1) by (apply Qc_is_canon; reflexivity).
           ring.
        -- intros kw. destruct (decide (kw = kw0)) as [->|Hne].
           ++ rewrite lookup_delete_eq. fold n. rewrite En. reflexivity.
           ++ rewrite lookup_delete_ne by congruence. apply Hother, Hne.
      * rewrite <- (IH (<[kw0 := Z.of_nat (S n')]> (delete kw0 m))).
        -- rewrite sentiment_score_insert by apply lookup_delete_eq.
           rewrite (Qc_of_Z_succ (S n')). ring.
        -- intros kw. destruct (decide (kw = kw0)) as [->|Hne].
           ++ rewrite lookup_insert_eq. fold n. rewrite En. reflexivity.
           ++ rewrite lookup_insert_ne, lookup_delete_ne by congruence.
              apply Hother, Hne.
    + apply IH. intros kw. rewrite Hm, (distinct_posts_add _ _ _ _ Hk).
      rewrite decide_False; [reflexivity|]. intros [_ E]. apply Hd, E.
Qed.

Lemma daily_scores_lookup (signals : list MarketSignal) (d : Z) :
  calculate_daily_sentiment_scores settings signals !! d
  = if decide (exists k, k ∈ mention_keys signals /\ snd (fst k) = d)
    then Some (weighted_mentions settings (mention_keys signals) d)
    else None.
Proof.
  pose proof (analysis_counted signals) as Hc.
  unfold calculate_daily_sentiment_scores.
  set (fm := analyze_keyword_frequency signals) in *.
  set (f := fun target_date : Z =>
              (target_date,
               calculate_sentiment_score settings (keyword_counts_for_date fm target_date))).
  assert (Hinj : forall y y' : Z, y ∈ all_dates fm -> y' ∈ all_dates fm ->
                   fst (f y) = fst (f y') -> y = y') by (intros; assumption).
  case_decide as Hd.
  - apply (lookup_set_to_map f _ _ _ Hinj). exists d. split.
    + apply (dates_of_counted _ _ _ Hc), Hd.
    + unfold f. f_equal. apply score_of_counts.
      intros kw. apply counts_for_date_lookup, Hc.
  - destruct (set_to_map f (all_dates fm) !! d) as [x|] eqn:E; [|reflexivity].
    apply (lookup_set_to_map f _ _ _ Hinj) in E. destruct E as (y & Hy & E).
    injection E as -> _. exfalso. apply Hd, (dates_of_counted _ _ _ Hc), Hy.
Qed.
End SentimentScores.

Section SentimentTheorems.
Import Config SentimentAnalyzer.
Context (settings : Settings).

Lemma weights_get_default (d : list (ustring * Qc)) (k : ustring) (default : Qc) :
  ~ In k (map fst d) -> weights_get d k default = default.
Proof.
  induction d as [|[k' v] d IH]; simpl; intros H; [reflexivity|].
  destruct (ustring_eqb k k') eqn:E.
  - apply ustring_eqb_eq in E. exfalso. apply H. left. symmetry. exact E.
  - apply IH. intros Hin. apply H. right. exact Hin.
Qed.


(** X12.  [calculate_sentiment_score] is the sum of count times
    weight over the keywords: 0 for no keyword, and a further keyword adds
    its count times its weight.  The weight is [sentiment_weight_new_release]
    for "New Release", "Leak" and "5070 release date",
    [sentiment_weight_price_drop] for "Price Drop", and
    [sentiment_weight_default] for every other keyword. *)
Theorem sentiment_score_weighted_sum :
  calculate_sentiment_score settings ∅ = Q2Qc 0
  /\ (forall (keyword_counts : gmap ustring Z) (kw : ustring) (n : Z),
        keyword_counts !! kw = None ->
        calculate_sentiment_score settings (<[kw := n]> keyword_counts)
        = (calculate_sentiment_score settings keyword_counts
           + Qc_of_Z n * weight settings kw)%Qc)
  /\ weight settings (u "New Release") = sentiment_weight_new_release settings
  /\ weight settings (u "Leak") = sentiment_weight_new_release settings
  /\ weight settings (u "5070 release date") = sentiment_weight_new_release settings
  /\ weight settings (u "Price Drop") = sentiment_weight_price_drop settings
  /\ (forall kw,
        ~ In kw [u "New Release"; u "Leak"; u "5070 release date"; u "Price Drop"] ->
        weight settings kw = sentiment_weight_default settings).
Proof.
  split; [apply map_fold_empty|].
  split; [apply sentiment_score_insert|].
  repeat (split; [reflexivity|]).
  intros kw H. unfold weight, keyword_weights.
  cbn [weights_get].
  repeat match goal with
         | |- context [ustring_eqb kw ?k] =>
             let E := fresh "E" in
             destruct (ustring_eqb kw k) eqn:E;
             [apply ustring_eqb_eq in E; try reflexivity; exfalso; apply H; rewrite E;
              simpl; tauto|]
         end.
  reflexivity.
Qed.

Lemma mention_key_date (signals : list MarketSignal) (d : Z) :
  (exists k, k ∈ mention_keys signals /\ snd (fst k) = d)
  <-> exists s, In s signals /\ date_of (timestamp s) = d.
Proof.
  split.
  - intros (k & Hk & Hd). apply mention_keys_elem in Hk. destruct Hk as (s & Hs & <-).
    exists s. auto.
  - intros (s & Hs & Hd). exists (mention_key s). split; [|exact Hd].
    apply mention_keys_elem. eauto.
Qed.



Lemma enrich_map (signals : list MarketSignal) :
  enrich_signals_with_sentiment settings signals
  = map (fun s => with_sentiment s
                    (weighted_mentions settings (mention_keys signals)
                                       (date_of (timestamp s))))
        signals.
Proof.
  unfold enrich_signals_with_sentiment. apply map_ext_in. intros s Hs.
  rewrite daily_scores_lookup. rewrite decide_True; [reflexivity|].
  apply mention_key_date. eauto.
Qed.

Lemma mention_keys_map_with_sentiment (f : MarketSignal -> Qc) (signals : list MarketSignal) :
  mention_keys (map (fun s => with_sentiment s (f s)) signals) = mention_keys signals.
Proof. unfold mention_keys. rewrite map_map. reflexivity. Qed.


(** X14.  [enrich_signals_with_sentiment] returns the signals in their
    order, each with the score of its date, which is the sum of the weights
    of the distinct mentions of that date; enriching again changes nothing;
    and [analyze_sentiment] is the same function. *)
Theorem enriched_signals_scored (signals : list MarketSignal) :
  enrich_signals_with_sentiment settings signals
  = map (fun s => with_sentiment s
                    (weighted_mentions settings (mention_keys signals)
                                       (date_of (timestamp s))))
        signals
  /\ enrich_signals_with_sentiment settings (enrich_signals_with_sentiment settings signals)
     = enrich_signals_with_sentiment settings signals
  /\ analyze_sentiment settings signals = enrich_signals_with_sentiment settings signals.
Proof.
  split; [apply enrich_map|]. split; [|reflexivity].
  rewrite (enrich_map (enrich_signals_with_sentiment settings signals)).
  rewrite !enrich_map, mention_keys_map_with_sentiment, map_map. reflexivity.
Qed.
End SentimentTheorems.

(** ** The risk index and the sentiment data *)

Section RiskWithSentiment.
Import Storage RiskCalculator.
Context (U : ucd).

Lemma extract_mentions_insert (sentiment_data : gmap ustring Z) (kw : ustring) (n : Z) :
  sentiment_data !! kw = None ->
  extract_new_release_mentions U (<[kw := n]> sentiment_data)
  = (extract_new_release_mentions U sentiment_data
     + if mentions_new_release U kw then n else 0)%Z.
Proof.
  intros H. unfold extract_new_release_mentions.
  rewrite map_fold_insert_L; [|intros|exact H].
  - destruct (mentions_new_release U kw); lia.
  - destruct (mentions_new_release U j1), (mentions_new_release U j2); lia.
Qed.


(** X9.  [calculate_risk_with_sentiment] adds up the counts of
    the keywords that contain, in lower case, "new release", "leak" or
    "5070", and of no others: the sum is 0 for empty data, a further keyword
    adds its count exactly when it contains one of the three terms, and a
    keyword that contains none leaves the result unchanged.  The risk index
    returned is that of [calculate_risk_index] for this sum, and the flag is
    true exactly when the index is below the threshold.  Of the six keywords
    the analyzer weighs, "New Release", "Leak" and "5070 release date" count
    and "Price Drop", "Issues" and "Used Market" do not. *)
Theorem risk_with_sentiment_counts_new_release
        (threshold : Qc) (db : database) (now sku_id : Z) (current_price : Qc)
        (sentiment_data : gmap ustring Z) :
  extract_new_release_mentions U ∅ = 0%Z
  /\ (forall kw n,
        sentiment_data !! kw = None ->
        extract_new_release_mentions U (<[kw := n]> sentiment_data)
        = (extract_new_release_mentions U sentiment_data
           + if mentions_new_release U kw then n else 0)%Z)
  /\ (forall kw n,
        sentiment_data !! kw = None -> mentions_new_release U kw = false ->
        calculate_risk_with_sentiment U threshold db now sku_id current_price
                                      (<[kw := n]> sentiment_data)
        = calculate_risk_with_sentiment U threshold db now sku_id current_price
                                        sentiment_data)
  /\ (forall risk_index is_high_risk,
        calculate_risk_with_sentiment U threshold db now sku_id current_price sentiment_data
        = Ok (risk_index, is_high_risk) ->
        calculate_risk_index db now sku_id current_price
                             (extract_new_release_mentions U sentiment_data)
        = Ok risk_index
        /\ (is_high_risk = true <-> (risk_index < threshold)%Qc))
  /\ mentions_new_release U (u "New Release") = true
  /\ mentions_new_release U (u "Leak") = true
  /\ mentions_new_release U (u "5070 release date") = true
  /\ mentions_new_release U (u "Price Drop") = false
  /\ mentions_new_release U (u "Issues") = false
  /\ mentions_new_release U (u "Used Market") = false.
Proof.
  split; [apply map_fold_empty|].
  split; [intros kw n; apply extract_mentions_insert|].
  split.
  { intros kw n Hnone Hno. unfold calculate_risk_with_sentiment.
    rewrite (extract_mentions_insert _ _ _ Hnone), Hno, Z.add_0_r. reflexivity. }
  split.
  { intros r h. unfold calculate_risk_with_sentiment.
    destruct (calculate_risk_index db now sku_id current_price
                (extract_new_release_mentions U sentiment_data)) as [r'|e];
      simpl; [|discriminate].
    intros E. injection E as -> <-. split; [reflexivity|]. apply Qcltb_lt. }
  repeat split; vm_compute; reflexivity.
Qed.
End RiskWithSentiment.

Section ContributingFactors.
Import Storage PriceAnalyzer RiskCalculator.

Lemma contributing_factors_value (threshold : Qc) (db : database) (now sku_id : Z)
      (current_price : Qc) (new_release_mentions : Z) :
  outage db = None ->
  observations_between db now sku_id 6 8 <> [] ->
  baseline db now sku_id <> Q2Qc 0 ->
  get_contributing_factors threshold db now sku_id current_price new_release_mentions
  = factors
      {| f_current_price := py_round2 current_price;
         f_last_week_avg_price := py_round2 (baseline db now sku_id);
         f_price_delta := py_round2 (current_price - baseline db now sku_id);
         f_price_change_pct :=
           py_round2 ((current_price - baseline db now sku_id) / baseline db now sku_id
                      * Qc_of_Z 100);
         f_new_release_mentions := new_release_mentions;
         f_sentiment_impact := py_round2 (Qc_of_Z new_release_mentions * Q2Qc (3 # 10));
         f_threshold := threshold |}.
Proof.
  intros Hout Hobs Hb. unfold get_contributing_factors.
  destruct (historical_prices_window db now sku_id Hout) as (prices & -> & P).
  destruct prices as [|p prices].
  - exfalso. apply Hobs. apply (perm_nil_iff _ _ _ P). reflexivity.
  - unfold baseline in *. rewrite <- (mean_perm _ _ P) in *.
    apply Qceqb_neq in Hb. rewrite Hb. reflexivity.
Qed.


(** X10.  [get_contributing_factors] never raises: a failure of
    storage is reported in the [error] field with its message, an empty
    window as "Insufficient historical data", a zero average as an error
    too, each with the two arguments; and whenever
    [calculate_price_change] returns [pct], the breakdown is returned, with
    [price_change_pct = pct], the rounded baseline, the mentions and the
    threshold. *)
Theorem contributing_factors_cases (threshold : Qc) (db : database) (now sku_id : Z)
        (current_price : Qc) (new_release_mentions : Z) :
  (forall e, outage db = Some e ->
     get_contributing_factors threshold db now sku_id current_price new_release_mentions
     = factors_error (str_exn e) current_price new_release_mentions)
  /\ (outage db = None -> observations_between db now sku_id 6 8 = [] ->
      get_contributing_factors threshold db now sku_id current_price new_release_mentions
      = factors_error [Txt "Insufficient historical data"]
                      current_price new_release_mentions)
  /\ (outage db = None -> observations_between db now sku_id 6 8 <> [] ->
      baseline db now sku_id = Q2Qc 0 ->
      exists message,
        get_contributing_factors threshold db now sku_id current_price new_release_mentions
        = factors_error message current_price new_release_mentions)
  /\ (forall pct,
        calculate_price_change db now sku_id current_price = Ok pct ->
        exists f,
          get_contributing_factors threshold db now sku_id current_price
                                   new_release_mentions = factors f
          /\ f_price_change_pct f = pct
          /\ f_last_week_avg_price f = py_round2 (baseline db now sku_id)
          /\ f_new_release_mentions f = new_release_mentions
          /\ f_threshold f = threshold).
Proof.
  split; [|split; [|split]].
  - intros e Hout. unfold get_contributing_factors.
    rewrite (historical_prices_outage _ _ _ _ Hout). reflexivity.
  - intros Hout Hobs. unfold get_contributing_factors.
    destruct (historical_prices_window db now sku_id Hout) as (prices & -> & P).
    apply (perm_nil_iff _ _ _ P) in Hobs. subst prices. reflexivity.
  - intros Hout Hobs Hb. unfold get_contributing_factors.
    destruct (historical_prices_window db now sku_id Hout) as (prices & -> & P).
    destruct prices as [|p prices].
    + exfalso. apply Hobs. apply (perm_nil_iff _ _ _ P). reflexivity.
    + unfold baseline in Hb. rewrite <- (mean_perm _ _ P) in Hb.
      apply Qceqb_eq in Hb. rewrite Hb. eexists. reflexivity.
  - intros pct H. apply price_change_ok_inv in H.
    destruct H as (_ & Hout & Hobs & Hb & ->).
    eexists. split; [apply contributing_factors_value; assumption|].
    repeat split.
Qed.

Lemma Qabs_triangle3 (a b c : Q) :
  (Qabs a <= 1 # 200 -> Qabs b <= 1 # 200 -> Qabs c <= 1 # 200 ->
   Qabs (a - b - c) <= 3 # 200)%Q.
Proof.
  intros Ha Hb Hc. apply Qabs_Qle_condition in Ha, Hb, Hc. apply Qabs_Qle_condition.
  split; lra.
Qed.


(** X11.  When [calculate_risk_index] returns the risk index and the
    baseline is not zero, [get_contributing_factors] returns the breakdown,
    and its [price_delta] and [sentiment_impact] add up to the risk index up
    to the rounding of the three numbers: the difference is at most
    0.015. *)
Theorem breakdown_adds_up (threshold : Qc) (db : database) (now sku_id : Z)
        (current_price : Qc) (new_release_mentions : Z) (risk_index : Qc) :
  calculate_risk_index db now sku_id current_price new_release_mentions = Ok risk_index ->
  baseline db now sku_id <> Q2Qc 0 ->
  exists f,
    get_contributing_factors threshold db now sku_id current_price new_release_mentions
    = factors f
    /\ (Qabs (risk_index - (f_price_delta f + f_sentiment_impact f)) <= 3 # 200)%Q.
Proof.
  intros H Hb. apply risk_index_ok_inv in H. destruct H as (_ & _ & Hout & Hobs & ->).
  eexists. split; [apply contributing_factors_value; assumption|].
  cbn [f_price_delta f_sentiment_impact].
  set (a := (current_price - baseline db now sku_id)%Qc).
  set (c := (Qc_of_Z new_release_mentions * Q2Qc (3 # 10))%Qc).
  destruct (py_round2_near (a + c)%Qc) as (_ & _ & H1).
  destruct (py_round2_near a) as (_ & _ & H2).
  destruct (py_round2_near c) as (_ & _ & H3).
  assert (E : (this (a + c)%Qc == a + c)%Q) by apply Qred_correct.
  rewrite E in H1.
  pose proof (Qabs_triangle3 _ _ _ H1 H2 H3) as T.
  set (rac := this (py_round2 (a + c)%Qc)) in *.
  set (ra := this (py_round2 a)) in *. set (rc := this (py_round2 c)) in *.
  set (qa := this a) in *. set (qc := this c) in *.
  clearbody rac ra rc qa qc.
  assert (Heq : (rac - (ra + rc) == rac - (qa + qc) - (ra - qa) - (rc - qc))%Q) by ring.
  rewrite Heq. exact T.
Qed.
End ContributingFactors.

(** ** Matching products to the catalog *)

Section Matching.
Import Storage SKUMatcher.
Import ProductNormalizer.

Lemma exact_match_spec (product : NormalizedProduct) (row : sku) :
  exact_match product row = true <-> same_product product row.
Proof.
  unfold exact_match, same_product.
  rewrite !andb_true_iff, !ustring_eqb_eq, Bool.eqb_true_iff. tauto.
Qed.

Lemma find_matching_sku_answer (db : database) (product : NormalizedProduct) :
  outage db = None ->
  find_matching_sku db product
  = Ok (match List.filter (exact_match product) (skus db) with
        | row :: _ => Some (sku_id row)
        | [] => None
        end).
Proof.
  intros Hout. unfold find_matching_sku, execute. rewrite Hout.
  destruct (List.filter (exact_match product) (skus db)); reflexivity.
Qed.


(** X15.  With storage answering, [find_matching_sku] returns, never
    raises; an id it returns is the id of a catalog entry that agrees with
    the product in brand, chipset, model name, VRAM and OC flag; and it
    returns [None] exactly when no catalog entry agrees in all five. *)
Theorem matching_sku_exact (db : database) (product : NormalizedProduct) :
  outage db = None ->
  (exists found, find_matching_sku db product = Ok found)
  /\ (forall id,
        find_matching_sku db product = Ok (Some id) ->
        exists row, In row (skus db) /\ sku_id row = id /\ same_product product row)
  /\ (find_matching_sku db product = Ok None
      <-> forall row, In row (skus db) -> ~ same_product product row).
Proof.
  intros Hout. rewrite (find_matching_sku_answer db product Hout).
  split; [eauto|]. split.
  - intros id E. destruct (List.filter (exact_match product) (skus db)) as [|row l] eqn:F;
      [discriminate|].
    injection E as <-. exists row.
    assert (Hin : In row (List.filter (exact_match product) (skus db)))
      by (rewrite F; left; reflexivity).
    apply filter_In in Hin. destruct Hin as [Hin Hm]. apply exact_match_spec in Hm. auto.
  - split.
    + intros E row Hrow Hsame.
      destruct (List.filter (exact_match product) (skus db)) as [|row' l] eqn:F;
        [|discriminate].
      assert (Hin : In row (List.filter (exact_match product) (skus db)))
        by (apply filter_In; split; [exact Hrow|apply exact_match_spec, Hsame]).
      rewrite F in Hin. destruct Hin.
    + intros H. destruct (List.filter (exact_match product) (skus db)) as [|row l] eqn:F;
        [reflexivity|].
      assert (Hin : In row (List.filter (exact_match product) (skus db)))
        by (rewrite F; left; reflexivity).
      apply filter_In in Hin. destruct Hin as [Hin Hm]. apply exact_match_spec in Hm.
      exfalso. exact (H row Hin Hm).
Qed.

Lemma find_similar_raises (db : database) (product : NormalizedProduct) (limit : nat)
      (e : exn) :
  find_similar_skus db product limit = Raise e -> exists m, e = SKUMatchError m.
Proof.
  unfold find_similar_skus. destruct (execute db (similar_rows db product limit));
    [discriminate|]. intros E. injection E as <-. eauto.
Qed.

Lemma suggest_new_sku_answer (db : database) (product : NormalizedProduct) :
  suggest_new_sku db product
  = Ok (match outage db, similar_rows db product 3 with
        | None, x :: l =>
            {| product_data := product; suggested_fields := product;
               similar_existing_skus := Some (x :: l);
               note := Some [Txt "Found "; Int (Z.of_nat (length (x :: l)));
                             Txt " similar SKUs. ";
                             Txt "Review these before creating a new SKU to avoid duplicates."] |}
        | _, _ =>
            {| product_data := product; suggested_fields := product;
               similar_existing_skus := None; note := None |}
        end).
Proof.
  unfold suggest_new_sku, find_similar_skus, execute.
  destruct (outage db) as [e|]; [reflexivity|].
  destruct (similar_rows db product 3); reflexivity.
Qed.


(** X17.  [suggest_new_sku] always returns a suggestion, with the
    product as product data and as suggested fields.  During a storage
    outage the suggestion carries no similar entries and no note: the
    failure of the lookup is swallowed.  With storage answering, the similar
    entries are absent exactly when no catalog entry shares the brand or the
    chipset, the note is absent exactly when they are, and otherwise they
    are the one to three entries of [find_similar_skus] with limit 3 and
    the note states their number. *)
Theorem suggestion_never_fails (db : database) (product : NormalizedProduct) :
  exists s,
    suggest_new_sku db product = Ok s
    /\ product_data s = product
    /\ suggested_fields s = product
    /\ (outage db <> None -> similar_existing_skus s = None /\ note s = None)
    /\ (outage db = None ->
        (similar_existing_skus s = None
         <-> forall row, In row (skus db) ->
               sku_brand row <> brand product /\ sku_chipset row <> chipset product)
        /\ (note s = None <-> similar_existing_skus s = None)
        /\ forall l,
             similar_existing_skus s = Some l ->
             find_similar_skus db product 3 = Ok l
             /\ (1 <= length l <= 3)%nat
             /\ note s = Some [Txt "Found "; Int (Z.of_nat (length l));
                               Txt " similar SKUs. ";
                               Txt "Review these before creating a new SKU to avoid duplicates."]).
Proof.
  rewrite suggest_new_sku_answer. eexists. split; [reflexivity|].
  destruct (outage db) as [e|] eqn:Hout.
  - repeat split; try discriminate; try reflexivity.
  - assert (Hlen : (length (similar_rows db product 3) <= 3)%nat)
      by (unfold similar_rows; rewrite length_firstn; lia).
    assert (Hnil : similar_rows db product 3 = []
                   <-> forall row, In row (skus db) ->
                         sku_brand row <> brand product /\ sku_chipset row <> chipset product).
    { unfold similar_rows. split.
      - intros E row Hrow.
        destruct (related product row) eqn:R.
        + exfalso.
          assert (Hin : In (scored product row)
                           (order_by ranks_before
                              (map (scored product) (List.filter (related product) (skus db))))).
          { apply (Permutation_in _ (Permutation_sym (order_by_perm ranks_before _))).
            apply in_map, filter_In. auto. }
          destruct (order_by ranks_before
                      (map (scored product) (List.filter (related product) (skus db))));
            [destruct Hin|discriminate].
        + unfold related in R. apply orb_false_iff in R.
          rewrite !ustring_eqb_neq in R. exact R.
      - intros H. rewrite filter_none; [reflexivity|].
        intros row Hrow. unfold related. apply orb_false_iff.
        rewrite !ustring_eqb_neq. apply H, Hrow. }
    destruct (similar_rows db product 3) as [|x l] eqn:E; cbn.
    + split; [reflexivity|]. split; [reflexivity|]. split; [congruence|].
      intros _. split; [|split].
      * rewrite <- Hnil. tauto.
      * tauto.
      * discriminate.
    + split; [reflexivity|]. split; [reflexivity|]. split; [congruence|].
      intros _. split; [|split].
      * rewrite <- Hnil. split; discriminate.
      * split; discriminate.
      * intros l' El. injection El as <-. split; [|split].
        -- unfold find_similar_skus, execute. rewrite Hout, E. reflexivity.
        -- simpl in *. lia.
        -- reflexivity.
Qed.

Lemma match_or_suggest_raises (db : database) (product : NormalizedProduct) (e : exn) :
  match_or_suggest db product = Raise e ->
  exists e0, outage db = Some e0
             /\ e = SKUMatchError (Txt "Failed to find matching SKU: " :: str_exn e0).
Proof.
  unfold match_or_suggest, find_matching_sku, execute.
  destruct (outage db) as [e0|]; simpl.
  - intros E. injection E as <-. eauto.
  - destruct (firstn 1 (List.filter (exact_match product) (skus db))); simpl;
      [|discriminate].
    rewrite suggest_new_sku_answer. discriminate.
Qed.

Lemma batch_match_entries (db : database) (products : list NormalizedProduct) :
  batch_match db products = Ok (map (batch_entry db) products).
Proof.
  induction products as [|product rest IH]; [reflexivity|].
  cbn [batch_match map]. rewrite IH.
  assert (Hentry : match match_or_suggest db product with
                   | Ok r => Ok r
                   | Raise (SKUMatchError m) => Ok (SKUMatcher.error m product)
                   | Raise e => Raise e
                   end = (Ok (batch_entry db product) : result exn match_result)).
  { unfold batch_entry.
    destruct (match_or_suggest db product) as [r|e] eqn:E; [reflexivity|].
    destruct (match_or_suggest_raises _ _ _ E) as (e0 & _ & ->). reflexivity. }
  rewrite Hentry. reflexivity.
Qed.


(** X18.  [batch_match] never raises and returns one entry for each
    product, in order: the result of [match_or_suggest], or an [error] entry
    with the message of its exception.  During a storage outage every entry
    is an [error] entry with the message of the failed lookup; with storage
    answering none is. *)
Theorem batch_match_one_entry_each (db : database) (products : list NormalizedProduct) :
  batch_match db products = Ok (map (batch_entry db) products)
  /\ (forall e,
        outage db = Some e ->
        batch_match db products
        = Ok (map (SKUMatcher.error (Txt "Failed to find matching SKU: " :: str_exn e)) products))
  /\ (outage db = None ->
      forall product, In product products ->
        forall m p, batch_entry db product <> SKUMatcher.error m p).
Proof.
  split; [apply batch_match_entries|]. split.
  - intros e Hout. rewrite batch_match_entries. f_equal. apply map_ext. intros product.
    unfold batch_entry, match_or_suggest, find_matching_sku, execute. rewrite Hout.
    reflexivity.
  - intros Hout product _ m p. unfold batch_entry.
    destruct (match_or_suggest db product) as [r|e] eqn:E.
    + unfold match_or_suggest in E. rewrite (find_matching_sku_answer _ _ Hout) in E.
      simpl in E. destruct (List.filter (exact_match product) (skus db)).
      * rewrite suggest_new_sku_answer in E. simpl in E. injection E as <-. discriminate.
      * injection E as <-. discriminate.
    + destruct (match_or_suggest_raises _ _ _ E) as (e0 & H & _). congruence.
Qed.


(** X16.  With storage answering, [match_or_suggest] returns
    [use_existing] with the id and the product when [find_matching_sku]
    finds an id, and [create_new_sku] with the suggestion of
    [suggest_new_sku] when it finds none; it answers [use_existing] exactly
    when some catalog entry agrees with the product in all five fields. *)
Theorem match_or_suggest_cases (db : database) (product : NormalizedProduct) :
  outage db = None ->
  (forall id,
     find_matching_sku db product = Ok (Some id) ->
     match_or_suggest db product = Ok (use_existing id product))
  /\ (find_matching_sku db product = Ok None ->
      exists s, suggest_new_sku db product = Ok s
                /\ match_or_suggest db product = Ok (create_new_sku s))
  /\ ((exists id, match_or_suggest db product = Ok (use_existing id product))
      <-> exists row, In row (skus db) /\ same_product product row).
Proof.
  intros Hout. unfold match_or_suggest.
  rewrite (find_matching_sku_answer db product Hout). simpl.
  split; [|split].
  - intros id E. injection E as ->. reflexivity.
  - intros E. injection E as ->. rewrite suggest_new_sku_answer. simpl. eauto.
  - destruct (List.filter (exact_match product) (skus db)) as [|row l] eqn:F.
    + rewrite suggest_new_sku_answer. simpl. split.
      * intros (id & E). discriminate.
      * intros (row & Hrow & Hsame). exfalso.
        assert (Hin : In row (List.filter (exact_match product) (skus db)))
          by (apply filter_In; split; [exact Hrow|apply exact_match_spec, Hsame]).
        rewrite F in Hin. destruct Hin.
    + split; [|eauto]. intros _. exists row.
      assert (Hin : In row (List.filter (exact_match product) (skus db)))
        by (rewrite F; left; reflexivity).
      apply filter_In in Hin. destruct Hin as [Hin Hm]. apply exact_match_spec in Hm. auto.
Qed.
End Matching.

(** ** The fields of a normalized product *)

Section Blank.
Import ProductNormalizer.
Context (U : ucd).

Lemma lstrip_nil (s : ustring) :
  lstrip U s = [] <-> Forall (fun c => isspace U c = true) s.
Proof.
  induction s as [|c s IH]; simpl.
  - split; [constructor|reflexivity].
  - destruct (isspace U c) eqn:E.
    + rewrite IH. split; [intros H; constructor; assumption|].
      intros H. inversion H. assumption.
    + split; [discriminate|]. intros H. inversion H. congruence.
Qed.

Lemma lstrip_head (s : ustring) (c : N) (r : ustring) :
  lstrip U s = c :: r -> isspace U c = false.
Proof.
  induction s as [|a s IH]; simpl; [discriminate|].
  destruct (isspace U a) eqn:E; [exact IH|]. intros H. injection H as <- _. exact E.
Qed.

Lemma py_strip_nil (s : ustring) :
  py_strip U s = [] <-> Forall (fun c => isspace U c = true) s.
Proof.
  unfold py_strip. split.
  - intros H. apply (f_equal (@rev N)) in H. rewrite rev_involutive in H. simpl in H.
    apply lstrip_nil in H. apply lstrip_nil.
    destruct (lstrip U s) as [|c r] eqn:E; [reflexivity|].
    apply lstrip_head in E. exfalso.
    rewrite List.Forall_forall in H. specialize (H c).
    rewrite H in E; [discriminate|]. apply -> in_rev. left. reflexivity.
  - intros H. apply lstrip_nil in H. rewrite H. reflexivity.
Qed.


(** X19.  [normalize] raises [NormalizationError] with the message
    "Product name cannot be empty" exactly when the name consists of
    whitespace only, the empty name included. *)
Theorem blank_name_rejected (product_name : ustring) :
  (Forall (fun c => isspace U c = true) product_name
   <-> normalize U product_name
       = Raise (NormalizationError (u "Product name cannot be empty")))
  /\ normalize U [] = Raise (NormalizationError (u "Product name cannot be empty")).
Proof.
  split; [|reflexivity]. rewrite <- py_strip_nil. unfold normalize. split.
  - intros ->. reflexivity.
  - destruct (py_strip U product_name) as [|c r]; [reflexivity|]. intros H. exfalso.
    unfold _extract_brand, _extract_chipset, _extract_vram in H.
    destruct (re_search U brand_pattern product_name); cbn [bind] in H;
      [|vm_compute in H; discriminate H].
    destruct (re_search U chipset_pattern product_name); cbn [bind] in H;
      [|vm_compute in H; discriminate H].
    destruct (negb (str_in _ RTX_4070_VARIANTS)); cbn [bind] in H;
      [vm_compute in H; discriminate H|].
    destruct (re_search U vram_pattern product_name); cbn [bind] in H;
      [discriminate H|vm_compute in H; discriminate H].
Qed.
End Blank.

Section Vram.
Import ProductNormalizer.
Context (U : ucd).

(** Where a search has found its match. *)
Lemma search_from_locate (r : regex) (s : ustring) :
  forall (before : ustring) (prev : option N) (mo : match_obj),
    search_from U r before prev s = Some mo ->
    exists pre s' rest cap,
      s = pre ++ s'
      /\ match_here U r (last_char prev pre) s' = Some (rest, cap)
      /\ m_before mo = rev before ++ pre
      /\ m_group0 mo = consumed s' rest
      /\ m_group1 mo = group_text cap
      /\ m_after mo = rest.
Proof.
  induction s as [|c s IH]; intros before prev mo; simpl.
  - destruct (match_here U r prev []) as [[rest cap]|] eqn:E; [|discriminate].
    intros H. injection H as <-. exists [], [], rest, cap. simpl.
    rewrite app_nil_r. auto 8.
  - destruct (match_here U r prev (c :: s)) as [[rest cap]|] eqn:E.
    + intros H. injection H as <-. exists [], (c :: s), rest, cap. simpl.
      rewrite app_nil_r. auto 8.
    + intros H. apply IH in H.
      destruct H as (pre & s' & rest & cap & -> & Hm & Hb & H0 & H1 & Ha).
      exists (c :: pre), s', rest, cap. simpl. split; [reflexivity|].
      split; [exact Hm|]. split; [|auto].
      rewrite Hb. simpl. rewrite <- app_assoc. reflexivity.
Qed.

(** A literal leaves the capture as it is. *)
Lemma rmatch_lit_i {R : Type} (l : ustring) :
  forall (prev : option N) (s : ustring) (cap : capture)
         (k : option N -> ustring -> capture -> option R) (x : R),
    rmatch U (lit_i l) prev s cap k = Some x ->
    exists w s',
      s = w ++ s' /\ Forall2 (fun c t => lit_match_i U c t = true) l w
      /\ k (last_char prev w) s' cap = Some x.
Proof.
  induction l as [|c l IH]; intros prev s cap k x H.
  - exists [], s. split; [reflexivity|]. split; [constructor|exact H].
  - unfold lit_i, seqs in H. cbn [map fold_right rmatch] in H.
    destruct s as [|t s]; [discriminate|].
    destruct (lit_match_i U c t) eqn:E; [|discriminate].
    apply IH in H. destruct H as (w & s' & -> & Hw & H).
    exists (t :: w), s'. split; [reflexivity|]. split; [constructor; assumption|exact H].
Qed.

(** What a match of [(\d+)\s*GB] consists of. *)
Lemma vram_match_inv (prev : option N) (s rest : ustring) (cap : capture) :
  match_here U vram_pattern prev s = Some (rest, cap) ->
  exists d tail,
    s = d ++ tail /\ d <> [] /\ Forall (fun c => isdecimal U c = true) d
    /\ cap = Some (s, tail).
Proof.
  unfold match_here, vram_pattern, seqs. cbn [fold_right rmatch].
  destruct s as [|c s]; [discriminate|]. cbn [cset_match].
  destruct (isdecimal U c) eqn:Ec; [|discriminate].
  intros H. apply star_c_sound in H. destruct H as (w & s' & -> & Hw & H).
  exists (c :: w), s'. split; [reflexivity|]. split; [discriminate|].
  split; [constructor; assumption|].
  apply star_c_sound in H. destruct H as (w2 & s2 & -> & _ & H).
  change (Seq (lit_i (u "GB")) Eps) with (Seq (lit_i (u "GB")) Eps) in H.
  cbn [rmatch] in H. apply rmatch_lit_i in H. destruct H as (w3 & s3 & -> & _ & H).
  injection H as _ <-. reflexivity.
Qed.

(** A greedy repetition takes the whole run when what follows succeeds. *)
Lemma star_c_greedy {R : Type} (p : N -> bool) (w s' : ustring) (x : R) :
  forall (prev : option N) (k : option N -> ustring -> option R),
    Forall (fun c => p c = true) w ->
    match s' with [] => True | c :: _ => p c = false end ->
    k (last_char prev w) s' = Some x ->
    star_c p prev (w ++ s') k = Some x.
Proof.
  induction w as [|c w IH]; intros prev k Hw Hs Hk.
  - simpl in *. destruct s' as [|c s']; [exact Hk|]. simpl. rewrite Hs. exact Hk.
  - inversion Hw as [|? ? Hc Hw']; subst. simpl. rewrite Hc.
    rewrite (IH (Some c) k Hw' Hs Hk). reflexivity.
Qed.

Lemma vram_match_digits (prev : option N) (d : ustring) :
  d <> [] -> Forall (fun c => isdecimal U c = true) d ->
  match_here U vram_pattern prev (d ++ u "GB")
  = Some ([], Some (d ++ u "GB", u "GB")).
Proof.
  intros Hne Hd. destruct d as [|c w]; [contradiction|].
  inversion Hd as [|? ? Hc Hw]; subst.
  unfold match_here, vram_pattern, seqs. cbn [fold_right rmatch app cset_match].
  rewrite Hc. apply star_c_greedy; [exact Hw|vm_compute; reflexivity|].
  vm_compute. reflexivity.
Qed.


(** X21.  What [_extract_chipset] returns is extracted again as itself.
    What [_extract_vram] returns is a non-empty run of decimal digits of the
    name followed by "GB", and is extracted again as itself. *)
Theorem extraction_round_trip (name v : ustring) :
  (_extract_chipset U name = Ok v -> _extract_chipset U v = Ok v)
  /\ (_extract_vram U name = Ok v ->
      (exists d pre post,
         v = d ++ u "GB" /\ d <> [] /\ Forall (fun c => isdecimal U c = true) d
         /\ name = pre ++ d ++ post)
      /\ _extract_vram U v = Ok v).
Proof.
  split.
  - intros H. apply extract_chipset_in_series in H.
    repeat (destruct H as [<-|H]; [vm_compute; reflexivity|]). destruct H.
  - unfold _extract_vram at 1.
    destruct (re_search U vram_pattern name) as [mo|] eqn:Hs; [|discriminate].
    intros E. injection E as <-.
    unfold re_search in Hs. apply search_from_locate in Hs.
    destruct Hs as (pre & s' & rest & cap & -> & Hm & _ & _ & Hg & _).
    apply vram_match_inv in Hm. destruct Hm as (d & tail & -> & Hne & Hd & ->).
    rewrite Hg. simpl. rewrite consumed_app.
    split; [exists d, pre, tail; auto|].
    unfold _extract_vram, re_search.
    rewrite (search_from_here U _ _ _ _ _ _ (vram_match_digits None d Hne Hd)).
    cbn [m_group1 group_text]. rewrite consumed_app. reflexivity.
Qed.
End Vram.

Section ModelName.
Import ProductNormalizer.
Context (U : ucd).

Lemma sub_from_class (k : cset) (repl : ustring) (s : ustring) :
  forall prev,
    sub_from U (Chr k) repl O prev s
    = flat_map (fun c => if cset_match U k c then repl else [c]) s.
Proof.
  induction s as [|c s IH]; intros prev; [reflexivity|].
  cbn [sub_from flat_map]. unfold match_here. cbn [rmatch].
  destruct (cset_match U k c).
  - replace (length (c :: s) - length s)%nat with 1%nat by (simpl; lia).
    rewrite IH. reflexivity.
  - rewrite IH. reflexivity.
Qed.

Lemma split_acc_words (s : ustring) :
  forall acc,
    Forall (fun c => isspace U c = false) acc ->
    Forall (is_word_text U) (split_acc U acc s).
Proof.
  assert (Hrev : forall acc, acc <> [] -> Forall (fun c => isspace U c = false) acc ->
                             is_word_text U (rev acc)).
  { intros acc Hne H. split.
    - intros E. apply (f_equal (@rev N)) in E. rewrite rev_involutive in E. contradiction.
    - apply List.Forall_forall. intros c Hc. apply in_rev in Hc.
      rewrite List.Forall_forall in H. apply H, Hc. }
  induction s as [|c s IH]; intros acc Hacc; simpl.
  - destruct acc as [|a acc]; [constructor|].
    constructor; [apply Hrev; [discriminate|exact Hacc]|constructor].
  - destruct (isspace U c) eqn:E.
    + destruct acc as [|a acc]; [apply IH; constructor|].
      constructor; [apply Hrev; [discriminate|exact Hacc]|apply IH; constructor].
    + apply IH. constructor; assumption.
Qed.

Lemma split_acc_chars (s : ustring) :
  forall acc w c, In w (split_acc U acc s) -> In c w -> In c acc \/ In c s.
Proof.
  induction s as [|a s IH]; intros acc w c; simpl.
  - destruct acc as [|b acc]; [intros []|].
    intros [<-|[]] Hc. left. apply in_rev, Hc.
  - destruct (isspace U a).
    + destruct acc as [|b acc].
      * intros Hw Hc. destruct (IH [] w c Hw Hc) as [[]|H]. auto.
      * intros [<-|Hw] Hc; [left; apply in_rev, Hc|].
        destruct (IH [] w c Hw Hc) as [[]|H]. auto.
    + intros Hw Hc. destruct (IH (a :: acc) w c Hw Hc) as [[<-|H]|H]; auto.
Qed.

Lemma lstrip_id (s : ustring) :
  match s with [] => True | c :: _ => isspace U c = false end -> lstrip U s = s.
Proof. destruct s as [|c s]; [reflexivity|]. simpl. intros ->. reflexivity. Qed.

Lemma join_words_ends (words : list ustring) :
  Forall (is_word_text U) words ->
  match py_join (u " ") words with [] => True | c :: _ => isspace U c = false end
  /\ match rev (py_join (u " ") words) with [] => True | c :: _ => isspace U c = false end.
Proof.
  induction 1 as [|w words [Hne Hw] Hws IH]; [simpl; auto|].
  assert (Hhead : match w with [] => True | c :: _ => isspace U c = false end).
  { destruct w as [|c w]; [exact I|]. inversion Hw. assumption. }
  assert (Hlast : match rev w with [] => True | c :: _ => isspace U c = false end).
  { destruct (rev w) as [|c r] eqn:E; [exact I|].
    rewrite List.Forall_forall in Hw. apply Hw. apply in_rev. rewrite E. left. reflexivity. }
  destruct words as [|w2 words].
  - simpl. auto.
  - change (py_join (u " ") (w :: w2 :: words))
      with (w ++ u " " ++ py_join (u " ") (w2 :: words)).
    split.
    + destruct w as [|c w]; [contradiction|]. exact Hhead.
    + rewrite !rev_app_distr.
      destruct IH as [_ IH].
      destruct (rev (py_join (u " ") (w2 :: words))) as [|c r] eqn:E; [|exact IH].
      exfalso. apply (f_equal (@rev N)) in E. rewrite rev_involutive in E. simpl in E.
      inversion Hws as [|? ? [Hne2 _] _]; subst.
      destruct words; simpl in E.
      * contradiction.
      * destruct w2; [contradiction|discriminate].
Qed.

Lemma strip_joined_words (words : list ustring) :
  Forall (is_word_text U) words ->
  py_strip U (py_join (u " ") words) = py_join (u " ") words.
Proof.
  intros H. destruct (join_words_ends words H) as [H1 H2].
  unfold py_strip. rewrite (lstrip_id _ H1), (lstrip_id _ H2). apply rev_involutive.
Qed.

Lemma normalize_fields (name : ustring) (p : NormalizedProduct) :
  normalize U name = Ok p ->
  py_strip U name <> []
  /\ _extract_brand U name = Ok (brand p)
  /\ _extract_chipset U name = Ok (chipset p)
  /\ _extract_vram U name = Ok (vram p)
  /\ is_oc p = _detect_oc U name
  /\ model_name p = _extract_model_name U name (brand p) (chipset p).
Proof.
  unfold normalize. destruct (py_strip U name); [discriminate|].
  destruct (_extract_brand U name); [|discriminate]. cbn [bind].
  destruct (_extract_chipset U name); [|discriminate]. cbn [bind].
  destruct (_extract_vram U name); [|discriminate]. cbn [bind].
  intros E. injection E as <-. cbn. repeat split. discriminate.
Qed.


(** X22.  The model name of a normalized product is either the product
    name unchanged, or a text of more than two characters made of words
    separated by single spaces, each word consisting of word characters,
    Hangul syllables and hyphens. *)
Theorem model_name_tidy (name : ustring) (p : NormalizedProduct) :
  normalize U name = Ok p ->
  model_name p = name
  \/ exists words,
       model_name p = py_join (u " ") words
       /\ (2 < length (model_name p))%nat
       /\ Forall (is_word_text U) words
       /\ Forall (fun w => forallb (model_char U) w = true) words.
Proof.
  intros H. apply normalize_fields in H. destruct H as (_ & _ & _ & _ & _ & ->).
  unfold _extract_model_name.
  set (cleaned6 := re_sub U gpu_family [] _).
  unfold re_sub, decoration. rewrite !sub_from_class.
  set (cleaned7 := flat_map _ cleaned6).
  assert (Hwords : Forall (is_word_text U) (py_split U cleaned7))
    by (apply split_acc_words; constructor).
  rewrite (strip_joined_words _ Hwords).
  destruct (2 <? length (py_join (u " ") (py_split U cleaned7)))%nat eqn:El;
    [|left; reflexivity].
  right. exists (py_split U cleaned7). split; [reflexivity|].
  split; [apply Nat.ltb_lt, El|]. split; [exact Hwords|].
  apply List.Forall_forall. intros w Hw. apply forallb_forall. intros c Hc.
  assert (Hns : isspace U c = false).
  { rewrite List.Forall_forall in Hwords. destruct (Hwords w Hw) as [_ Hf].
    rewrite List.Forall_forall in Hf. apply Hf, Hc. }
  destruct (split_acc_chars cleaned7 [] w c Hw Hc) as [[]|Hin].
  unfold cleaned7 in Hin. apply in_flat_map in Hin. destruct Hin as (c0 & _ & Hin).
  cbn [cset_match] in Hin.
  destruct (isword U c0 || (isspace U c0 || ((44032 <=? c0) && (c0 <=? 55203) || (c0 =? 45))))
    eqn:Ek; simpl in Hin.
  - destruct Hin as [<-|[]]. unfold model_char.
    rewrite Hns in Ek. simpl in Ek. rewrite <- orb_assoc. exact Ek.
  - destruct Hin as [<-|[]]. exfalso. revert Hns. vm_compute. discriminate.
Qed.
End ModelName.

(** ** The brand *)

Section Brand.
Import ProductNormalizer.
Context (U : ucd).
Hypothesis HU : hangul_caseless U.

Lemma hangul_not_ascii (c : N) : is_hangul c = true -> is_ascii c = false.
Proof.
  unfold is_hangul, is_ascii. intros H. apply andb_true_iff in H. destruct H as [H _].
  apply N.leb_le in H. apply N.ltb_ge. lia.
Qed.

Lemma hangul_literal (l t : N) :
  is_hangul l = true -> lit_match_i U l t = true -> t = l.
Proof.
  intros Hl H. unfold lit_match_i, iscased, tolower, toupper in H.
  rewrite (hangul_not_ascii l Hl) in H.
  destruct (HU l Hl) as (E1 & E2 & _). rewrite E1, E2, N.eqb_refl in H. simpl in H.
  apply N.eqb_eq, H.
Qed.

Lemma ascii_literal_not_hangul (l t : N) :
  l < 128 -> is_hangul t = true -> lit_match_i U l t = false.
Proof.
  intros Hl Ht.
  assert (Hall : forallb (fun l =>
             forallb (fun x => negb (is_hangul x)) (sre_fixes (ascii_tolower l))
             && negb (is_hangul (ascii_tolower l)) && negb (is_hangul l))
             (below 128) = true) by (vm_compute; reflexivity).
  pose proof (below_spec 128 _ Hall l Hl) as H.
  apply andb_true_iff in H. destruct H as [H H3]. apply andb_true_iff in H.
  destruct H as [H1 H2].
  unfold lit_match_i, tolower.
  assert (Ha : is_ascii l = true) by (apply N.ltb_lt, Hl).
  rewrite Ha, (hangul_not_ascii t Ht). destruct (HU t Ht) as (E1 & _). rewrite E1.
  destruct (iscased U l).
  - apply orb_false_iff. split.
    + apply N.eqb_neq. intros ->. rewrite Ht in H2. discriminate.
    + apply not_true_iff_false. intros E. apply existsb_exists in E.
      destruct E as (x & Hx & E). apply N.eqb_eq in E. subst x.
      rewrite forallb_forall in H1. specialize (H1 t Hx). rewrite Ht in H1. discriminate.
  - apply N.eqb_neq. intros ->. rewrite Ht in H3. discriminate.
Qed.

Lemma brand_alternative_text (brand w : ustring) :
  In brand BRANDS ->
  Forall2 (fun c t => lit_match_i U c t = true) brand w ->
  forallb (fun c => is_ascii c || is_hangul c) w = true ->
  (In brand hangul_brands /\ w = brand)
  \/ (In brand latin_brands /\ In w (case_variants brand)).
Proof.
  intros Hb Hm Hw.
  assert (Hkinds : forallb (fun b => str_in b hangul_brands && forallb is_hangul b
                                     || str_in b latin_brands
                                        && forallb (fun c => (c <? 128) && isalnum U c) b)
                           BRANDS = true) by (vm_compute; reflexivity).
  rewrite forallb_forall in Hkinds. specialize (Hkinds brand Hb).
  apply orb_true_iff in Hkinds. destruct Hkinds as [H|H];
    apply andb_true_iff in H; destruct H as [Hin Hc]; apply str_in_In in Hin.
  - left. split; [exact Hin|]. clear -Hm Hc HU.
    induction Hm as [|c t l x Hct _ IH]; [reflexivity|].
    simpl in Hc. apply andb_true_iff in Hc. destruct Hc as [Hc1 Hc2].
    rewrite (hangul_literal c t Hc1 Hct), (IH Hc2). reflexivity.
  - right. split; [exact Hin|].
    assert (Hplain : plain_word U brand).
    { split.
      - intros ->. inversion Hm; subst.
        revert Hin. vm_compute. intuition discriminate.
      - apply List.Forall_forall. intros c Hcin. rewrite forallb_forall in Hc.
        specialize (Hc c Hcin). apply andb_true_iff in Hc. destruct Hc as [H1 H2].
        apply N.ltb_lt in H1. auto. }
    assert (Hascii : forallb is_ascii w = true).
    { clear -Hm Hc Hw HU. induction Hm as [|c t l x Hct _ IH]; [reflexivity|].
      simpl in Hc, Hw |- *. apply andb_true_iff in Hc, Hw.
      destruct Hc as [Hc1 Hc2], Hw as [Hw1 Hw2]. rewrite (IH Hw2 Hc2), andb_true_r.
      apply orb_true_iff in Hw1. destruct Hw1 as [Hw1|Hw1]; [exact Hw1|].
      apply andb_true_iff in Hc1. destruct Hc1 as [Hc1 _]. apply N.ltb_lt in Hc1.
      rewrite (ascii_literal_not_hangul c t Hc1 Hw1) in Hct. discriminate. }
    exact (proj1 (matched_word U brand w Hplain Hm Hascii)).
Qed.

Lemma brand_match_inv (prev : option N) (s rest : ustring) (cap : capture) :
  match_here U brand_pattern prev s = Some (rest, cap) ->
  exists w brand,
    s = w ++ rest /\ cap = Some (s, rest) /\ In brand BRANDS
    /\ Forall2 (fun c t => lit_match_i U c t = true) brand w.
Proof.
  unfold brand_pattern. rewrite match_here_alternatives.
  destruct (at_boundary U prev s); [|discriminate].
  intros H. apply first_some_In, in_map_iff in H. destruct H as (a & Ha & Hin).
  apply in_map_iff in Hin. destruct Hin as (brand & <- & Hb).
  unfold try_alternative in Ha. apply rmatch_lit_i in Ha.
  destruct Ha as (w & s' & -> & Hm & Ha).
  destruct (at_boundary U _ s'); [|discriminate]. injection Ha as <- <-.
  exists w, brand. auto.
Qed.

Lemma upper_hangul (w : ustring) : forallb is_hangul w = true -> py_upper U w = w.
Proof.
  induction w as [|c w IH]; [reflexivity|]. simpl. intros H.
  apply andb_true_iff in H. destruct H as [Hc Hw].
  unfold upper_char. rewrite (hangul_not_ascii c Hc).
  destruct (HU c Hc) as (_ & _ & ->). simpl. f_equal. apply IH, Hw.
Qed.


(** X20.  Provided the Unicode tables leave the Hangul syllables without
    case, as the standard does: whenever [_extract_brand] returns a brand
    for a name whose matched text is made of ASCII characters and Hangul
    syllables, the brand is one of the fifteen names in Latin capitals; the
    three Hangul names are mapped to their Latin forms. *)
Theorem brand_is_canonical (name b : ustring) :
  _extract_brand U name = Ok b ->
  (forall mo w, re_search U brand_pattern name = Some mo -> m_group1 mo = Some w ->
                forallb (fun c => is_ascii c || is_hangul c) w = true) ->
  In b latin_brands.
Proof.
  unfold _extract_brand. destruct (re_search U brand_pattern name) as [mo|] eqn:Hs;
    [|discriminate].
  intros E Hw. injection E as <-. specialize (Hw mo).
  unfold re_search in Hs. apply search_from_inv in Hs.
  destruct Hs as (s' & p & rest & cap & Hm & _ & Hg).
  apply brand_match_inv in Hm. destruct Hm as (w & brand & -> & -> & Hb & Hm).
  simpl in Hg. rewrite consumed_app in Hg. rewrite Hg in *.
  specialize (Hw w eq_refl eq_refl). change (default [] (Some w)) with w.
  destruct (brand_alternative_text brand w Hb Hm Hw) as [[Hin ->]|[Hin Hv]].
  - assert (Hh : forallb is_hangul brand = true).
    { revert Hin. clear. intros H.
      repeat (destruct H as [<-|H]; [vm_compute; reflexivity|]). destruct H. }
    rewrite (upper_hangul brand Hh).
    revert Hin. clear. intros H.
    repeat (destruct H as [<-|H]; [vm_compute; tauto|]). destruct H.
  - apply str_in_In.
    assert (Hall : forallb (fun l => forallb (fun x =>
                str_in (dict_get brand_mapping (py_upper U x) (py_upper U x)) latin_brands)
                (case_variants l)) latin_brands = true) by (vm_compute; reflexivity).
    rewrite forallb_forall in Hall. specialize (Hall brand Hin).
    rewrite forallb_forall in Hall. exact (Hall w Hv).
Qed.
End Brand.

(** ** Retries *)

Section RetryFacts.
Import Config DatabaseManager.
Context {A : Type} (settings : Settings) (attempt : nat -> outcome A)
        (final_error : list frag -> exn).

(** The loop passes the attempts that fail with an error of the driver. *)
Lemma retry_loop_skip (e : nat -> list frag) (n : nat) :
  forall (fuel : nat) (r : nat) (last_error : option (list frag)) (slept : list Z),
    (forall i, (r <= i < r + n)%nat -> attempt i = driver_error (e i)) ->
    (Z.of_nat (r + n) < max_retries settings)%Z ->
    retry_loop settings attempt final_error (n + fuel) (Z.of_nat r) last_error slept
    = retry_loop settings attempt final_error fuel (Z.of_nat (r + n))
                 (match n with O => last_error | S m => Some (e (r + m)%nat) end)
                 (slept ++ backoffs settings r n).
Proof.
  induction n as [|n IH]; intros fuel r last_error slept Hfail Hlt.
  - simpl. rewrite Nat.add_0_r. unfold backoffs. simpl. rewrite app_nil_r. reflexivity.
  - cbn [Nat.add retry_loop].
    assert (Hr : (Z.of_nat r <? max_retries settings)%Z = true) by (apply Z.ltb_lt; lia).
    rewrite Hr, Nat2Z.id, (Hfail r) by lia.
    assert (Hr1 : (Z.of_nat r + 1 <? max_retries settings)%Z = true) by (apply Z.ltb_lt; lia).
    rewrite Hr1.
    replace (Z.of_nat r + 1)%Z with (Z.of_nat (S r)) by lia.
    cbv zeta. rewrite IH; [|intros i Hi; apply Hfail; lia|lia].
    replace (S r + n)%nat with (r + S n)%nat by lia.
    f_equal.
    + destruct n as [|m]; [f_equal; f_equal; lia|f_equal; f_equal; lia].
    + rewrite <- app_assoc. f_equal. unfold backoffs. cbn [seq map app].
      replace (Z.of_nat (S r) - 1)%Z with (Z.of_nat r) by lia. reflexivity.
Qed.

Lemma retry_loop_stop (fuel : nat) (r : Z) (last_error : option (list frag))
      (slept : list Z) :
  (max_retries settings <= r)%Z ->
  retry_loop settings attempt final_error fuel r last_error slept
  = Some (Raise (final_error (format_last_error last_error)), slept).
Proof.
  intros H. destruct fuel; simpl; rewrite (proj2 (Z.ltb_ge _ _) H); reflexivity.
Qed.

Lemma retry_loop_reaches (e : nat -> list frag) (k : nat) :
  (Z.of_nat k < max_retries settings)%Z ->
  (forall i, (i < k)%nat -> attempt i = driver_error (e i)) ->
  retry_loop settings attempt final_error (Z.to_nat (max_retries settings)) 0 None []
  = retry_loop settings attempt final_error (Z.to_nat (max_retries settings) - k) (Z.of_nat k)
               (match k with O => None | S m => Some (e m) end)
               (backoffs settings 0 k).
Proof.
  intros Hk Hfail.
  replace (Z.to_nat (max_retries settings))
    with (k + (Z.to_nat (max_retries settings) - k))%nat at 1 by lia.
  change 0%Z with (Z.of_nat 0).
  rewrite (retry_loop_skip e k); [reflexivity|intros i Hi; apply Hfail; lia|simpl; exact Hk].
Qed.

Lemma retry_loop_answers :
  forall (fuel r : nat) (last_error : option (list frag)) (slept : list Z),
    (max_retries settings - Z.of_nat r <= Z.of_nat fuel)%Z ->
    exists res n,
      retry_loop settings attempt final_error fuel (Z.of_nat r) last_error slept
      = Some (res, slept ++ backoffs settings r n)
      /\ (n = O \/ (Z.of_nat (r + n) < max_retries settings)%Z)
      /\ (forall i, (r <= i < r + n)%nat -> exists e, attempt i = driver_error e)
      /\ (forall a, res = Ok a ->
            attempt (r + n)%nat = returns a /\ (Z.of_nat (r + n) < max_retries settings)%Z).
Proof.
  induction fuel as [|fuel IH]; intros r last_error slept Hfuel.
  - exists (Raise (final_error (format_last_error last_error))), O.
    rewrite retry_loop_stop by lia. unfold backoffs. simpl. rewrite app_nil_r.
    split; [reflexivity|]. split; [auto|]. split; [intros; lia|discriminate].
  - destruct (Z.ltb_spec (Z.of_nat r) (max_retries settings)) as [Hr|Hr].
    + cbn [retry_loop]. rewrite (proj2 (Z.ltb_lt _ _) Hr), Nat2Z.id.
      destruct (attempt r) as [a|e|x] eqn:Ea.
      * exists (Ok a), O. unfold backoffs. simpl. rewrite app_nil_r, Nat.add_0_r.
        split; [reflexivity|]. split; [auto|]. split; [intros; lia|].
        intros a' E. injection E as <-. auto.
      * cbv zeta. replace (Z.of_nat r + 1)%Z with (Z.of_nat (S r)) by lia.
        destruct (Z.ltb_spec (Z.of_nat (S r)) (max_retries settings)) as [Hr1|Hr1].
        -- destruct (IH (S r) (Some e)
                        (slept ++ [(retry_backoff_seconds settings
                                    * 2 ^ (Z.of_nat (S r) - 1))%Z]))
             as (res & n & E & Hn & Hfail & Hok); [lia|].
           exists res, (S n). rewrite E.
           split; [|split; [|split]].
           ++ rewrite <- app_assoc. unfold backoffs. cbn [seq map app].
              replace (Z.of_nat (S r) - 1)%Z with (Z.of_nat r) by lia. reflexivity.
           ++ right. destruct Hn as [->|Hn]; [|replace (r + S n)%nat with (S r + n)%nat by lia;
                                                exact Hn].
              replace (r + 1)%nat with (S r) by lia. exact Hr1.
           ++ intros i Hi. destruct (Nat.eq_dec i r) as [->|Hne]; [eauto|].
              apply Hfail. lia.
           ++ intros a Ha. replace (r + S n)%nat with (S r + n)%nat by lia. apply Hok, Ha.
        -- rewrite retry_loop_stop by lia.
           exists (Raise (final_error (format_last_error (Some e)))), O.
           unfold backoffs. simpl. rewrite app_nil_r.
           split; [reflexivity|]. split; [auto|]. split; [intros; lia|discriminate].
      * exists (Raise x), O. unfold backoffs. simpl. rewrite app_nil_r.
        split; [reflexivity|]. split; [auto|]. split; [intros; lia|discriminate].
    + exists (Raise (final_error (format_last_error last_error))), O.
      rewrite retry_loop_stop by lia. unfold backoffs. simpl. rewrite app_nil_r.
      split; [reflexivity|]. split; [auto|]. split; [intros; lia|discriminate].
Qed.
End RetryFacts.

Section RetryTheorems.
Import Config DatabaseManager.
Context {A : Type} (settings : Settings) (attempt : nat -> outcome A).


(** X23.  With settings that meet the constraints of their fields
    ([max_retries >= 1], [retry_backoff_seconds >= 1]): if the attempts
    before attempt [k] fail with driver errors and [k < max_retries], then
    attempt [k] decides: [execute_with_retry]
    and [_initialize_pool] return its result, or raise its exception when it
    is not a driver error, after having slept
    [retry_backoff_seconds * 2 ** i] after each failed attempt [i]. *)
Theorem retry_until_first_answer (e : nat -> list frag) (k : nat) :
  field_constraints settings ->
  (Z.of_nat k < max_retries settings)%Z ->
  (forall i, (i < k)%nat -> attempt i = driver_error (e i)) ->
  (forall a, attempt k = returns a ->
     execute_with_retry settings attempt = Some (Ok a, backoffs settings 0 k)
     /\ _initialize_pool settings attempt = Some (Ok a, backoffs settings 0 k))
  /\ (forall x, attempt k = other_error x ->
        execute_with_retry settings attempt = Some (Raise x, backoffs settings 0 k)
        /\ _initialize_pool settings attempt = Some (Raise x, backoffs settings 0 k)).
Proof.
  intros _ Hk Hfail.
  assert (Hstep : forall final_error,
            retry_loop settings attempt final_error (Z.to_nat (max_retries settings)) 0 None []
            = retry_loop settings attempt final_error
                         (S (Z.to_nat (max_retries settings) - k - 1)) (Z.of_nat k)
                         (match k with O => None | S m => Some (e m) end)
                         (backoffs settings 0 k)).
  { intros final_error.
    rewrite (retry_loop_reaches settings attempt final_error e k Hk Hfail).
    f_equal. lia. }
  split.
  - intros a Ea. unfold execute_with_retry, _initialize_pool.
    rewrite 2!Hstep. cbn [retry_loop].
    rewrite (proj2 (Z.ltb_lt _ _) Hk), Nat2Z.id, Ea. auto.
  - intros x Ea. unfold execute_with_retry, _initialize_pool.
    rewrite 2!Hstep. cbn [retry_loop].
    rewrite (proj2 (Z.ltb_lt _ _) Hk), Nat2Z.id, Ea. auto.
Qed.


(** X24.  With settings that meet the constraints of their fields: if
    all [max_retries] attempts fail with driver errors, [execute_with_retry]
    raises [DatabaseError] and [_initialize_pool] raises
    [DatabaseConnectionError], each naming the number of attempts and the
    last error, after [max_retries - 1] pauses: there is no pause after the
    last attempt. *)
Theorem retry_gives_up (e : nat -> list frag) :
  field_constraints settings ->
  (forall i, (Z.of_nat i < max_retries settings)%Z -> attempt i = driver_error (e i)) ->
  execute_with_retry settings attempt
  = Some (Raise (DatabaseError
                   ([Txt "Query failed after "; Int (max_retries settings);
                     Txt " attempts: "] ++ e (Z.to_nat (max_retries settings) - 1)%nat)),
          backoffs settings 0 (Z.to_nat (max_retries settings) - 1))
  /\ _initialize_pool settings attempt
     = Some (Raise (DatabaseConnectionError
                      ([Txt "Failed to connect to database after ";
                        Int (max_retries settings); Txt " attempts: "]
                         ++ e (Z.to_nat (max_retries settings) - 1)%nat)),
             backoffs settings 0 (Z.to_nat (max_retries settings) - 1)).
Proof.
  intros [Hmax _] Hfail.
  assert (Hloop : forall final_error,
            retry_loop settings attempt final_error (Z.to_nat (max_retries settings)) 0 None []
            = Some (Raise (final_error (e (Z.to_nat (max_retries settings) - 1)%nat)),
                    backoffs settings 0 (Z.to_nat (max_retries settings) - 1))).
  { intros final_error. set (k := (Z.to_nat (max_retries settings) - 1)%nat).
    assert (Hk : (Z.of_nat k < max_retries settings)%Z) by lia.
    rewrite (retry_loop_reaches settings attempt final_error e k Hk)
      by (intros i Hi; apply Hfail; lia).
    replace (Z.to_nat (max_retries settings) - k)%nat with 1%nat by lia.
    cbn [retry_loop]. rewrite (proj2 (Z.ltb_lt _ _) Hk), Nat2Z.id, (Hfail k Hk).
    cbv zeta.
    assert (Hend : (Z.of_nat k + 1 <? max_retries settings)%Z = false)
      by (apply Z.ltb_ge; lia).
    rewrite !Hend. reflexivity. }
  unfold execute_with_retry, _initialize_pool. rewrite !Hloop. auto.
Qed.


(** X25.  With settings that meet the constraints of their fields,
    [execute_with_retry] always ends, after [n] pauses, where [n] is below
    [max_retries]: the pauses follow the attempts 0 to
    [n - 1], which all failed with driver errors, and double from
    [retry_backoff_seconds]; and when it returns a value, that is the value
    of attempt [n], made within the limit. *)
Theorem retry_always_answers :
  field_constraints settings ->
  exists res n,
    execute_with_retry settings attempt = Some (res, backoffs settings 0 n)
    /\ (Z.of_nat n < max_retries settings)%Z
    /\ (forall i, (i < n)%nat -> exists e, attempt i = driver_error e)
    /\ (forall a, res = Ok a -> attempt n = returns a).
Proof.
  intros [Hmax _]. unfold execute_with_retry.
  destruct (retry_loop_answers settings attempt
              (fun last_error =>
                 DatabaseError ([Txt "Query failed after "; Int (max_retries settings);
                                 Txt " attempts: "] ++ last_error))
              (Z.to_nat (max_retries settings)) 0 None [])
    as (res & n & E & Hn & Hfail & Hok); [lia|].
  exists res, n. simpl in *. split; [exact E|]. split; [destruct Hn; lia|].
  split; [intros i Hi; apply Hfail; lia|intros a Ha; apply Hok, Ha].
Qed.
End RetryTheorems.

(** ** The alert message *)

Section AlertMessage.
Import Loader.

Lemma negative_threshold (threshold risk_index : Qc) :
  (threshold * Q2Qc (3 # 2) < risk_index)%Qc -> (risk_index < threshold)%Qc ->
  (threshold < Q2Qc 0)%Qc.
Proof.
  unfold Qclt. intros H1 H2.
  change (this (threshold * Q2Qc (3 # 2))%Qc)
    with (Qred (this threshold * Qred (3 # 2))) in H1.
  rewrite !Qred_correct in H1. change (this (Q2Qc 0)) with (Qred 0). rewrite Qred_correct.
  generalize dependent (this threshold). generalize dependent (this risk_index).
  intros r t H1 H2. lra.
Qed.

Lemma message_parts_split (product_name : ustring) (risk_index threshold : Qc)
      (factors : alert_factors) :
  exists body,
    (length body <= 6)%nat /\ (2 <= length body)%nat
    /\ ~ In recommend_disposal body /\ ~ In recommend_monitoring body
    /\ message_parts product_name risk_index threshold factors
       = body ++ (if Qcltb (threshold * Q2Qc (3 # 2))%Qc risk_index
                  then [recommend_disposal]
                  else if Qcltb threshold risk_index then [recommend_monitoring] else []).
Proof.
  unfold message_parts.
  set (p1 := [Lit "제품: "; Str product_name]).
  set (p2 := [Lit "위험 지수: "; Fixed2 risk_index; Lit " (임계값: "; Fixed2 threshold; Lit ")"]).
  exists ([p1; p2]
            ++ match price_change_pct factors with
               | Some x => [[Lit "가격 변동: "; Fixed2 x; Lit "%"]] | None => [] end
            ++ match new_release_mentions factors with
               | Some n => [[Lit "신제품 언급: "; Dec n; Lit "회"]] | None => [] end
            ++ match sentiment_score factors with
               | Some x => [[Lit "감성 점수: "; Fixed2 x]] | None => [] end
            ++ match reason factors with
               | Some r => [[Lit "원인: "; Str r]] | None => [] end).
  destruct (price_change_pct factors), (new_release_mentions factors),
    (sentiment_score factors), (reason factors); cbn [app length];
    (split; [lia|]); (split; [lia|]);
    (split; [intros H; repeat (destruct H as [H|H]; [discriminate H|]); exact H|]);
    (split; [intros H; repeat (destruct H as [H|H]; [discriminate H|]); exact H|]);
    destruct (Qcltb (threshold * Q2Qc (3 # 2))%Qc risk_index);
    try destruct (Qcltb threshold risk_index); reflexivity.
Qed.


(** X26.  [_format_alert_message] joins two to seven lines.  The line
    recommending disposal is present exactly when the risk index is above
    1.5 times the threshold, and the line recommending closer monitoring
    exactly when it is above the threshold and not above 1.5 times it.  So
    for a risk index that [check_threshold] flags, which is below the
    threshold, monitoring is never recommended, and disposal only when the
    threshold is negative. *)
Theorem alert_recommendation (product_name : ustring) (risk_index threshold : Qc)
        (factors : alert_factors) :
  _format_alert_message product_name risk_index threshold factors
  = join_parts (message_parts product_name risk_index threshold factors)
  /\ (2 <= length (message_parts product_name risk_index threshold factors) <= 7)%nat
  /\ (In recommend_disposal (message_parts product_name risk_index threshold factors)
      <-> (threshold * Q2Qc (3 # 2) < risk_index)%Qc)
  /\ (In recommend_monitoring (message_parts product_name risk_index threshold factors)
      <-> (threshold < risk_index)%Qc /\ (risk_index <= threshold * Q2Qc (3 # 2))%Qc)
  /\ (RiskCalculator.check_threshold threshold risk_index = true ->
      ~ In recommend_monitoring (message_parts product_name risk_index threshold factors)
      /\ (In recommend_disposal (message_parts product_name risk_index threshold factors) ->
          (threshold < Q2Qc 0)%Qc)).
Proof.
  split; [reflexivity|]. unfold RiskCalculator.check_threshold. rewrite Qcltb_lt.
  destruct (message_parts_split product_name risk_index threshold factors)
    as (body & Hlen & Hlen2 & Hd & Hm & ->).
  rewrite !in_app_iff, length_app.
  destruct (Qcltb (threshold * Q2Qc (3 # 2))%Qc risk_index) eqn:E1.
  - apply Qcltb_lt in E1. simpl. split; [lia|]. split; [tauto|]. split.
    + split.
      * intros [H|[H|[]]]; [contradiction|discriminate H].
      * intros [_ H]. exfalso. exact (Qcle_not_lt _ _ H E1).
    + intros Hhigh. split.
      * intros [H|[H|[]]]; [contradiction|discriminate H].
      * intros _. exact (negative_threshold _ _ E1 Hhigh).
  - apply not_true_iff_false in E1. rewrite Qcltb_lt in E1. apply Qcnot_lt_le in E1.
    destruct (Qcltb threshold risk_index) eqn:E2.
    + apply Qcltb_lt in E2. simpl. split; [lia|]. split.
      * split.
        -- intros [H|[H|[]]]; [contradiction|discriminate H].
        -- intros H. exfalso. exact (Qcle_not_lt _ _ E1 H).
      * split; [tauto|]. intros Hhigh. exfalso.
        exact (Qclt_not_le _ _ Hhigh (Qclt_le_weak _ _ E2)).
    + apply not_true_iff_false in E2. rewrite Qcltb_lt in E2.
      simpl. split; [lia|]. split.
      * split; [intros [H|[]]; contradiction|].
        intros H. exfalso. exact (Qcle_not_lt _ _ E1 H).
      * split.
        -- split; [intros [H|[]]; contradiction|]. intros [H _]. contradiction.
        -- intros _. split; [intros [H|[]]; contradiction|].
           intros [H|[]]. contradiction.
Qed.
End AlertMessage.

(** ** The product stage of the pipeline *)

Section Transform.
Import Storage ProductNormalizer SKUMatcher ETLPipeline.
Context (U : ucd).

Lemma transform_fold (db : database) (l : list PriceData) :
  forall st : transform_state,
    let st' := fold_left (transform_product U db) l st in
    normalized_products st'
    = normalized_products st ++ normalizable U (map product_name l)
    /\ (products_normalized st' - products_normalized st
        + Z.of_nat (length (errors st')) - Z.of_nat (length (errors st))
        = Z.of_nat (length l))%Z
    /\ (products_normalized st <= products_normalized st')%Z
    /\ (forall e, outage db = Some e ->
          sku_mapping st' = sku_mapping st
          /\ products_normalized st' = products_normalized st)
    /\ (forall name, sku_mapping st' !! name <> sku_mapping st !! name ->
          exists price_data p,
            In price_data l /\ product_name price_data = name
            /\ normalize U name = Ok p
            /\ exists r, match_or_suggest db p = Ok r).
Proof.
  induction l as [|pd l IH]; intros st; cbn [fold_left map].
  - cbv zeta. unfold normalizable. simpl. rewrite app_nil_r.
    repeat split; try lia; try reflexivity. intros name H. congruence.
  - specialize (IH (transform_product U db st pd)). cbv zeta in *.
    destruct IH as (IH1 & IH2 & IH3 & IH4 & IH5).
    set (st1 := transform_product U db st pd) in *.
    set (st' := fold_left (transform_product U db) l st1) in *.
    assert (H1 : normalized_products st1
                 = normalized_products st
                     ++ match normalize U (product_name pd) with Ok p => [p] | Raise _ => [] end
                 /\ (products_normalized st1 - products_normalized st
                     + Z.of_nat (length (errors st1)) - Z.of_nat (length (errors st)) = 1)%Z
                 /\ (products_normalized st <= products_normalized st1)%Z
                 /\ (forall e, outage db = Some e ->
                       sku_mapping st1 = sku_mapping st
                       /\ products_normalized st1 = products_normalized st)
                 /\ (forall name, sku_mapping st1 !! name <> sku_mapping st !! name ->
                       product_name pd = name
                       /\ exists p, normalize U name = Ok p
                                    /\ exists r, match_or_suggest db p = Ok r)).
    { unfold st1, transform_product.
      destruct (normalize U (product_name pd)) as [p|e] eqn:En.
      - destruct (match_or_suggest db p) as [r|e] eqn:Em.
        + cbn. split; [reflexivity|]. split; [lia|]. split; [lia|]. split.
          * intros e Hout. exfalso.
            unfold match_or_suggest, find_matching_sku, execute in Em. rewrite Hout in Em.
            discriminate Em.
          * intros name Hne. destruct (decide (product_name pd = name)) as [<-|Hd].
            -- split; [reflexivity|]. eauto.
            -- rewrite lookup_insert_ne in Hne by exact Hd. congruence.
        + destruct e; cbn; rewrite ?length_app; cbn;
            (split; [reflexivity|]); (split; [lia|]); (split; [lia|]);
            (split; [auto|]); intros name Hne; congruence.
      - cbn. rewrite length_app. cbn. rewrite app_nil_r.
        split; [reflexivity|]. split; [lia|]. split; [lia|]. split; [auto|].
        intros name Hne. congruence. }
    destruct H1 as (H1 & H2 & H3 & H4 & H5).
    split; [|split; [|split; [|split]]].
    + rewrite IH1, H1, <- app_assoc. reflexivity.
    + cbn [length]. lia.
    + lia.
    + intros e Hout. destruct (IH4 e Hout) as [-> ->]. apply (H4 e Hout).
    + intros name Hne.
      destruct (decide (sku_mapping st' !! name = sku_mapping st1 !! name)) as [E|E].
      * rewrite E in Hne. destruct (H5 name Hne) as (Hn & p & Hp & Hr).
        exists pd, p. split; [left; reflexivity|]. auto.
      * destruct (IH5 name E) as (pd' & p & Hin & Hn & Hp & Hr).
        exists pd', p. split; [right; exact Hin|]. auto.
Qed.


(** X27.  [transform_products], started with no products and no
    errors, collects the products of the names that normalize, in order;
    [products_normalized], which is not negative, plus the number of
    errors is the number of listings; every entry of the SKU mapping belongs to a listing whose name
    normalizes and whose match succeeded; and during a storage outage the
    mapping stays empty, nothing counts as normalized, and every listing
    gives an error. *)
Theorem transform_products_accounts (db : database) (price_data_list : list PriceData) :
  let st := transform_products U db 0 [] price_data_list in
  normalized_products st = normalizable U (map product_name price_data_list)
  /\ (products_normalized st + Z.of_nat (length (errors st))
      = Z.of_nat (length price_data_list))%Z
  /\ (0 <= products_normalized st)%Z
  /\ (forall name entry,
        sku_mapping st !! name = Some entry ->
        exists price_data p,
          In price_data price_data_list /\ product_name price_data = name
          /\ normalize U name = Ok p
          /\ exists r, match_or_suggest db p = Ok r)
  /\ (forall e, outage db = Some e ->
        sku_mapping st = ∅ /\ products_normalized st = 0%Z
        /\ length (errors st) = length price_data_list).
Proof.
  cbv zeta. unfold transform_products.
  destruct (transform_fold db price_data_list
              {| normalized_products := []; sku_mapping := ∅;
                 products_normalized := 0; errors := [] |})
    as (H1 & H2 & H3 & H4 & H5).
  cbn in *. split; [exact H1|]. split; [lia|]. split; [exact H3|]. split.
  - intros name entry E. apply H5. rewrite E, lookup_empty. discriminate.
  - intros e Hout. destruct (H4 e Hout) as [E1 E2]. split; [exact E1|].
    split; [exact E2|]. lia.
Qed.
End Transform.

(** ** The chipset filter of the crawler *)

Section Crawler.
Import DanawaCrawler.
Context (U : ucd).

Lemma startswith_spec (p s : ustring) :
  startswith p s = true <-> exists b, s = p ++ b.
Proof.
  revert s. induction p as [|a p IH]; intros s; simpl.
  - split; [eauto|reflexivity].
  - destruct s as [|c s].
    + split; [discriminate|]. intros (b & E). discriminate.
    + rewrite andb_true_iff, N.eqb_eq, IH. split.
      * intros [-> (b & ->)]. eauto.
      * intros (b & E). injection E as -> ->. eauto.
Qed.

Lemma contains_spec (p s : ustring) :
  contains p s = true <-> exists a b, s = a ++ p ++ b.
Proof.
  induction s as [|c s IH]; simpl.
  - rewrite orb_false_r, startswith_spec. split.
    + intros (b & E). exists [], b. exact E.
    + intros (a & b & E). destruct a; [|discriminate]. eauto.
  - rewrite orb_true_iff, startswith_spec, IH. split.
    + intros [(b & E)|(a & b & ->)]; [exists [], b; exact E|exists (c :: a), b; reflexivity].
    + intros (a & b & E). destruct a as [|x a].
      * left. eauto.
      * injection E as -> ->. right. eauto.
Qed.

Lemma contains_part (p q r s : ustring) :
  contains (p ++ q ++ r) s = true -> contains q s = true.
Proof.
  rewrite !contains_spec. intros (a & b & ->).
  exists (a ++ p), (r ++ b). rewrite <- !app_assoc. reflexivity.
Qed.


(** X28.  The chipset filter of the crawler: for "RTX 4070" it accepts
    every name that contains RTX4070 once in capitals and without spaces,
    the longer variants included; for "RTX 4070 Ti" it accepts the names
    containing RTX4070TI and not TISUPER.  So whatever one of the four
    filters accepts, the filter for "RTX 4070" accepts too, and a name
    accepted for "RTX 4070 Ti Super" is rejected for "RTX 4070 Ti". *)
Theorem chipset_filter_overlaps (product_name : ustring) :
  (_is_matching_chipset U product_name (u "RTX 4070")
   = contains (u "RTX4070") (squeezed U product_name))
  /\ (_is_matching_chipset U product_name (u "RTX 4070 Ti")
      = contains (u "RTX4070TI") (squeezed U product_name)
        && negb (contains (u "TISUPER") (squeezed U product_name)))
  /\ (forall chipset,
        In chipset RTX_4070_VARIANTS ->
        _is_matching_chipset U product_name chipset = true ->
        _is_matching_chipset U product_name (u "RTX 4070") = true)
  /\ (_is_matching_chipset U product_name (u "RTX 4070 Ti Super") = true ->
      _is_matching_chipset U product_name (u "RTX 4070 Ti") = false).
Proof.
  assert (H0 : _is_matching_chipset U product_name (u "RTX 4070")
               = contains (u "RTX4070") (squeezed U product_name)).
  { unfold _is_matching_chipset, squeezed.
    change (without_spaces (py_upper U (u "RTX 4070"))) with (u "RTX4070").
    destruct (contains (u "RTX4070") _); reflexivity. }
  assert (H1 : _is_matching_chipset U product_name (u "RTX 4070 Ti")
               = contains (u "RTX4070TI") (squeezed U product_name)
                 && negb (contains (u "TISUPER") (squeezed U product_name))).
  { unfold _is_matching_chipset, squeezed.
    change (without_spaces (py_upper U (u "RTX 4070 Ti"))) with (u "RTX4070TI").
    change (contains (u "TI") (py_upper U (u "RTX 4070 Ti"))) with true.
    change (contains (u "SUPER") (py_upper U (u "RTX 4070 Ti"))) with false.
    destruct (contains (u "RTX4070TI") _), (contains (u "TISUPER") _); reflexivity. }
  split; [exact H0|]. split; [exact H1|]. split.
  - intros chipset Hin H. rewrite H0.
    assert (Hc : contains (without_spaces (py_upper U chipset)) (squeezed U product_name)
                 = true).
    { unfold _is_matching_chipset in H. fold (squeezed U product_name) in H.
      destruct (contains (without_spaces (py_upper U chipset)) (squeezed U product_name));
        [reflexivity|discriminate]. }
    destruct Hin as [<-|[<-|[<-|[<-|[]]]]].
    + exact Hc.
    + apply (contains_part [] (u "RTX4070") (u "SUPER")). exact Hc.
    + apply (contains_part [] (u "RTX4070") (u "TI")). exact Hc.
    + apply (contains_part [] (u "RTX4070") (u "TISUPER")). exact Hc.
  - intros H. rewrite H1.
    assert (Hc : contains (u "RTX4070TISUPER") (squeezed U product_name) = true).
    { unfold _is_matching_chipset in H. fold (squeezed U product_name) in H.
      change (without_spaces (py_upper U (u "RTX 4070 Ti Super")))
        with (u "RTX4070TISUPER") in H.
      destruct (contains (u "RTX4070TISUPER") (squeezed U product_name));
        [reflexivity|discriminate]. }
    rewrite (contains_part (u "RTX4070") (u "TISUPER") [] _ Hc).
    apply andb_false_r.
Qed.
End Crawler.
(** ** Further examples *)

Section FurtherExamples.

Ltac evaluated :=
  vm_compute;
  first [ reflexivity | discriminate
        | f_equal; apply Qc_is_canon; reflexivity ].

Lemma historical_prices_any_window_witness :
  PriceAnalyzer._get_historical_prices sample_db (timedelta_days 30) 1 7 (-1) = Ok [].
Proof.
  destruct (historical_prices_any_window sample_db (timedelta_days 30) 1 7 (-1) eq_refl)
    as (rows & H & _ & _ & Hneg).
  rewrite H, (Hneg ltac:(lia)). reflexivity.
Defined.


Lemma window_within_history_witness :
  exists t, In (t, Qc_of_Z 1000000) [(timedelta_days 23, Qc_of_Z 1000000)]
            /\ (timedelta_days 30 - timedelta_days (7 + 1) <= t)%Z
            /\ (t <= timedelta_days 30 - timedelta_days (7 - 1))%Z.
Proof.
  apply (proj2 (window_within_history sample_db (timedelta_days 30) 1 7 1 90
                  [Qc_of_Z 1000000] [(timedelta_days 23, Qc_of_Z 1000000)]
                  ltac:(lia) eq_refl eq_refl)
               (Qc_of_Z 1000000)).
  left. reflexivity.
Defined.

Lemma sufficient_data_monotone_witness :
  PriceAnalyzer.has_sufficient_data sample_db (timedelta_days 31) 1 5 = Ok true
  /\ PriceAnalyzer.has_sufficient_data sample_db (timedelta_days 30) 2 0 = Ok false.
Proof.
  split.
  - apply (proj2 (sufficient_data_monotone sample_db (timedelta_days 30) 1 7)).
    + vm_compute. reflexivity.
    + vm_compute. discriminate.
    + lia.
  - apply (proj1 (sufficient_data_monotone sample_db (timedelta_days 30) 2 0)).
    reflexivity.
Defined.

Lemma analysis_implies_six_days_witness :
  PriceAnalyzer.has_sufficient_data recent_db (timedelta_days 30) 1 6 = Ok true
  /\ PriceAnalyzer.has_sufficient_data recent_db (timedelta_days 30) 1 7 = Ok false.
Proof.
  split; [|vm_compute; reflexivity].
  apply (analysis_implies_six_days recent_db (timedelta_days 30) 1 (Qc_of_Z 550000) 0
                                   (Qc_of_Z 10)); [|lia|lia].
  left. evaluated.
Defined.

Lemma price_change_sign_witness :
  (Qc_of_Z (-100) <= Qc_of_Z 10)%Qc
  /\ (forall current_price' r',
        PriceAnalyzer.calculate_price_change sample_db (timedelta_days 30) 1 current_price'
        = Ok r' ->
        (Qc_of_Z 1100000 <= current_price')%Qc -> (Qc_of_Z 10 <= r')%Qc).
Proof.
  destruct (price_change_sign sample_db (timedelta_days 30) 1 (Qc_of_Z 1100000) (Qc_of_Z 10))
    as (H1 & _ & _ & H4).
  - evaluated.
  - evaluated.
  - split; assumption.
Defined.

Lemma risk_index_rejections_witness :
  RiskCalculator.calculate_risk_index sample_db (timedelta_days 30) 1 (Qc_of_Z 950000) (-1)
  = Raise (ValueError [Txt "Invalid new_release_mentions: "; Int (-1);
                       Txt ". Must be non-negative."]).
Proof.
  apply (proj1 (proj2 (risk_index_rejections sample_db (timedelta_days 30) 1
                                             (Qc_of_Z 950000) (-1)))).
  - vm_compute. reflexivity.
  - lia.
Defined.

Lemma risk_index_monotone_witness :
  exists r',
    RiskCalculator.calculate_risk_index sample_db (timedelta_days 30) 1 (Qc_of_Z 950000) 20
    = Ok r'
    /\ (Qc_of_Z (-49997) <= r')%Qc.
Proof.
  destruct (risk_index_monotone sample_db (timedelta_days 30) 1 (Qc_of_Z 950000) 10
                                (Qc_of_Z (-49997)) ltac:(evaluated)
                                (Qc_of_Z 950000) 20
                                ltac:(vm_compute; discriminate) ltac:(lia))
    as (r' & H & Hle & _).
  exists r'. split; assumption.
Defined.

Lemma risk_with_sentiment_counts_new_release_witness :
  RiskCalculator.calculate_risk_with_sentiment
    ucd_excerpt (Qc_of_Z (-100)) sample_db (timedelta_days 30) 1 (Qc_of_Z 950000)
    (<[u "Price Drop" := 4%Z]> (<[u "Leak" := 10%Z]> ∅))
  = RiskCalculator.calculate_risk_with_sentiment
      ucd_excerpt (Qc_of_Z (-100)) sample_db (timedelta_days 30) 1 (Qc_of_Z 950000)
      (<[u "Leak" := 10%Z]> ∅).
Proof.
  apply (risk_with_sentiment_counts_new_release
           ucd_excerpt (Qc_of_Z (-100)) sample_db (timedelta_days 30) 1 (Qc_of_Z 950000)
           (<[u "Leak" := 10%Z]> ∅)).
  - vm_compute. reflexivity.
  - vm_compute. reflexivity.
Defined.

Lemma contributing_factors_cases_witness :
  RiskCalculator.get_contributing_factors
    (Qc_of_Z (-100)) catalog_down (timedelta_days 30) 1 (Qc_of_Z 950000) 10
  = RiskCalculator.factors_error
      [Txt "Query failed after 3 attempts: connection lost"] (Qc_of_Z 950000) 10.
Proof.
  apply (proj1 (contributing_factors_cases
                  (Qc_of_Z (-100)) catalog_down (timedelta_days 30) 1 (Qc_of_Z 950000) 10)
               (DatabaseError [Txt "Query failed after 3 attempts: connection lost"])).
  reflexivity.
Defined.

Lemma breakdown_adds_up_witness :
  exists f,
    RiskCalculator.get_contributing_factors
      (Qc_of_Z (-100)) sample_db (timedelta_days 30) 1 (Qc_of_Z 950000) 10
    = RiskCalculator.factors f
    /\ (Qabs (Qc_of_Z (-49997)
              - (RiskCalculator.f_price_delta f + RiskCalculator.f_sentiment_impact f))
        <= 3 # 200)%Q.
Proof.
  apply (breakdown_adds_up (Qc_of_Z (-100)) sample_db (timedelta_days 30) 1
                           (Qc_of_Z 950000) 10 (Qc_of_Z (-49997))).
  - evaluated.
  - vm_compute. discriminate.
Defined.

Lemma sentiment_score_weighted_sum_witness :
  SentimentAnalyzer.calculate_sentiment_score Config.default_settings
                                              (<[u "Leak" := 2%Z]> ∅)
  = Qc_of_Z 6.
Proof.
  destruct (sentiment_score_weighted_sum Config.default_settings)
    as (Hempty & Hinsert & _ & Hleak & _).
  rewrite (Hinsert (∅ : gmap ustring Z) (u "Leak") 2%Z (lookup_empty _)), Hempty, Hleak.
  apply Qc_is_canon. vm_compute. reflexivity.
Defined.


Lemma matching_sku_exact_witness :
  exists row,
    In row (Storage.skus sample_catalog) /\ Storage.sku_id row = 3%Z
    /\ same_product listed_product row.
Proof.
  apply (proj1 (proj2 (matching_sku_exact sample_catalog listed_product eq_refl))).
  vm_compute. reflexivity.
Defined.

Lemma match_or_suggest_cases_witness :
  SKUMatcher.match_or_suggest sample_catalog listed_product
  = Ok (SKUMatcher.use_existing 3 listed_product).
Proof.
  apply (proj1 (match_or_suggest_cases sample_catalog listed_product eq_refl)).
  vm_compute. reflexivity.
Defined.

Lemma suggestion_never_fails_witness :
  exists s,
    SKUMatcher.suggest_new_sku catalog_down sample_product = Ok s
    /\ SKUMatcher.similar_existing_skus s = None /\ SKUMatcher.note s = None.
Proof.
  destruct (suggestion_never_fails catalog_down sample_product)
    as (s & H & _ & _ & Hdown & _).
  exists s. split; [exact H|]. apply Hdown. discriminate.
Defined.

Lemma batch_match_one_entry_each_witness :
  SKUMatcher.batch_match catalog_down [sample_product; listed_product]
  = Ok (map (SKUMatcher.error
               [Txt "Failed to find matching SKU: ";
                Txt "Query failed after 3 attempts: connection lost"])
            [sample_product; listed_product]).
Proof.
  apply (proj1 (proj2 (batch_match_one_entry_each
                         catalog_down [sample_product; listed_product]))
               (DatabaseError [Txt "Query failed after 3 attempts: connection lost"])).
  reflexivity.
Defined.

Lemma blank_name_rejected_witness :
  ProductNormalizer.normalize ucd_excerpt (u "  ")
  = Raise (ProductNormalizer.NormalizationError (u "Product name cannot be empty")).
Proof.
  apply (proj1 (blank_name_rejected ucd_excerpt (u "  "))).
  repeat constructor.
Defined.

Lemma extraction_round_trip_witness :
  ProductNormalizer._extract_chipset ucd_excerpt (u "RTX 4070 Super")
  = Ok (u "RTX 4070 Super").
Proof.
  apply (proj1 (extraction_round_trip ucd_excerpt (u "msi rtx  4070 super 12gb")
                                      (u "RTX 4070 Super"))).
  vm_compute. reflexivity.
Defined.

Lemma model_name_tidy_witness :
  ProductNormalizer.model_name listed_product = u "ASUS Dual RTX 4070 Super 12GB"
  \/ exists words,
       ProductNormalizer.model_name listed_product = py_join (u " ") words
       /\ (2 < length (ProductNormalizer.model_name listed_product))%nat
       /\ Forall (is_word_text ucd_excerpt) words
       /\ Forall (fun w => forallb (model_char ucd_excerpt) w = true) words.
Proof.
  apply (model_name_tidy ucd_excerpt (u "ASUS Dual RTX 4070 Super 12GB") listed_product).
  vm_compute. reflexivity.
Defined.

Lemma ucd_excerpt_hangul_caseless : hangul_caseless ucd_excerpt.
Proof.
  intros c Hc. unfold is_hangul in Hc.
  apply andb_prop in Hc. destruct Hc as [Hlo Hhi].
  apply N.leb_le in Hlo. apply N.leb_le in Hhi.
  cbn [ext_tolower ext_toupper ext_upper ucd_excerpt].
  destruct (N.eqb_spec c 304); [lia|].
  destruct (N.eqb_spec c 8490); [lia|].
  destruct (N.eqb_spec c 305); [lia|].
  destruct (N.eqb_spec c 383); [lia|].
  repeat split.
Qed.

Lemma brand_is_canonical_witness :
  In (u "GIGABYTE") latin_brands.
Proof.
  apply (brand_is_canonical ucd_excerpt ucd_excerpt_hangul_caseless
                            (u "기가바이트 RTX 4070 12GB") (u "GIGABYTE")).
  - vm_compute. reflexivity.
  - intros mo w Hmo Hw. vm_compute in Hmo.
    injection Hmo as <-. injection Hw as <-. reflexivity.
Defined.

Lemma retry_until_first_answer_witness :
  DatabaseManager.execute_with_retry Config.default_settings flaky_query
  = Some (Ok [1; 2; 3]%Z, [5; 10]%Z).
Proof.
  apply (proj1 (retry_until_first_answer Config.default_settings flaky_query
                  (fun _ => [Txt "connection lost"]) 2
                  ltac:(split; vm_compute; discriminate) eq_refl
                  ltac:(intros [|[|i]] Hi; [reflexivity | reflexivity | lia]))
               [1; 2; 3]%Z eq_refl).
Defined.

Lemma retry_gives_up_witness :
  DatabaseManager.execute_with_retry Config.default_settings dead_query
  = Some (Raise (DatabaseError [Txt "Query failed after "; Int 3; Txt " attempts: ";
                                Txt "connection lost"]),
          [5; 10]%Z).
Proof.
  apply (proj1 (retry_gives_up Config.default_settings dead_query
                               (fun _ => [Txt "connection lost"])
                               ltac:(split; vm_compute; discriminate)
                               ltac:(intros i _; reflexivity))).
Defined.

Lemma retry_always_answers_witness :
  exists res n,
    DatabaseManager.execute_with_retry Config.default_settings flaky_query
    = Some (res, backoffs Config.default_settings 0 n)
    /\ (Z.of_nat n < 3)%Z.
Proof.
  destruct (retry_always_answers Config.default_settings flaky_query
                                 ltac:(split; vm_compute; discriminate))
    as (res & n & H & Hn & _).
  exists res, n. split; assumption.
Defined.

Lemma alert_recommendation_witness :
  (Qc_of_Z (-100) < Q2Qc 0)%Qc
  /\ (In Loader.recommend_monitoring
         (Loader.message_parts (u "ASUS Dual RTX 4070 Super") (Qc_of_Z (-120))
            (Qc_of_Z (-100))
            {| Loader.price_change_pct := Some (Qc_of_Z (-12));
               Loader.new_release_mentions := Some 4%Z;
               Loader.sentiment_score := None;
               Loader.reason := None |}) -> False).
Proof.
  destruct (alert_recommendation (u "ASUS Dual RTX 4070 Super") (Qc_of_Z (-120))
                                 (Qc_of_Z (-100))
              {| Loader.price_change_pct := Some (Qc_of_Z (-12));
                 Loader.new_release_mentions := Some 4%Z;
                 Loader.sentiment_score := None;
                 Loader.reason := None |})
    as (_ & _ & Hdisposal & _ & Hflagged).
  destruct (Hflagged ltac:(vm_compute; reflexivity)) as [Hno Hneg].
  split; [|exact Hno].
  apply Hneg, Hdisposal. vm_compute. reflexivity.
Defined.

Lemma transform_products_accounts_witness :
  length (ETLPipeline.errors
            (ETLPipeline.transform_products ucd_excerpt catalog_down 0 [] sample_listings))
  = 2%nat.
Proof.
  destruct (transform_products_accounts ucd_excerpt catalog_down sample_listings)
    as (_ & _ & _ & _ & H).
  destruct (H _ eq_refl) as (_ & _ & Hlen). exact Hlen.
Defined.

Lemma chipset_filter_overlaps_witness :
  DanawaCrawler._is_matching_chipset ucd_excerpt (u "ASUS TUF RTX 4070 Ti Super 16GB")
                                     (u "RTX 4070 Ti")
  = false.
Proof.
  apply (proj2 (proj2 (proj2
           (chipset_filter_overlaps ucd_excerpt (u "ASUS TUF RTX 4070 Ti Super 16GB"))))).
  vm_compute. reflexivity.
Defined.

End FurtherExamples.
